(** * Douban Top 250 scraper: cache, extraction and orchestration

    A shallow embedding of [src/src/scraper.py].  Python [str] values are
    sequences of code points, bs4 trees are an inductive type, exceptions
    are an explicit result type, and the file system, the remote server
    and the log of requests and sleeps are threaded through a state
    monad. *)

From Stdlib Require Import ZArith Lia List String Ascii.
From stdpp Require Import gmap strings list.

Set Warnings "-register-all".

(** ** Python text *)

Module Py.
Local Open Scope N_scope.

(** A [str] is a sequence of Unicode code points. *)
Definition char := N.
Definition str := list N.

(** Source literals are written as UTF-8 string constants and decoded once
    by [u]. *)
Fixpoint utf8_points (bs : list N) : str :=
  match bs with
  | [] => []
  | b :: r =>
    if b <? 128 then b :: utf8_points r
    else if b <? 224 then
      match r with
      | b2 :: r' => ((b - 192) * 64 + (b2 - 128)) :: utf8_points r'
      | _ => []
      end
    else if b <? 240 then
      match r with
      | b2 :: b3 :: r' =>
        ((b - 224) * 4096 + (b2 - 128) * 64 + (b3 - 128)) :: utf8_points r'
      | _ => []
      end
    else
      match r with
      | b2 :: b3 :: b4 :: r' =>
        ((b - 240) * 262144 + (b2 - 128) * 4096 + (b3 - 128) * 64 + (b4 - 128))
          :: utf8_points r'
      | _ => []
      end
  end.

Definition u (s : string) : str :=
  utf8_points (map N_of_ascii (list_ascii_of_string s)).

Fixpoint str_eqb (a b : str) : bool :=
  match a, b with
  | [], [] => true
  | x :: a', y :: b' => (x =? y) && str_eqb a' b'
  | _, _ => false
  end.

(** [str.isspace] on one character, as [str.strip()] uses it. *)
Definition isspace (c : char) : bool :=
  ((9 <=? c) && (c <=? 13)) || ((28 <=? c) && (c <=? 32))
  || (c =? 133) || (c =? 160) || (c =? 5760)
  || ((8192 <=? c) && (c <=? 8202))
  || (c =? 8232) || (c =? 8233) || (c =? 8239) || (c =? 8287) || (c =? 12288).

Fixpoint lstrip_by (p : char -> bool) (s : str) : str :=
  match s with
  | c :: r => if p c then lstrip_by p r else s
  | [] => []
  end.

Definition rstrip_by (p : char -> bool) (s : str) : str :=
  rev (lstrip_by p (rev s)).

(** [s.strip()] *)
Definition strip (s : str) : str := rstrip_by isspace (lstrip_by isspace s).

(** [s.lstrip(chars)] *)
Definition lstrip_chars (chars s : str) : str :=
  lstrip_by (fun c => existsb (N.eqb c) chars) s.

Fixpoint starts_with (p s : str) : bool :=
  match p, s with
  | [], _ => true
  | a :: p', b :: s' => (a =? b) && starts_with p' s'
  | _ :: _, [] => false
  end.

(** [sub in s] *)
Fixpoint contains (sub s : str) : bool :=
  starts_with sub s ||
  match s with
  | [] => false
  | _ :: r => contains sub r
  end.

(** [s.split(sep)] for a non-empty [sep]: [skip] counts the characters of a
    separator that has been recognised and is still being consumed, [cur]
    is the piece under construction, reversed. *)
Fixpoint split_go (sep s : str) (skip : nat) (cur : str) : list str :=
  match s with
  | [] => [rev cur]
  | c :: r =>
    match skip with
    | S k => split_go sep r k cur
    | O =>
      if starts_with sep s
      then rev cur :: split_go sep r (Nat.pred (List.length sep)) []
      else split_go sep r O (c :: cur)
    end
  end.

Definition split (sep s : str) : list str := split_go sep s O [].

(** [s.replace(old, new)] for a non-empty [old]. *)
Fixpoint replace_go (old new s : str) (skip : nat) : str :=
  match s with
  | [] => []
  | c :: r =>
    match skip with
    | S k => replace_go old new r k
    | O =>
      if starts_with old s
      then new ++ replace_go old new r (Nat.pred (List.length old))
      else c :: replace_go old new r O
    end
  end.

Definition replace (old new s : str) : str := replace_go old new s O.

(** [sep.join(parts)] *)
Fixpoint join (sep : str) (parts : list str) : str :=
  match parts with
  | [] => []
  | [p] => p
  | p :: rest => p ++ sep ++ join sep rest
  end.

(** [l[-1]] of a non-empty list *)
Definition last_item {A} (l : list A) : option A := List.last (map Some l) None.

(** [l[:n]] and [l[n:]] *)
Definition slice_to {A} (n : nat) (l : list A) : list A := firstn n l.
Definition slice_from {A} (n : nat) (l : list A) : list A := skipn n l.

End Py.

(** ** Exceptions and results

    [Unrepresented] is not an exception of Python: it marks an outcome in
    which the program carries on with a value that the typed records of
    the embedding cannot hold (see [ill_typed]). *)

Inductive exn :=
| ValueError (msg : string)
| TypeError (msg : string)
| OverflowError
| UnicodeEncodeError
| HTTPError (status : Z)
| ConnectionError
| FileNotFoundError
| FileExistsError
| NotADirectoryError
| IsADirectoryError
| JSONDecodeError
| Unrepresented.

Inductive result (A : Type) :=
| Ok (a : A)
| Raise (e : exn).
Arguments Ok {A} a.
Arguments Raise {A} e.

Definition rbind {A B} (r : result A) (k : A -> result B) : result B :=
  match r with
  | Ok a => k a
  | Raise e => Raise e
  end.

Definition of_option {A} (o : option A) (e : exn) : result A :=
  match o with
  | Some a => Ok a
  | None => Raise e
  end.

Notation "'let!' x ':=' c 'in' k" := (rbind c (fun x => k))
  (at level 10, x name, c at level 100, k at level 200).

(** ** The interpreter's primitives

    Floating-point values and the Unicode digit tables belong to the
    interpreter; the embedding takes them as an interface.  [py_float] is
    [float(s)] ([None] for [ValueError]); [float_json] is the text the JSON
    encoder emits for a float; [uni_decimal] and [uni_isdigit] classify the
    characters beyond ASCII for [int()] and [str.isdigit].  The random
    source and the clock are the interpreter's as well: [uniform a b n] is
    the value of [random.uniform(a, b)] when it is called after [n] events
    of the run, and [sleep_error d] is the exception that [time.sleep(d)]
    raises, [None] when it sleeps ([ValueError] for a negative or NaN
    delay, [OverflowError] for one that is too large). *)
Class Interp := {
  float : Type;
  float_zero : float;
  py_float : Py.str -> option float;
  float_json : float -> Py.str;
  uni_decimal : N -> option N;
  uni_isdigit : N -> bool;
  uniform : float -> float -> nat -> float;
  sleep_error : float -> option exn
}.

(** ** Conversions: [int()], [str.isdigit], and the module's helpers *)

Section Conversions.
Context `{Interp}.
Import Py.
Local Open Scope N_scope.

Definition ascii_digit (c : char) : bool := (48 <=? c) && (c <=? 57).

(** [char.isdigit()] *)
Definition isdigit (c : char) : bool :=
  if c <? 128 then ascii_digit c else uni_isdigit c.

(** [int(s)] first maps spaces and decimal digits beyond ASCII to their
    ASCII counterparts, and anything else beyond ASCII to a question mark. *)
Definition int_ascii (c : char) : char :=
  if c <? 128 then c
  else if isspace c then 32
  else match uni_decimal c with
       | Some d => 48 + d
       | None => 63
       end.

Definition int_isspace (c : char) : bool :=
  ((9 <=? c) && (c <=? 13)) || (c =? 32).

(** Digits with single underscores between them; [prev_us] records that the
    previous character was an underscore. *)
Fixpoint int_scan (s : str) (prev_us : bool) (acc : Z) : option (Z * str) :=
  match s with
  | [] => if prev_us then None else Some (acc, [])
  | c :: r =>
    if ascii_digit c then int_scan r false (acc * 10 + Z.of_N (c - 48))%Z
    else if c =? 95 then (if prev_us then None else int_scan r true acc)
    else if prev_us then None else Some (acc, s)
  end.

(** The interpreter's limit on the digits of a decimal integer text
    ([sys.int_info.default_max_str_digits]): beyond it [int(s)] and
    [str(n)] raise [ValueError]. *)
Definition max_str_digits : N := 4300.

Definition within_limit (digits : str) : bool :=
  N.of_nat (List.length digits) <=? max_str_digits.

(** [int(s)]; [None] stands for [ValueError].  The digits counted against
    the limit are those of the text, leading zeros included, underscores
    not. *)
Definition py_int (s : str) : option Z :=
  let t := lstrip_by int_isspace (map int_ascii s) in
  let '(neg, t) :=
    match t with
    | c :: r =>
      if c =? 43 then (false, r) else if c =? 45 then (true, r) else (false, t)
    | [] => (false, t)
    end in
  match t with
  | c :: _ =>
    if ascii_digit c then
      match int_scan t false 0 with
      | Some (n, rest) =>
        match lstrip_by int_isspace rest with
        | [] =>
          if within_limit (List.filter ascii_digit t)
          then Some (if neg then (- n)%Z else n)
          else None
        | _ => None
        end
      | None => None
      end
    else None
  | [] => None
  end.

(** The [ValueError] of [int()]; the message, which quotes the text or
    names the digit limit, is not kept apart. *)
Definition int_error : exn :=
  ValueError "invalid literal for int() with base 10".

(** [_safe_int] (scraper.py, 291-297) *)
Definition _safe_int (value : option str) : option Z :=
  match value with
  | None => None
  | Some v => py_int v
  end.

(** [_extract_vote_count] (scraper.py, 300-302) *)
Definition _extract_vote_count (value : str) : result Z :=
  let digits := List.filter isdigit value in
  match digits with
  | [] => Ok 0%Z
  | _ => of_option (py_int digits) int_error
  end.

End Conversions.

(** ** Parsed markup (bs4)

    A parsed page is a tree of tags and text strings.  The value of the
    multi-valued [class] attribute is kept apart from the other attributes. *)

Module Bs4.
Import Py.

Inductive node :=
| Text (s : str)
| Tag (name : str) (classes : list str) (attrs : list (str * str))
      (contents : list node).

(** A node followed by everything below it, in document order. *)
Fixpoint subtree (n : node) : list node :=
  match n with
  | Text _ => [n]
  | Tag _ _ _ cs => n :: flat_map subtree cs
  end.

(** [tag.descendants] *)
Definition descendants (n : node) : list node :=
  match n with
  | Text _ => []
  | Tag _ _ _ cs => flat_map subtree cs
  end.

(** Does a node match [name] and, when given, [class_]?  A class query
    matches when it is one of the tag's classes. *)
Definition matches (name : str) (class_ : option str) (n : node) : bool :=
  match n with
  | Text _ => false
  | Tag nm cls _ _ =>
    str_eqb nm name &&
    match class_ with
    | None => true
    | Some c => existsb (str_eqb c) cls
    end
  end.

(** [tag.find_all(name, class_=...)] *)
Definition find_all (name : str) (class_ : option str) (n : node) : list node :=
  List.filter (matches name class_) (descendants n).

(** [tag.find(name, class_=...)] *)
Definition find (name : str) (class_ : option str) (n : node) : option node :=
  head (find_all name class_ n).

(** The text strings below a node, each stripped, the empty ones dropped
    ([_all_strings(strip=True)]). *)
Definition text_of (n : node) : option str :=
  match n with
  | Text s => Some s
  | Tag _ _ _ _ => None
  end.

Definition stripped_strings (n : node) : list str :=
  List.filter (fun s => negb (str_eqb s []))
    (map strip (omap text_of (descendants n))).

(** [tag.get_text(separator=sep, strip=True)] *)
Definition get_text (sep : str) (n : node) : str :=
  join sep (stripped_strings n).

(** [tag.has_attr(key)] and [tag[key]] *)
Definition attr (key : str) (n : node) : option str :=
  match n with
  | Text _ => None
  | Tag _ _ attrs _ => snd <$> List.find (fun kv => str_eqb (fst kv) key) attrs
  end.

End Bs4.

(** ** The record type (scraper.py, 25-49) *)

Section Record.
Context `{Interp}.
Import Py.

Record Movie := {
  rank : Z;
  title : str;
  original_title : option str;
  year : option Z;
  country : option str;
  genres : list str;
  rating : float;
  votes : Z;
  quote : option str;
  detail_url : str;
  poster_url : option str;
  is_playable : bool;
  directors : list str;
  actors : list str
}.

(** The generated constructor followed by [__post_init__]: the last four
    parameters have defaults, and [None] for [directors] or [actors] is
    replaced by a fresh empty list. *)
Definition new_Movie (rank : Z) (title : str) (original_title : option str)
    (year : option Z) (country : option str) (genres : list str)
    (rating : float) (votes : Z) (quote : option str) (detail_url : str)
    (poster_url : option (option str)) (is_playable : option bool)
    (directors actors : option (option (list str))) : Movie :=
  {| rank := rank; title := title; original_title := original_title;
     year := year; country := country; genres := genres; rating := rating;
     votes := votes; quote := quote; detail_url := detail_url;
     poster_url := default None poster_url;
     is_playable := default false is_playable;
     directors := default [] (default None directors);
     actors := default [] (default None actors) |}.

End Record.

(** ** The field extractor (scraper.py, 121-275) *)

Section Extractor.
Context `{Interp}.
Import Py Bs4.
Local Open Scope Z_scope.

(** Truth value of an optional string: [None] and the empty string are
    false. *)
Definition truthy (o : option str) : bool :=
  match o with
  | Some (_ :: _) => true
  | _ => false
  end.

Definition nonempty (s : str) : bool :=
  match s with
  | [] => false
  | _ => true
  end.

(** [[x.strip() for x in s.split("/") if x.strip()]] *)
Definition slash_parts (s : str) : list str :=
  List.filter nonempty (map strip (split (u "/") s)).

(** Rank (lines 123-125). *)
Definition parse_rank (li : node) : result Z :=
  match find (u "em") None li with
  | Some rank_tag => of_option (py_int (get_text [] rank_tag)) int_error
  | None => Ok 0
  end.

(** Titles (lines 127-146). *)
Definition parse_title (li : node) : str :=
  match find_all (u "span") (Some (u "title")) li with
  | t0 :: _ => get_text [] t0
  | [] => []
  end.

Definition second_title (li : node) : option str :=
  match find_all (u "span") (Some (u "title")) li with
  | _ :: t1 :: _ =>
    let second_title := strip (lstrip_chars (u "/") (get_text [] t1)) in
    if nonempty second_title then Some second_title else None
  | _ => None
  end.

Definition parse_original_title (li : node) : option str :=
  let original_title := second_title li in
  match find (u "span") (Some (u "other")) li with
  | Some other_title_tag =>
    if negb (truthy original_title) then
      let other_text :=
        strip (lstrip_chars (u "/") (get_text [] other_title_tag)) in
      if nonempty other_text then
        Some (if contains (u "/") other_text
              then strip (hd [] (split (u "/") other_text))
              else other_text)
      else original_title
    else original_title
  | None => original_title
  end.

(** Detail link and poster (lines 148-156). *)
Definition parse_detail_url (li : node) : str :=
  match find (u "a") None li with
  | Some detail_link => default [] (attr (u "href") detail_link)
  | None => []
  end.

Definition parse_poster_url (li : node) : option str :=
  match find (u "img") None li with
  | Some img_tag => attr (u "src") img_tag
  | None => None
  end.

(** Playable marker (lines 158-162). *)
Definition parse_is_playable (li : node) : bool :=
  match find (u "span") (Some (u "playable")) li with
  | Some _ => true
  | None => false
  end.

(** Directors and actors (lines 164-196).  The operations inside the
    [try] raise none of the exceptions it guards against. *)
Definition parse_directors (li : node) : list str :=
  match find (u "p") None li with
  | Some info_block =>
    let info_text := get_text [] info_block in
    if contains (u "导演:") info_text then
      let director_part :=
        if contains (u "主演:") info_text
        then hd [] (split (u "主演:") info_text)
        else info_text in
      if contains (u "导演:") director_part then
        match split (u "导演:") director_part with
        | _ :: p1 :: _ => slice_to 3 (slash_parts (strip p1))
        | _ => []
        end
      else []
    else []
  | None => []
  end.

Definition parse_actors (li : node) : list str :=
  match find (u "p") None li with
  | Some info_block =>
    let info_text := get_text [] info_block in
    if contains (u "主演:") info_text then
      match split (u "主演:") info_text with
      | _ :: actors_part :: _ =>
        let actors_text :=
          if contains (u "<br") actors_part
          then hd [] (split (u "<br") actors_part)
          else actors_part in
        slice_to 5 (slash_parts actors_text)
      | _ => []
      end
    else []
  | None => []
  end.

(** Year, country and genres (lines 198-223). *)
Definition info_lines (info_block : node) : list str :=
  List.filter nonempty
    (map strip (split [10%N] (get_text [10%N] info_block))).

Definition metadata_parts (info_block : node) : list str :=
  match last_item (info_lines info_block) with
  | Some metadata_line =>
    slash_parts
      (replace (u "&nbsp;") (u " ") (replace [160%N] (u " ") metadata_line))
  | None => []
  end.

Definition parse_meta (li : node) : option Z * option str * list str :=
  match find (u "p") None li with
  | Some info_block =>
    match metadata_parts info_block with
    | [] => (None, None, [])
    | p0 :: rest =>
      (_safe_int (Some p0), head rest, slice_from 2 (p0 :: rest))
    end
  | None => (None, None, [])
  end.

(** Rating (lines 225-233). *)
Definition parse_rating (li : node) : float :=
  match find (u "span") (Some (u "rating_num")) li with
  | Some rating_tag => default float_zero (py_float (get_text [] rating_tag))
  | None => float_zero
  end.

(** Votes (lines 235-254). *)
Definition is_vote_text (span_text : str) : bool :=
  contains (u "人评价") span_text || contains (u "评价") span_text.

Definition votes_from_bd (li : node) : result Z :=
  match find (u "div") (Some (u "bd")) li with
  | Some rating_div =>
    match List.find is_vote_text
            (map (get_text []) (find_all (u "span") None rating_div)) with
    | Some span_text => _extract_vote_count span_text
    | None => Ok 0
    end
  | None => Ok 0
  end.

Definition votes_from_star (li : node) : result Z :=
  match find (u "div") (Some (u "star")) li with
  | Some star_div =>
    match last_item (find_all (u "span") None star_div) with
    | Some last_span => _extract_vote_count (get_text [] last_span)
    | None => Ok 0
    end
  | None => Ok 0
  end.

Definition parse_votes (li : node) : result Z :=
  let! votes := votes_from_bd li in
  if votes =? 0 then votes_from_star li else Ok votes.

(** Quote (lines 256-258). *)
Definition parse_quote (li : node) : option str :=
  get_text [] <$> find (u "span") (Some (u "inq")) li.

(** [_parse_movie]: the blocks above in source order.  Only the rank and
    the vote count can raise. *)
Definition _parse_movie (li : node) : result Movie :=
  let! rank := parse_rank li in
  let title := parse_title li in
  let original_title := parse_original_title li in
  let detail_url := parse_detail_url li in
  let poster_url := parse_poster_url li in
  let is_playable := parse_is_playable li in
  let directors := parse_directors li in
  let actors := parse_actors li in
  let '(year, country, genres) := parse_meta li in
  let rating := parse_rating li in
  let! votes := parse_votes li in
  let quote := parse_quote li in
  Ok (new_Movie rank title original_title year country genres rating votes
        quote detail_url (Some poster_url) (Some is_playable)
        (Some (Some directors)) (Some (Some actors))).

End Extractor.

(** ** JSON ([json.dumps] with [ensure_ascii=False, indent=2], [json.loads]) *)

Section Json.
Context `{Interp}.
Import Py.
Local Open Scope N_scope.

Inductive json :=
| JNull
| JBool (b : bool)
| JInt (n : Z)
| JFloat (f : float)
| JStr (s : str)
| JList (items : list json)
| JDict (pairs : list (str * json)).

(** *** Encoder *)

(** [int.__repr__] *)
Fixpoint digits_go (fuel : nat) (n : N) (acc : str) : str :=
  match fuel with
  | O => acc
  | S k =>
    let acc' := (48 + n mod 10) :: acc in
    if n <? 10 then acc' else digits_go k (n / 10) acc'
  end.

Definition nat_repr (n : N) : str :=
  digits_go (S (N.to_nat (N.log2 n))) n [].

Definition int_repr (z : Z) : str :=
  match z with
  | Zneg p => 45 :: nat_repr (Npos p)
  | _ => nat_repr (Z.to_N z)
  end.

Definition hex_digit (d : N) : char := if d <? 10 then 48 + d else 87 + d.

(** One character of a string literal: the quote, the backslash and the
    control characters are escaped, everything else is kept. *)
Definition escape_char (c : char) : str :=
  if c =? 34 then [92; 34]
  else if c =? 92 then [92; 92]
  else if c =? 10 then [92; 110]
  else if c =? 13 then [92; 114]
  else if c =? 9 then [92; 116]
  else if c =? 8 then [92; 98]
  else if c =? 12 then [92; 102]
  else if c <? 32 then [92; 117; 48; 48; hex_digit (c / 16); hex_digit (c mod 16)]
  else [c].

Definition encode_str (s : str) : str :=
  34 :: flat_map escape_char s ++ [34].

Definition newline_indent (level : nat) : str :=
  10 :: repeat 32 (2 * level)%nat.

Fixpoint encode (level : nat) (v : json) : str :=
  match v with
  | JNull => u "null"
  | JBool true => u "true"
  | JBool false => u "false"
  | JInt n => int_repr n
  | JFloat f => float_json f
  | JStr s => encode_str s
  | JList [] => u "[]"
  | JList items =>
    u "[" ++ newline_indent (S level)
      ++ join (u "," ++ newline_indent (S level)) (map (encode (S level)) items)
      ++ newline_indent level ++ u "]"
  | JDict [] => u "{}"
  | JDict pairs =>
    u "{" ++ newline_indent (S level)
      ++ join (u "," ++ newline_indent (S level))
           (map (fun kv => encode_str (fst kv) ++ u ": " ++ encode (S level) (snd kv))
                pairs)
      ++ newline_indent level ++ u "}"
  end.

(** [int.__repr__] raises on an integer with more digits than the
    interpreter's limit. *)
Definition repr_within_limit (n : Z) : bool :=
  within_limit (nat_repr (Z.abs_N n)).

Fixpoint ints_within_limit (v : json) : bool :=
  match v with
  | JInt n => repr_within_limit n
  | JList items => forallb ints_within_limit items
  | JDict pairs => forallb (fun kv => ints_within_limit (snd kv)) pairs
  | _ => true
  end.

Definition repr_error : exn :=
  ValueError "Exceeds the limit (4300 digits) for integer string conversion".

(** [json.dumps(data, ensure_ascii=False, indent=2)]: the text is joined
    and returned once every chunk has been produced, so an integer beyond
    the limit makes the call raise and return nothing. *)
Definition dumps (data : json) : result str :=
  if ints_within_limit data then Ok (encode 0 data) else Raise repr_error.

(** *** Decoder *)

Definition is_ws (c : char) : bool :=
  (c =? 32) || (c =? 9) || (c =? 10) || (c =? 13).

Definition skip_ws (s : str) : str := lstrip_by is_ws s.

Definition hex_val (c : char) : option N :=
  if (48 <=? c) && (c <=? 57) then Some (c - 48)
  else if (97 <=? c) && (c <=? 102) then Some (c - 87)
  else if (65 <=? c) && (c <=? 70) then Some (c - 55)
  else None.

(** Four hexadecimal digits after a backslash-u. *)
Definition decode_uXXXX (s : str) : option (N * str) :=
  match s with
  | a :: b :: c :: d :: r =>
    match hex_val a, hex_val b, hex_val c, hex_val d with
    | Some x, Some y, Some z, Some w =>
      Some (x * 4096 + y * 256 + z * 16 + w, r)
    | _, _, _, _ => None
    end
  | _ => None
  end.

Definition backslash (c : char) : option char :=
  if c =? 34 then Some 34
  else if c =? 92 then Some 92
  else if c =? 47 then Some 47
  else if c =? 98 then Some 8
  else if c =? 102 then Some 12
  else if c =? 110 then Some 10
  else if c =? 114 then Some 13
  else if c =? 116 then Some 9
  else None.

(** [py_scanstring] in strict mode, entered after the opening quote; [acc]
    holds the characters read so far, reversed. *)
Fixpoint scanstring (fuel : nat) (s acc : str) : option (str * str) :=
  match fuel with
  | O => None
  | S fuel =>
    match s with
    | [] => None
    | c :: r =>
      if c =? 34 then Some (rev acc, r)
      else if c =? 92 then
        match r with
        | [] => None
        | 117 :: r1 =>
          match decode_uXXXX r1 with
          | None => None
          | Some (uni, r2) =>
            if (55296 <=? uni) && (uni <=? 56319) then
              match r2 with
              | 92 :: 117 :: r3 =>
                match decode_uXXXX r3 with
                | None => None
                | Some (uni2, r4) =>
                  if (56320 <=? uni2) && (uni2 <=? 57343)
                  then scanstring fuel r4
                         ((65536 + (uni - 55296) * 1024 + (uni2 - 56320)) :: acc)
                  else scanstring fuel r2 (uni :: acc)
                end
              | _ => scanstring fuel r2 (uni :: acc)
              end
            else scanstring fuel r2 (uni :: acc)
          end
        | esc :: r1 =>
          match backslash esc with
          | Some ch => scanstring fuel r1 (ch :: acc)
          | None => None
          end
        end
      else if c <? 32 then None
      else scanstring fuel r (c :: acc)
    end
  end.

Fixpoint span_digits (s : str) : str * str :=
  match s with
  | c :: r =>
    if ascii_digit c then let '(ds, r') := span_digits r in (c :: ds, r')
    else ([], s)
  | [] => ([], [])
  end.

(** The number pattern: an optional minus sign and an integer part, an
    optional fraction, an optional exponent.  Each part returns what it
    matched and the unread text; [match_number] returns the three groups
    and the unread text. *)
Definition sign_part (s : str) : str * str :=
  match s with
  | c :: r => if c =? 45 then ([45], r) else ([], s)
  | [] => ([], s)
  end.

Definition int_part (s : str) : option (str * str) :=
  match s with
  | c :: r =>
    if c =? 48 then Some ([48], r)
    else if ascii_digit c then Some (span_digits s)
    else None
  | [] => None
  end.

Definition frac_part (s : str) : str * str :=
  match s with
  | c :: r =>
    if c =? 46 then
      match span_digits r with
      | ([], _) => ([], s)
      | (fs, r') => (46 :: fs, r')
      end
    else ([], s)
  | [] => ([], s)
  end.

Definition exp_part (s : str) : str * str :=
  match s with
  | e :: r =>
    if (e =? 101) || (e =? 69) then
      let '(esign, r1) :=
        match r with
        | c :: r' => if (c =? 43) || (c =? 45) then ([c], r') else ([], r)
        | [] => ([], r)
        end in
      match span_digits r1 with
      | ([], _) => ([], s)
      | (es, r') => (e :: esign ++ es, r')
      end
    else ([], s)
  | [] => ([], s)
  end.

Definition match_number (s : str) : option (str * str * str * str) :=
  let '(sign, s1) := sign_part s in
  match int_part s1 with
  | None => None
  | Some (ds, s2) =>
    let '(frac, s3) := frac_part s2 in
    let '(exp, s4) := exp_part s3 in
    Some (sign ++ ds, frac, exp, s4)
  end.

Definition decode_error {A} : result A := Raise JSONDecodeError.

(** [dict(pairs)]: a later value for a key replaces the earlier one, at the
    position of the first. *)
Fixpoint dict_set (k : str) (v : json) (d : list (str * json))
    : list (str * json) :=
  match d with
  | [] => [(k, v)]
  | (k', v') :: r =>
    if str_eqb k' k then (k', v) :: r else (k', v') :: dict_set k v r
  end.

Definition dict_of_pairs (pairs : list (str * json)) : list (str * json) :=
  fold_left (fun d kv => dict_set (fst kv) (snd kv) d) pairs [].

(** [scan_once], [JSONArray] and [JSONObject].  Every round of the three
    consumes at least one character, so twice the length of the text is
    enough fuel. *)
Fixpoint scan_once (fuel : nat) (s : str) : result (json * str) :=
  match fuel with
  | O => decode_error
  | S fuel =>
    match s with
    | [] => decode_error
    | c :: r =>
      if c =? 34 then
        match scanstring (List.length r) r [] with
        | Some (t, r') => Ok (JStr t, r')
        | None => decode_error
        end
      else if c =? 123 then
        match skip_ws r with
        | [] => decode_error
        | c' :: r' =>
          if c' =? 125 then Ok (JDict [], r')
          else if c' =? 34 then object_loop fuel r' []
          else decode_error
        end
      else if c =? 91 then
        match skip_ws r with
        | [] => array_loop fuel [] []
        | c' :: r' =>
          if c' =? 93 then Ok (JList [], r')
          else array_loop fuel (c' :: r') []
        end
      else if starts_with (u "null") s then Ok (JNull, skipn 4 s)
      else if starts_with (u "true") s then Ok (JBool true, skipn 4 s)
      else if starts_with (u "false") s then Ok (JBool false, skipn 5 s)
      else
        match match_number s with
        | Some (integer, [], [], r) =>
          let! n := of_option (py_int integer) int_error in Ok (JInt n, r)
        | Some (integer, frac, exp, r) =>
          let! f := of_option (py_float (integer ++ frac ++ exp))
                      (ValueError "could not convert string to float") in
          Ok (JFloat f, r)
        | None =>
          if starts_with (u "NaN") s then
            let! f := of_option (py_float (u "nan")) JSONDecodeError in
            Ok (JFloat f, skipn 3 s)
          else if starts_with (u "Infinity") s then
            let! f := of_option (py_float (u "inf")) JSONDecodeError in
            Ok (JFloat f, skipn 8 s)
          else if starts_with (u "-Infinity") s then
            let! f := of_option (py_float (u "-inf")) JSONDecodeError in
            Ok (JFloat f, skipn 9 s)
          else decode_error
        end
    end
  end
(** Entered before a value; [acc] holds the items read so far, reversed. *)
with array_loop (fuel : nat) (s : str) (acc : list json) : result (json * str) :=
  match fuel with
  | O => decode_error
  | S fuel =>
    let! vr := scan_once fuel s in
    match skip_ws (snd vr) with
    | [] => decode_error
    | c :: r' =>
      if c =? 93 then Ok (JList (rev (fst vr :: acc)), r')
      else if c =? 44 then array_loop fuel (skip_ws r') (fst vr :: acc)
      else decode_error
    end
  end
(** Entered after the opening quote of a key. *)
with object_loop (fuel : nat) (s : str) (acc : list (str * json))
    : result (json * str) :=
  match fuel with
  | O => decode_error
  | S fuel =>
    match scanstring (List.length s) s [] with
    | None => decode_error
    | Some (key, r) =>
      match skip_ws r with
      | [] => decode_error
      | c :: r1 =>
        if c =? 58 then
          let! vr := scan_once fuel (skip_ws r1) in
          match skip_ws (snd vr) with
          | [] => decode_error
          | c' :: r' =>
            if c' =? 125 then
              Ok (JDict (dict_of_pairs (rev ((key, fst vr) :: acc))), r')
            else if c' =? 44 then
              match skip_ws r' with
              | [] => decode_error
              | c'' :: r'' =>
                if c'' =? 34 then object_loop fuel r'' ((key, fst vr) :: acc)
                else decode_error
              end
            else decode_error
          end
        else decode_error
      end
    end
  end.

(** [json.loads(text)] *)
Definition loads (text : str) : result json :=
  let! vr := scan_once (2 * List.length text + 1) (skip_ws text) in
  match skip_ws (snd vr) with
  | [] => Ok (fst vr)
  | _ => decode_error
  end.

(** *** Records to and from JSON values *)

Definition opt_json {A} (f : A -> json) (o : option A) : json :=
  match o with
  | Some a => f a
  | None => JNull
  end.

Definition strs_json (l : list str) : json := JList (map JStr l).

(** [dataclasses.asdict(movie)] *)
Definition asdict (m : Movie) : json :=
  JDict [
    (u "rank", JInt (rank m));
    (u "title", JStr (title m));
    (u "original_title", opt_json JStr (original_title m));
    (u "year", opt_json JInt (year m));
    (u "country", opt_json JStr (country m));
    (u "genres", strs_json (genres m));
    (u "rating", JFloat (rating m));
    (u "votes", JInt (votes m));
    (u "quote", opt_json JStr (quote m));
    (u "detail_url", JStr (detail_url m));
    (u "poster_url", opt_json JStr (poster_url m));
    (u "is_playable", JBool (is_playable m));
    (u "directors", strs_json (directors m));
    (u "actors", strs_json (actors m))
  ].

Definition field_names : list str :=
  [u "rank"; u "title"; u "original_title"; u "year"; u "country";
   u "genres"; u "rating"; u "votes"; u "quote"; u "detail_url";
   u "poster_url"; u "is_playable"; u "directors"; u "actors"].

Definition dict_get (k : str) (d : list (str * json)) : option json :=
  snd <$> List.find (fun kv => str_eqb (fst kv) k) d.

(** The constructor does not check its arguments against the annotations:
    given a keyword value of another type, Python returns a record that
    the typed [Movie] cannot hold.  [ill_typed] marks that outcome; it is
    no exception of the program, and no statement about what the program
    raises or returns is made where it arises. *)
Definition ill_typed : exn := Unrepresented.

Definition as_int (v : json) : result Z :=
  match v with JInt n => Ok n | _ => Raise ill_typed end.
Definition as_float (v : json) : result float :=
  match v with JFloat f => Ok f | _ => Raise ill_typed end.
Definition as_bool (v : json) : result bool :=
  match v with JBool b => Ok b | _ => Raise ill_typed end.
Definition as_str (v : json) : result str :=
  match v with JStr s => Ok s | _ => Raise ill_typed end.
Definition as_opt {A} (f : json -> result A) (v : json) : result (option A) :=
  match v with
  | JNull => Ok None
  | _ => let! a := f v in Ok (Some a)
  end.
Fixpoint as_strs_items (l : list json) : result (list str) :=
  match l with
  | [] => Ok []
  | v :: r => let! s := as_str v in let! t := as_strs_items r in Ok (s :: t)
  end.
Definition as_strs (v : json) : result (list str) :=
  match v with JList l => as_strs_items l | _ => Raise ill_typed end.

Definition required {A} (f : json -> result A) (k : str)
    (d : list (str * json)) : result A :=
  match dict_get k d with
  | Some v => f v
  | None => Raise (TypeError "missing required positional argument")
  end.

Definition optional {A} (f : json -> result A) (k : str)
    (d : list (str * json)) : result (option A) :=
  match dict_get k d with
  | Some v => let! a := f v in Ok (Some a)
  | None => Ok None
  end.

(** The constructor called with the dict unpacked into keyword
    arguments. *)
Definition Movie_of_dict (d : list (str * json)) : result Movie :=
  if negb (forallb (fun kv => existsb (str_eqb (fst kv)) field_names) d)
  then Raise (TypeError "unexpected keyword argument")
  else
    let! rank := required as_int (u "rank") d in
    let! title := required as_str (u "title") d in
    let! original_title := required (as_opt as_str) (u "original_title") d in
    let! year := required (as_opt as_int) (u "year") d in
    let! country := required (as_opt as_str) (u "country") d in
    let! genres := required as_strs (u "genres") d in
    let! rating := required as_float (u "rating") d in
    let! votes := required as_int (u "votes") d in
    let! quote := required (as_opt as_str) (u "quote") d in
    let! detail_url := required as_str (u "detail_url") d in
    let! poster_url := optional (as_opt as_str) (u "poster_url") d in
    let! is_playable := optional as_bool (u "is_playable") d in
    let! directors := optional (as_opt as_strs) (u "directors") d in
    let! actors := optional (as_opt as_strs) (u "actors") d in
    Ok (new_Movie rank title original_title year country genres rating votes
          quote detail_url poster_url is_playable directors actors).

Definition not_a_mapping : exn := TypeError "argument after ** must be a mapping".

Definition Movie_of_json (v : json) : result Movie :=
  match v with
  | JDict d => Movie_of_dict d
  | _ => Raise not_a_mapping
  end.

Fixpoint Movies_of_items (l : list json) : result (list Movie) :=
  match l with
  | [] => Ok []
  | v :: r =>
    let! m := Movie_of_json v in
    let! ms := Movies_of_items r in
    Ok (m :: ms)
  end.

(** One record per element of [raw]: iterating a list gives
    its items, iterating a dict or a string gives keys or characters, none
    of which is a mapping, and the other values cannot be iterated. *)
Definition Movies_of_raw (raw : json) : result (list Movie) :=
  match raw with
  | JList items => Movies_of_items items
  | JDict [] | JStr [] => Ok []
  | JDict _ | JStr _ => Raise not_a_mapping
  | _ => Raise (TypeError "object is not iterable")
  end.

End Json.

(** ** The file system ([pathlib]) *)

Module Fs.

(** A path is its list of components, each the plain name of an entry
    (not empty, not [.] or [..], without a slash); the empty path is the
    starting directory, which always exists.  A file holds the text that
    its bytes decode to; the line separator of the system is the newline,
    so that text is written as it is. *)
Abbreviation path := (list string).

Inductive entry :=
| Dir
| File (content : Py.str).

Abbreviation files := (gmap path entry).

Definition stat (fs : files) (p : path) : option entry :=
  match p with
  | [] => Some Dir
  | _ => fs !! p
  end.

Definition is_dir (fs : files) (p : path) : bool :=
  match stat fs p with
  | Some Dir => true
  | _ => false
  end.

(** [path.exists()] *)
Definition exists_ (fs : files) (p : path) : bool :=
  match stat fs p with
  | Some _ => true
  | None => false
  end.

Definition parent (p : path) : path := removelast p.

Definition is_file (fs : files) (p : path) : bool :=
  match stat fs p with
  | Some (File _) => true
  | _ => false
  end.

Fixpoint prefixes (p : path) : list path :=
  match p with
  | [] => [[]]
  | c :: r => [] :: map (cons c) (prefixes r)
  end.

(** What the system reports for a path at which nothing is found:
    [ENOTDIR] when a regular file lies on the way, [ENOENT] otherwise. *)
Definition absent (fs : files) (p : path) : exn :=
  if existsb (is_file fs) (prefixes p) then NotADirectoryError
  else FileNotFoundError.

(** [os.mkdir] *)
Definition os_mkdir (fs : files) (p : path) : result files :=
  match p with
  | [] => Raise FileExistsError
  | _ =>
    match stat fs (parent p) with
    | None => Raise (absent fs (parent p))
    | Some (File _) => Raise NotADirectoryError
    | Some Dir =>
      match fs !! p with
      | Some _ => Raise FileExistsError
      | None => Ok (<[p := Dir]> fs)
      end
    end
  end.

(** [path.mkdir(parents=False, exist_ok=True)] *)
Definition mkdir_exist_ok (fs : files) (p : path) : result files :=
  match os_mkdir fs p with
  | Ok fs' => Ok fs'
  | Raise FileNotFoundError => Raise FileNotFoundError
  | Raise e => if is_dir fs p then Ok fs else Raise e
  end.

(** [path.mkdir(parents=True, exist_ok=True)], by recursion on the reversed
    path: a missing parent is created first, then the directory itself. *)
Fixpoint mkdir_parents_rev (rp : list string) (fs : files) : result files :=
  match os_mkdir fs (rev rp) with
  | Ok fs' => Ok fs'
  | Raise FileNotFoundError =>
    match rp with
    | [] => Raise FileNotFoundError
    | _ :: rparent =>
      let! fs1 := mkdir_parents_rev rparent fs in
      mkdir_exist_ok fs1 (rev rp)
    end
  | Raise e => if is_dir fs (rev rp) then Ok fs else Raise e
  end.

Definition mkdir_parents (fs : files) (p : path) : result files :=
  mkdir_parents_rev (rev p) fs.

(** Opening a file for writing creates it or truncates it. *)
Definition open_w (fs : files) (p : path) : result files :=
  match p with
  | [] => Raise IsADirectoryError
  | _ =>
    match stat fs (parent p) with
    | None => Raise (absent fs (parent p))
    | Some (File _) => Raise NotADirectoryError
    | Some Dir =>
      match fs !! p with
      | Some Dir => Raise IsADirectoryError
      | _ => Ok (<[p := File []]> fs)
      end
    end
  end.

(** The UTF-8 codec encodes every code point but the surrogates. *)
Definition surrogate (c : Py.char) : bool := ((55296 <=? c) && (c <=? 57343))%N.

Definition encodable (data : Py.str) : bool :=
  forallb (fun c => negb (surrogate c)) data.

(** [path.write_text(data, encoding="utf-8")]: open for writing, then
    encode and write.  The first component lists the states that the call
    goes through: while it runs, another reader sees first the state after
    the open, with the file empty, and then the state after the write.
    Text that the codec rejects raises after the open, and the file stays
    empty. *)
Definition write_text_states (fs : files) (p : path) (data : Py.str)
    : list files * result unit :=
  match open_w fs p with
  | Raise e => ([], Raise e)
  | Ok fs1 =>
    if encodable data then ([fs1; <[p := File data]> fs1], Ok tt)
    else ([fs1], Raise UnicodeEncodeError)
  end.

(** The files after the call, and how it ends. *)
Definition write_text (fs : files) (p : path) (data : Py.str)
    : files * result unit :=
  let run := write_text_states fs p data in
  (List.last (fst run) fs, snd run).

(** Reading in text mode turns every line ending (a carriage return, with
    or without a newline after it) into a newline. *)
Fixpoint universal_newlines (s : Py.str) : Py.str :=
  match s with
  | [] => []
  | c :: r =>
    if (c =? 13)%N then
      10%N :: match r with
              | c' :: r' =>
                if (c' =? 10)%N then universal_newlines r'
                else universal_newlines r
              | [] => []
              end
    else c :: universal_newlines r
  end.

(** [path.read_text(encoding="utf-8")] *)
Definition read_text (fs : files) (p : path) : result Py.str :=
  match stat fs p with
  | None => Raise (absent fs p)
  | Some Dir => Raise IsADirectoryError
  | Some (File content) => Ok (universal_newlines content)
  end.

End Fs.

(** ** The world of a run: files, the remote server, and what was done *)

Inductive response :=
| Unreachable
| Response (status : Z) (soup : Bs4.node).

Inductive event :=
| Get (start : Z)
| Sleep
| Printed (e : exn).

(** The server answers a request from the number of requests made before it
    and the page offset. *)
Record world := {
  fs : Fs.files;
  server : nat -> Z -> response;
  log : list event
}.

Definition M (A : Type) : Type := world -> result A * world.

Definition ret {A} (a : A) : M A := fun w => (Ok a, w).
Definition raise {A} (e : exn) : M A := fun w => (Raise e, w).
Definition bind {A B} (c : M A) (k : A -> M B) : M B :=
  fun w =>
    match c w with
    | (Ok a, w') => k a w'
    | (Raise e, w') => (Raise e, w')
    end.
Definition lift {A} (r : result A) : M A := fun w => (r, w).
Definition emit (e : event) : M unit :=
  fun w => (Ok tt, {| fs := fs w; server := server w; log := log w ++ [e] |}).
Definition get_world : M world := fun w => (Ok w, w).
Definition put_fs (f : Fs.files) : M unit :=
  fun w => (Ok tt, {| fs := f; server := server w; log := log w |}).

Notation "'do' x <- c ; k" := (bind c (fun x => k))
  (at level 10, x name, c at level 100, k at level 200).
Notation "'do_' c ; k" := (bind c (fun _ => k))
  (at level 10, c at level 100, k at level 200).

Definition is_get (e : event) : bool :=
  match e with Get _ => true | _ => false end.
Definition is_sleep (e : event) : bool :=
  match e with Sleep => true | _ => false end.

(** [range(start, stop, step)] for a positive step *)
Fixpoint range_go (n : nat) (start step : Z) : list Z :=
  match n with
  | O => []
  | S k => start :: range_go k (start + step)%Z step
  end.

Definition range (start stop step : Z) : list Z :=
  range_go (Z.to_nat ((stop - start + step - 1) / step)) start step.

(** ** The scraper (scraper.py, 52-288) *)

Section Scraper.
Context `{Interp}.
Import Py Bs4.
Local Open Scope Z_scope.

Record DoubanTop250Scraper := {
  cache_dir : Fs.path;
  cache_path : Fs.path;
  use_cache : bool;
  min_delay : float;
  max_delay : float
}.

(** [__init__] (lines 55-81): the directory is made before anything else
    is stored; setting up the session touches neither files nor network.
    [cache_dir] is given by its components, and [cache_dir / cache_filename]
    is the path with one more component for a file name that is the plain
    name of an entry. *)
Definition __init__ (cache_dir : Fs.path) (cache_filename : string)
    (use_cache : bool) (min_delay max_delay : float) : M DoubanTop250Scraper :=
  do w <- get_world;
  do fs' <- lift (Fs.mkdir_parents (fs w) cache_dir);
  do_ put_fs fs';
  ret {| cache_dir := cache_dir;
         cache_path := cache_dir ++ [cache_filename];
         use_cache := use_cache;
         min_delay := min_delay;
         max_delay := max_delay |}.

(** [_respectful_delay] (lines 277-280): a delay is drawn between the two
    bounds and handed to [time.sleep], which raises when it does not accept
    it; otherwise the run sleeps, and how long is not recorded. *)
Definition _respectful_delay (self : DoubanTop250Scraper) : M unit :=
  do w <- get_world;
  let delay :=
    uniform (min_delay self) (max_delay self) (List.length (log w)) in
  match sleep_error delay with
  | Some e => raise e
  | None => emit Sleep
  end.

(** [_write_cache] (lines 282-284) *)
Definition _write_cache (self : DoubanTop250Scraper) (movies : list Movie)
    : M unit :=
  let data := JList (map asdict movies) in
  do text <- lift (dumps data);
  do w <- get_world;
  let written := Fs.write_text (fs w) (cache_path self) text in
  do_ put_fs (fst written);
  lift (snd written).

(** [_load_from_cache] (lines 286-288) *)
Definition _load_from_cache (self : DoubanTop250Scraper) : M (list Movie) :=
  do w <- get_world;
  do text <- lift (Fs.read_text (fs w) (cache_path self));
  do raw <- lift (loads text);
  lift (Movies_of_raw raw).

(** The loop over the items of a page (lines 112-119): an item whose
    extraction raises is reported and left out. *)
Fixpoint parse_items (lis : list node) (movies : list Movie) : M (list Movie) :=
  match lis with
  | [] => ret movies
  | li :: rest =>
    match _parse_movie li with
    | Ok movie => parse_items rest (movies ++ [movie])
    | Raise exc => do_ emit (Printed exc); parse_items rest movies
    end
  end.

(** [_fetch_page] (lines 101-119) *)
Definition _fetch_page (self : DoubanTop250Scraper) (start : Z)
    : M (list Movie) :=
  do w <- get_world;
  do_ emit (Get start);
  match server w (List.length (List.filter is_get (log w))) start with
  | Unreachable => raise ConnectionError
  | Response status soup =>
    if (400 <=? status) && (status <? 600) then raise (HTTPError status)
    else
      match find (u "ol") (Some (u "grid_view")) soup with
      | None => raise (ValueError "Unable to locate movies list on the page.")
      | Some grid_view => parse_items (find_all (u "li") None grid_view) []
      end
  end.

(** The page loop of [fetch_movies] (lines 90-93) *)
Fixpoint fetch_pages (self : DoubanTop250Scraper) (starts : list Z)
    (movies : list Movie) : M (list Movie) :=
  match starts with
  | [] => ret movies
  | start :: rest =>
    do page_movies <- _fetch_page self start;
    do_ _respectful_delay self;
    fetch_pages self rest (movies ++ page_movies)
  end.

(** [fetch_movies] (lines 84-98) *)
Definition fetch_movies (self : DoubanTop250Scraper) (force_refresh : bool)
    : M (list Movie) :=
  do w <- get_world;
  if use_cache self && negb force_refresh && Fs.exists_ (fs w) (cache_path self)
  then _load_from_cache self
  else
    do movies <- fetch_pages self (range 0 250 25) [];
    do_ (if use_cache self then _write_cache self movies else ret tt);
    ret movies.

End Scraper.

(** ** A small interpreter for closed examples

    Floats with one decimal digit ([0.0] to [9.9]) and no digits beyond
    ASCII.  A draw between two bounds gives one bound or the other, and
    every such delay is one that [time.sleep] accepts. *)

Inductive dig := n0 | n1 | n2 | n3 | n4 | n5 | n6 | n7 | n8 | n9.

Definition dig_char (d : dig) : N :=
  match d with
  | n0 => 48 | n1 => 49 | n2 => 50 | n3 => 51 | n4 => 52
  | n5 => 53 | n6 => 54 | n7 => 55 | n8 => 56 | n9 => 57
  end%N.

Definition char_dig (c : N) : option dig :=
  match c with
  | 48 => Some n0 | 49 => Some n1 | 50 => Some n2 | 51 => Some n3
  | 52 => Some n4 | 53 => Some n5 | 54 => Some n6 | 55 => Some n7
  | 56 => Some n8 | 57 => Some n9 | _ => None
  end%N.

Definition tenths_float (s : Py.str) : option (dig * dig) :=
  match s with
  | [a; 46%N; b] =>
    match char_dig a, char_dig b with
    | Some x, Some y => Some (x, y)
    | _, _ => None
    end
  | _ => None
  end.

Definition tenths_interp : Interp := {|
  float := dig * dig;
  float_zero := (n0, n0);
  py_float := tenths_float;
  float_json := fun f => [dig_char (fst f); 46%N; dig_char (snd f)];
  uni_decimal := fun _ => None;
  uni_isdigit := fun _ => false;
  uniform := fun a b n => if Nat.even n then a else b;
  sleep_error := fun _ => None
|}.

(** ** Vocabulary for statements about the file system *)

Module FsSpec.
Import Fs.

(** Every entry below the starting directory lies in a directory. *)
Definition wf (fs : files) : Prop :=
  forall p e, p <> [] -> fs !! p = Some e -> is_dir fs (parent p) = true.

Definition no_file_on (fs : files) (p : path) : Prop :=
  forall q c, q `prefix_of` p -> stat fs q <> Some (File c).

(** The plain name of an entry: not empty, not [.] or [..], and free of
    the separator and of the null character. *)
Fixpoint has_char (c : ascii) (s : string) : bool :=
  match s with
  | EmptyString => false
  | String x r => Ascii.eqb c x || has_char c r
  end.

Definition plain_name (s : string) : bool :=
  negb (String.eqb s EmptyString) && negb (String.eqb s ".")
  && negb (String.eqb s "..") && negb (has_char "/" s)
  && negb (has_char "000" s).

Definition plain_path (p : path) : bool := forallb plain_name p.

End FsSpec.

(** ** Vocabulary for statements about a run *)

Section RunVocabulary.
Context `{Interp}.
Import Py Bs4.
Local Open Scope Z_scope.

Definition add_log (w : world) (evs : list event) : world :=
  {| fs := fs w; server := server w; log := log w ++ evs |}.

Definition gets (l : list event) : nat := List.length (List.filter is_get l).

Definition is_net (e : event) : bool := is_get e || is_sleep e.

Definition bad_status (status : Z) : bool := (400 <=? status) && (status <? 600).

Definition no_container : exn :=
  ValueError "Unable to locate movies list on the page.".

(** A response from which [_fetch_page] returns. *)
Definition page_ok (r : response) : bool :=
  match r with
  | Unreachable => false
  | Response status soup =>
    negb (bad_status status) &&
    match find (u "ol") (Some (u "grid_view")) soup with
    | Some _ => true
    | None => false
    end
  end.

(** A response that arrives but has no list container. *)
Definition lacks_container (r : response) : bool :=
  match r with
  | Unreachable => false
  | Response status soup =>
    negb (bad_status status) &&
    match find (u "ol") (Some (u "grid_view")) soup with
    | Some _ => false
    | None => true
    end
  end.

Definition with_fs (w : world) (f : Fs.files) : world :=
  {| fs := f; server := server w; log := log w |}.

(** The text that [_write_cache] writes for a list of records. *)
Definition cache_text (movies : list Movie) : str :=
  encode 0 (JList (map asdict movies)).

(** The records can be written: their integers are within the limit of
    the integer-to-text conversion and their text can be encoded. *)
Definition storable (movies : list Movie) : bool :=
  ints_within_limit (JList (map asdict movies))
  && Fs.encodable (cache_text movies).

(** Every delay that the scraper can draw is one that [time.sleep]
    accepts. *)
Definition delays_accepted (self : DoubanTop250Scraper) : Prop :=
  forall n, sleep_error (uniform (min_delay self) (max_delay self) n) = None.

(** An outcome that the typed records can express. *)
Definition represented {A} (r : result A) : Prop := r <> Raise ill_typed.

Definition no_cache_hit (self : DoubanTop250Scraper) (force_refresh : bool)
    (w : world) : bool :=
  negb (use_cache self && negb force_refresh && Fs.exists_ (fs w) (cache_path self)).

End RunVocabulary.

(** ** Vocabulary for statements about text *)

Module TextSpec.
Import Py.
Local Open Scope N_scope.

(** The text before the first occurrence of [c]. *)
Fixpoint before (c : char) (s : str) : str :=
  match s with
  | [] => []
  | x :: r => if c =? x then [] else x :: before c r
  end.

(** The number a run of ASCII digits denotes. *)
Definition decimal_value (ds : str) : Z :=
  fold_left (fun a c => (a * 10 + Z.of_N (c - 48))%Z) ds 0%Z.

(** No space at either end. *)
Definition trimmed (s : str) : Prop := strip s = s.

Definition free_of (c : char) (s : str) : Prop := ~ In c s.

(** What may follow a number without being read as part of it. *)
Definition stops (rest : str) : bool :=
  match rest with
  | [] => true
  | c :: _ =>
    negb (ascii_digit c) && negb (c =? 46) && negb (c =? 101) && negb (c =? 69)
  end.

(** The first character of an encoded value. *)
Definition value_start (c : char) : bool :=
  (c =? 34) || (c =? 45) || ascii_digit c || (c =? 73) || (c =? 78)
  || (c =? 91) || (c =? 102) || (c =? 110) || (c =? 116) || (c =? 123).

Definition rmap {A B} (f : A -> B) (r : result A) : result B :=
  match r with
  | Ok a => Ok (f a)
  | Raise e => Raise e
  end.

End TextSpec.

(** ** The contract of the float conversions

    The text that the encoder emits for a float is one of the three
    constants or a number with a fraction or an exponent, and the decoder's
    conversion of that text gives the float back. *)

Section FloatContract.
Context `{Interp}.
Import Py TextSpec.

Definition float_of_json_text (t : str) : option float :=
  if str_eqb t (u "NaN") then py_float (u "nan")
  else if str_eqb t (u "Infinity") then py_float (u "inf")
  else if str_eqb t (u "-Infinity") then py_float (u "-inf")
  else
    match match_number t with
    | Some (_, [], [], _) => None
    | Some (_, _, _, []) => py_float t
    | _ => None
    end.

(** The float reads back from the text written for it. *)
Definition float_reads_back (f : float) : Prop :=
  float_of_json_text (float_json f) = Some f.

Definition float_text_roundtrip : Prop :=
  forall f, float_reads_back f.

Local Open Scope N_scope.

(** Dict keys are pairwise distinct, at every depth. *)
Fixpoint keys_distinct (v : json) : Prop :=
  match v with
  | JList items =>
    (fix all (l : list json) : Prop :=
       match l with
       | [] => True
       | x :: r => keys_distinct x /\ all r
       end) items
  | JDict pairs =>
    List.NoDup (map fst pairs) /\
    (fix all (l : list (str * json)) : Prop :=
       match l with
       | [] => True
       | kv :: r => keys_distinct (snd kv) /\ all r
       end) pairs
  | _ => True
  end.

(** The numbers of a value are ones that read back: integers within
    the limit, floats that their text gives back. *)
Fixpoint numbers_read_back (v : json) : Prop :=
  match v with
  | JInt n => repr_within_limit n = true
  | JFloat f => float_reads_back f
  | JList items =>
    (fix all (l : list json) : Prop :=
       match l with
       | [] => True
       | x :: r => numbers_read_back x /\ all r
       end) items
  | JDict pairs =>
    (fix all (l : list (str * json)) : Prop :=
       match l with
       | [] => True
       | kv :: r => numbers_read_back (snd kv) /\ all r
       end) pairs
  | _ => True
  end.

(** The numbers of a record read back: its integers are within the limit
    of the conversions and its rating is a float that its text gives
    back. *)
Definition record_reads_back (m : Movie) : Prop :=
  repr_within_limit (rank m) = true
  /\ match year m with
     | Some y => repr_within_limit y = true
     | None => True
     end
  /\ float_reads_back (rating m)
  /\ repr_within_limit (votes m) = true.

(** The encoding of [v] starts like a value. *)
Definition opens (v : json) : Prop :=
  forall level, exists c r, encode level v = c :: r /\ value_start c = true.

(** What the decoder is required to do on the encoding of [v]. *)
Definition reads_back (v : json) : Prop :=
  opens v /\
  forall (level fuel : nat) (rest : str),
  stops rest = true ->
  (2 * List.length (encode level v) <= fuel)%nat ->
  scan_once fuel (encode level v ++ rest) = Ok (v, rest).

Definition item_sep (level : nat) : str := u "," ++ newline_indent (S level).

Definition pair_text (level : nat) (kv : str * json) : str :=
  encode_str (fst kv) ++ u ": " ++ encode (S level) (snd kv).

(** The text of the pairs after the opening quote of the first key. *)
Definition pairs_body (level : nat) (kv : str * json)
    (more : list (str * json)) : str :=
  flat_map escape_char (fst kv) ++ 34 :: 58 :: 32 :: encode (S level) (snd kv)
    ++ match more with
       | [] => []
       | _ => item_sep level ++ join (item_sep level) (map (pair_text level) more)
       end.

End FloatContract.

(** ** Concrete worlds and fragments for the closed examples *)

Module Examples.
Import Py Bs4.
#[local] Existing Instance tenths_interp.

Definition text (s : string) : node := Text (u s).

(** A page whose list container is present and empty. *)
Definition empty_page : node :=
  Tag (u "[document]") [] [] [Tag (u "ol") [u "grid_view"] [] []].

(** A page without the list container. *)
Definition blocked_page : node :=
  Tag (u "[document]") [] [] [Tag (u "p") [] [] [text "blocked"]].

Definition plain_scraper (use_cache : bool) : DoubanTop250Scraper :=
  {| cache_dir := ["data"%string];
     cache_path := ["data"%string; "douban_top250.json"%string];
     use_cache := use_cache;
     min_delay := (n1, n0);
     max_delay := (n2, n5) |}.

(** Nothing on disk, every page served in order. *)
Definition fresh_world : world :=
  {| fs := ∅; server := fun _ _ => Response 200 empty_page; log := [] |}.

(** The cache directory exists; the fourth request is answered without the
    container. *)
Definition blocked_world : world :=
  {| fs := {[ ["data"%string] := Fs.Dir ]};
     server := fun n _ =>
       if (n =? 3)%nat then Response 200 blocked_page
       else Response 200 empty_page;
     log := [] |}.

(** A cache file is present. *)
Definition cached_world (content : str) : world :=
  {| fs := <[ ["data"%string; "douban_top250.json"%string] := Fs.File content ]>
             {[ ["data"%string] := Fs.Dir ]};
     server := fun _ _ => Unreachable;
     log := [] |}.

(** An item as the site serves it; the metadata line has non-breaking
    spaces around its slashes. *)
Definition nbsp : str := [160%N].

Definition listed_item : node :=
  Tag (u "li") [] [] [
    Tag (u "div") [u "pic"] [] [
      Tag (u "em") [] [] [text "1"];
      Tag (u "a") [] [(u "href", u "https://movie.douban.com/subject/1292052/")] [
        Tag (u "img") [] [(u "src", u "https://img.example/p480747492.jpg")] []]];
    Tag (u "div") [u "info"] [] [
      Tag (u "div") [u "hd"] [] [
        Tag (u "span") [u "title"] [] [text "肖申克的救赎"];
        Tag (u "span") [u "other"] [] [text " / 月黑高飞(港)  /  刺激1995(台)"]];
      Tag (u "div") [u "bd"] [] [
        Tag (u "p") [] [] [
          text " 导演: 弗兰克·德拉邦特 Frank Darabont ";
          Tag (u "br") [] [] [];
          Text (u " 1994" ++ nbsp ++ u "/" ++ nbsp ++ u "美国" ++ nbsp ++ u "/"
                  ++ nbsp ++ u "剧情 犯罪 ")];
        Tag (u "div") [u "star"] [] [
          Tag (u "span") [u "rating_num"] [] [text "9.7"];
          Tag (u "span") [] [] [text "1234567人评价"]];
        Tag (u "p") [u "quote"] [] [
          Tag (u "span") [u "inq"] [] [text "希望让人自由。"]]]]].

Definition listed_info : node :=
  Tag (u "p") [] [] [
    text " 导演: 弗兰克·德拉邦特 Frank Darabont ";
    Tag (u "br") [] [] [];
    Text (u " 1994" ++ nbsp ++ u "/" ++ nbsp ++ u "美国" ++ nbsp ++ u "/"
            ++ nbsp ++ u "剧情 犯罪 ")].

Definition listed_bd : node :=
  Tag (u "div") [u "bd"] [] [
    listed_info;
    Tag (u "div") [u "star"] [] [
      Tag (u "span") [u "rating_num"] [] [text "9.7"];
      Tag (u "span") [] [] [text "1234567人评价"]];
    Tag (u "p") [u "quote"] [] [
      Tag (u "span") [u "inq"] [] [text "希望让人自由。"]]].

(** An item whose rank text is not a number. *)
Definition unranked_item : node :=
  Tag (u "li") [] [] [
    Tag (u "em") [] [] [text "abc"];
    Tag (u "span") [u "title"] [] [text "肖申克的救赎"]].

(** An item with a single title span and several alternates. *)
Definition alternates_item : node :=
  Tag (u "li") [] [] [
    Tag (u "span") [u "title"] [] [text "美国往事"];
    Tag (u "span") [u "other"] [] [text " / 美国异闻录 / 美国志异"]].

(** The record that [listed_item] stands for. *)
Definition listed_movie : Movie :=
  {| rank := 1; title := u "肖申克的救赎";
     original_title := Some (u "月黑高飞(港)");
     year := Some 1994%Z; country := Some (u "美国");
     genres := [u "剧情 犯罪"]; rating := (n9, n7); votes := 1234567;
     quote := Some (u "希望让人自由。");
     detail_url := u "https://movie.douban.com/subject/1292052/";
     poster_url := None; is_playable := false;
     directors := [u "弗兰克·德拉邦特 Frank Darabont"]; actors := [] |}.

End Examples.

(** ** Vocabulary for statements about whole pages and passes *)

Section PassVocabulary.
Context `{Interp}.
Import Py Bs4.
Local Open Scope Z_scope.

(** The records of the items whose extraction returns, in order. *)
Fixpoint item_records (lis : list node) : list Movie :=
  match lis with
  | [] => []
  | li :: rest =>
    match _parse_movie li with
    | Ok movie => movie :: item_records rest
    | Raise _ => item_records rest
    end
  end.

(** The reports about the items whose extraction raises, in order. *)
Fixpoint item_reports (lis : list node) : list event :=
  match lis with
  | [] => []
  | li :: rest =>
    match _parse_movie li with
    | Ok _ => item_reports rest
    | Raise exc => Printed exc :: item_reports rest
    end
  end.

(** The exception with which [_fetch_page] leaves on a response, if any. *)
Definition page_error (r : response) : option exn :=
  match r with
  | Unreachable => Some ConnectionError
  | Response status soup =>
    if bad_status status then Some (HTTPError status)
    else
      match find (u "ol") (Some (u "grid_view")) soup with
      | Some _ => None
      | None => Some no_container
      end
  end.

(** The item fragments of a response. *)
Definition page_items (r : response) : list node :=
  match r with
  | Unreachable => []
  | Response _ soup =>
    match find (u "ol") (Some (u "grid_view")) soup with
    | Some grid_view => find_all (u "li") None grid_view
    | None => []
    end
  end.

Definition page_records (r : response) : list Movie :=
  item_records (page_items r).

Definition page_reports (r : response) : list event :=
  item_reports (page_items r).

(** The records and the events of requests made in a row for the offsets
    [starts], the first of them being request number [n]. *)
Fixpoint pages_records (srv : nat -> Z -> response) (n : nat)
    (starts : list Z) : list Movie :=
  match starts with
  | [] => []
  | start :: rest =>
    page_records (srv n start) ++ pages_records srv (S n) rest
  end.

Fixpoint pages_events (srv : nat -> Z -> response) (n : nat)
    (starts : list Z) : list event :=
  match starts with
  | [] => []
  | start :: rest =>
    Get start :: page_reports (srv n start) ++ Sleep :: pages_events srv (S n) rest
  end.

(** Every page of a row of requests arrives with its container. *)
Fixpoint pages_ok (srv : nat -> Z -> response) (n : nat)
    (starts : list Z) : bool :=
  match starts with
  | [] => true
  | start :: rest =>
    match page_error (srv n start) with
    | None => pages_ok srv (S n) rest
    | Some _ => false
    end
  end.

(** The ten offsets of a pass. *)
Definition offsets : list Z := range 0 250 25.

(** What the cache file must allow for a write to go through. *)
Definition writable (f : Fs.files) (p : Fs.path) : bool :=
  match p with
  | [] => false
  | _ => Fs.is_dir f (Fs.parent p) && negb (Fs.is_dir f p)
  end.

End PassVocabulary.

(** ** Vocabulary for statements about stored records *)

Section StoredVocabulary.
Context `{Interp}.
Import Py.

(** The key-value pairs of a record's dict. *)
Definition asdict_items (m : Movie) : list (str * json) :=
  match asdict m with
  | JDict d => d
  | _ => []
  end.

(** How a list-valued optional field is stored: left out, as [null], or
    as the list. *)
Inductive stored_list := Omitted | Null | Listed.

Definition stored_strs (k : str) (how : stored_list) (l : list str)
    : list (str * json) :=
  match how with
  | Omitted => []
  | Null => [(k, JNull)]
  | Listed => [(k, strs_json l)]
  end.

(** The dict of a record with the ten fields that have no default, and
    of the four others those that are chosen. *)
Definition stored_items (poster playable : bool) (dirs acts : stored_list)
    (m : Movie) : list (str * json) :=
  firstn 10 (asdict_items m)
  ++ (if poster then [(u "poster_url", opt_json JStr (poster_url m))] else [])
  ++ (if playable then [(u "is_playable", JBool (is_playable m))] else [])
  ++ stored_strs (u "directors") dirs (directors m)
  ++ stored_strs (u "actors") acts (actors m).

(** The record with defaults in the place of the fields not stored. *)
Definition with_defaults (poster playable : bool) (dirs acts : stored_list)
    (m : Movie) : Movie :=
  {| rank := rank m; title := title m; original_title := original_title m;
     year := year m; country := country m; genres := genres m;
     rating := rating m; votes := votes m; quote := quote m;
     detail_url := detail_url m;
     poster_url := if poster then poster_url m else None;
     is_playable := if playable then is_playable m else false;
     directors := match dirs with Listed => directors m | _ => [] end;
     actors := match acts with Listed => actors m | _ => [] end |}.

(** The record of an item in which nothing is found. *)
Definition blank_record : Movie :=
  {| rank := 0; title := []; original_title := None; year := None;
     country := None; genres := []; rating := float_zero; votes := 0;
     quote := None; detail_url := []; poster_url := None;
     is_playable := false; directors := []; actors := [] |}.

End StoredVocabulary.

(** ** Vocabulary for statements about the info text *)

Module InfoText.
Import Py.

Definition director_mark : str := u "导演:".
Definition cast_mark : str := u "主演:".

(** [mark] does not occur in [pre ++ mark] before its end. *)
Definition first_at (mark pre : str) : bool :=
  negb (contains mark (removelast (pre ++ mark))).

(** The text from the cast mark on, when there is a cast. *)
Definition cast_text (cast : option str) : str :=
  match cast with
  | Some names => cast_mark ++ names
  | None => []
  end.

Definition cast_clean (cast : option str) : bool :=
  match cast with
  | Some names => negb (contains cast_mark names) && negb (contains (u "<br") names)
  | None => true
  end.

Definition is_text (n : Bs4.node) : bool :=
  match n with
  | Bs4.Text _ => true
  | Bs4.Tag _ _ _ _ => false
  end.

End InfoText.

(** ** The analytics helper *)

Module Analytics.
Import Py.
Local Open Scope Z_scope.


End Analytics.

(** ** More worlds and fragments for the closed examples *)

Module Examples2.
Import Py Bs4 Examples.
#[local] Existing Instance tenths_interp.

(** A page with two items, the second of which has no readable rank. *)
Definition listing_page : node :=
  Tag (u "[document]") [] [] [
    Tag (u "ol") [u "grid_view"] [] [listed_item; unranked_item]].

(** The cache directory exists and every request is answered with the
    listing. *)
Definition listing_world : world :=
  {| fs := {[ ["data"%string] := Fs.Dir ]};
     server := fun _ _ => Response 200 listing_page;
     log := [] |}.

(** The third request is answered with status 503. *)
Definition failing_world : world :=
  {| fs := {[ ["data"%string] := Fs.Dir ]};
     server := fun n _ =>
       if (n =? 2)%nat then Response 503 empty_page
       else Response 200 listing_page;
     log := [] |}.

(** A directory sits where the cache file should be. *)
Definition occupied_world : world :=
  {| fs := <[ ["data"%string; "douban_top250.json"%string] := Fs.Dir ]>
             {[ ["data"%string] := Fs.Dir ]};
     server := fun _ _ => Response 200 listing_page;
     log := [] |}.

(** A directory with a regular file in it. *)
Definition home_world : world :=
  {| fs := <[ ["home"%string; "notes.txt"%string] := Fs.File (u "remember") ]>
             {[ ["home"%string] := Fs.Dir ]};
     server := fun _ _ => Unreachable;
     log := [] |}.

(** An item whose info block names a director and a cast on its first
    line and has the metadata on its second. *)
Definition credited_info : node :=
  Tag (u "p") [] [] [
    text " 导演: 弗兰克·德拉邦特 Frank Darabont   主演: 蒂姆·罗宾斯 Tim Robbins / 摩根·弗里曼 ";
    Tag (u "br") [] [] [];
    text " 1994 / 美国 / 犯罪 剧情 "].

Definition credited_item : node :=
  Tag (u "li") [] [] [
    Tag (u "em") [] [] [text "1"];
    Tag (u "span") [u "title"] [] [text "肖申克的救赎"];
    Tag (u "span") [u "title"] [] [text " / The Shawshank Redemption"];
    Tag (u "span") [u "other"] [] [text " / 月黑高飞(港)  /  刺激1995(台)"];
    Tag (u "div") [u "bd"] [] [
      credited_info;
      Tag (u "div") [u "star"] [] [
        Tag (u "span") [u "rating_num"] [] [text "9.7"];
        Tag (u "span") [] [] [text "-5人评价"]]]].

(** An item whose metadata line has an empty segment between its
    slashes. *)
Definition gapped_info : node :=
  Tag (u "p") [] [] [
    text " 导演: 张艺谋 ";
    Tag (u "br") [] [] [];
    text " 1994 / / 剧情 "].

Definition gapped_item : node :=
  Tag (u "li") [] [] [Tag (u "div") [u "bd"] [] [gapped_info]].

(** An item whose metadata line has a non-breaking space and the text of
    the entity inside its last segment. *)
Definition spaced_info : node :=
  Tag (u "p") [] [] [
    text " 导演: 张艺谋 ";
    Tag (u "br") [] [] [];
    Text (u " 1994 / 美国 / 剧情" ++ nbsp ++ u "犯罪&nbsp;惊悚 ")].

Definition spaced_item : node :=
  Tag (u "li") [] [] [Tag (u "div") [u "bd"] [] [spaced_info]].

(** An item whose vote count is in the star block only. *)
Definition starred_item : node :=
  Tag (u "li") [] [] [
    Tag (u "div") [u "star"] [] [
      Tag (u "span") [u "rating_num"] [] [text "8.5"];
      Tag (u "span") [] [] [text "42人评价"]]].

(** A record whose title is a lone surrogate. *)
Definition surrogate_movie : Movie :=
  {| rank := 1; title := [55296%N]; original_title := None;
     year := None; country := None; genres := []; rating := (n9, n7);
     votes := 0; quote := None; detail_url := []; poster_url := None;
     is_playable := false; directors := []; actors := [] |}.

(** An item with text and nothing else. *)
Definition bare_item : node :=
  Tag (u "li") [] [] [text "暂无"].

End Examples2.

(** * File system facts *)

Module FsFacts.
Import Fs FsSpec.

Lemma parent_snoc (p : path) (c : string) : parent (p ++ [c]) = p.
Proof. unfold parent. apply removelast_last. Qed.

Lemma stat_snoc (fs : files) (p : path) (c : string) :
  stat fs (p ++ [c]) = fs !! (p ++ [c]).
Proof. unfold stat. destruct p; reflexivity. Qed.

Lemma snoc_not_nil (p : path) (c : string) : p ++ [c] <> [].
Proof. destruct p; discriminate. Qed.

Lemma stat_insert_ne (fs : files) (p q : path) (e : entry) :
  p <> q -> stat (<[p := e]> fs) q = stat fs q.
Proof.
  intros Hne. unfold stat. destruct q; [reflexivity|].
  now rewrite lookup_insert_ne.
Qed.

Lemma stat_insert_eq (fs : files) (p : path) (e : entry) :
  p <> [] -> stat (<[p := e]> fs) p = Some e.
Proof.
  intros Hne. unfold stat. destruct p; [congruence|].
  now rewrite lookup_insert_eq.
Qed.

Lemma wf_insert_dir (fs : files) (p : path) :
  wf fs -> p <> [] -> is_dir fs (parent p) = true -> wf (<[p := Dir]> fs).
Proof.
  intros Hwf Hp Hpar q e Hq Hlook.
  destruct (decide (p = q)) as [->|Hne].
  - unfold is_dir in *.
    destruct (decide (q = parent q)) as [Heq|Hne'].
    + rewrite <- Heq. rewrite stat_insert_eq; auto.
    + rewrite stat_insert_ne; auto.
  - rewrite lookup_insert_ne in Hlook by auto.
    specialize (Hwf q e Hq Hlook). unfold is_dir in *.
    destruct (decide (p = parent q)) as [->|Hne'].
    + rewrite stat_insert_eq; auto.
    + rewrite stat_insert_ne; auto.
Qed.


Lemma in_prefixes (p q : path) : In q (prefixes p) -> q `prefix_of` p.
Proof.
  revert q. induction p as [|c p IH]; intros q.
  - intros [<-|[]]. reflexivity.
  - cbn [prefixes]. intros [<-|Hq]; [now exists (c :: p)|].
    apply in_map_iff in Hq as (q' & <- & Hq'). apply IH in Hq' as [k ->].
    now exists k.
Qed.

(** With no regular file on the way, what is not found is missing. *)
Lemma absent_no_file (fs : files) (p q : path) :
  no_file_on fs p -> q `prefix_of` p -> absent fs q = FileNotFoundError.
Proof.
  intros Hno Hq. unfold absent.
  destruct (existsb (is_file fs) (prefixes q)) eqn:E; [|reflexivity].
  apply existsb_exists in E as (q' & Hin & Hf). apply in_prefixes in Hin.
  unfold is_file in Hf. destruct (stat fs q') as [[|content]|] eqn:Es;
    try discriminate.
  exfalso. apply (Hno q' content); [|exact Es].
  destruct Hin as [k ->], Hq as [k' ->]. exists (k ++ k').
  now rewrite app_assoc.
Qed.


End FsFacts.

(** * Facts about a run *)

Section RunFacts.
Context `{Interp}.
Import Py Bs4.
Local Open Scope Z_scope.

Lemma add_log_nil w : add_log w [] = w.
Proof. destruct w. unfold add_log. simpl. now rewrite app_nil_r. Qed.

Lemma add_log_app w a b : add_log (add_log w a) b = add_log w (a ++ b).
Proof. unfold add_log. simpl. now rewrite app_assoc. Qed.

Lemma emit_add_log e w : emit e w = (Ok tt, add_log w [e]).
Proof. reflexivity. Qed.

(** The delay when the sleep accepts it, and in general. *)
Lemma respectful_delay_ok (self : DoubanTop250Scraper) (w : world) :
  delays_accepted self ->
  _respectful_delay self w = (Ok tt, add_log w [Sleep]).
Proof.
  intros Hd. unfold _respectful_delay, bind, get_world. now rewrite Hd.
Qed.

Lemma respectful_delay_cases (self : DoubanTop250Scraper) (w : world) :
  (exists e, _respectful_delay self w = (Raise e, w))
  \/ _respectful_delay self w = (Ok tt, add_log w [Sleep]).
Proof.
  unfold _respectful_delay, bind, get_world.
  destruct (sleep_error _) as [e|]; [left; now exists e|now right].
Qed.

Lemma gets_app a b : gets (a ++ b) = (gets a + gets b)%nat.
Proof. unfold gets. now rewrite List.filter_app, length_app. Qed.

(** The item loop only reports skipped items. *)
Lemma parse_items_log (lis : list node) (movies : list Movie) (w : world) :
  exists ms evs, parse_items lis movies w = (Ok ms, add_log w evs)
    /\ List.filter is_net evs = [].
Proof.
  revert movies w. induction lis as [|li rest IH]; intros movies w.
  - exists movies, []. simpl. unfold ret. now rewrite add_log_nil.
  - simpl. destruct (_parse_movie li) as [movie|exc].
    + apply IH.
    + unfold bind. rewrite emit_add_log.
      destruct (IH movies (add_log w [Printed exc])) as (ms & evs & E & Hf).
      exists ms, (Printed exc :: evs). rewrite E, add_log_app. simpl. auto.
Qed.

(** [_fetch_page], case by case on the server's answer. *)
Lemma fetch_page_unfold (self : DoubanTop250Scraper) (start : Z) (w : world) :
  _fetch_page self start w =
  let w1 := add_log w [Get start] in
  match server w (gets (log w)) start with
  | Unreachable => (Raise ConnectionError, w1)
  | Response status soup =>
    if bad_status status then (Raise (HTTPError status), w1)
    else
      match find (u "ol") (Some (u "grid_view")) soup with
      | None => (Raise no_container, w1)
      | Some grid_view => parse_items (find_all (u "li") None grid_view) [] w1
      end
  end.
Proof.
  unfold _fetch_page, bind, get_world. rewrite emit_add_log. fold (gets (log w)).
  destruct (server w (gets (log w)) start) as [|status soup]; [reflexivity|].
  fold (bad_status status). destruct (bad_status status); [reflexivity|].
  destruct (find (u "ol") (Some (u "grid_view")) soup); reflexivity.
Qed.

Lemma fetch_page_ok (self : DoubanTop250Scraper) (start : Z) (w : world) :
  page_ok (server w (gets (log w)) start) = true ->
  exists ms evs, _fetch_page self start w = (Ok ms, add_log w (Get start :: evs))
    /\ List.filter is_net evs = [].
Proof.
  intros Hok. rewrite fetch_page_unfold. cbv zeta. unfold page_ok in Hok.
  destruct (server w (gets (log w)) start) as [|status soup]; [discriminate|].
  destruct (bad_status status); [discriminate|].
  destruct (find (u "ol") (Some (u "grid_view")) soup) as [g|]; [|discriminate].
  destruct (parse_items_log (find_all (u "li") None g) [] (add_log w [Get start]))
    as (ms & evs & E & Hf).
  exists ms, evs. rewrite E, add_log_app. auto.
Qed.

Lemma fetch_page_lacks (self : DoubanTop250Scraper) (start : Z) (w : world) :
  lacks_container (server w (gets (log w)) start) = true ->
  _fetch_page self start w = (Raise no_container, add_log w [Get start]).
Proof.
  intros Hl. rewrite fetch_page_unfold. cbv zeta. unfold lacks_container in Hl.
  destruct (server w (gets (log w)) start) as [|status soup]; [discriminate|].
  destruct (bad_status status); [discriminate|].
  destruct (find (u "ol") (Some (u "grid_view")) soup) as [g|]; [discriminate|].
  reflexivity.
Qed.

Lemma filter_net_gets evs : List.filter is_net evs = [] -> gets evs = 0%nat.
Proof.
  unfold gets. induction evs as [|e evs IH]; [reflexivity|].
  simpl. unfold is_net. destruct e; simpl; try discriminate. auto.
Qed.

Lemma gets_after_page (w : world) (start : Z) (evs : list event) :
  List.filter is_net evs = [] ->
  gets (log (add_log w ((Get start :: evs) ++ [Sleep]))) = S (gets (log w)).
Proof.
  intros Hf. unfold add_log. cbn [log]. rewrite !gets_app.
  change (gets (Get start :: evs)) with (S (gets evs)).
  rewrite (filter_net_gets evs Hf). cbn. lia.
Qed.

Lemma server_add_log (w : world) (evs : list event) :
  server (add_log w evs) = server w.
Proof. reflexivity. Qed.

(** The page loop when every page arrives with its container: one request
    and one sleep per offset, in order. *)
Lemma fetch_pages_all_ok (self : DoubanTop250Scraper) (starts : list Z) :
  delays_accepted self ->
  forall (movies : list Movie) (w : world),
  (forall i start, starts !! i = Some start ->
     page_ok (server w (gets (log w) + i) start) = true) ->
  exists ms evs, fetch_pages self starts movies w = (Ok ms, add_log w evs)
    /\ List.filter is_net evs = flat_map (fun s => [Get s; Sleep]) starts.
Proof.
  intros Hd. induction starts as [|start rest IH]; intros movies w Hok.
  - exists movies, []. simpl. unfold ret. now rewrite add_log_nil.
  - simpl. unfold bind.
    destruct (fetch_page_ok self start w) as (pm & evs & E & Hf).
    { specialize (Hok 0%nat start eq_refl). now rewrite Nat.add_0_r in Hok. }
    rewrite E. rewrite (respectful_delay_ok self _ Hd), add_log_app.
    destruct (IH (movies ++ pm) (add_log w ((Get start :: evs) ++ [Sleep])))
      as (ms & evs' & E' & Hf').
    { intros i s Hi. rewrite (gets_after_page w start evs Hf), server_add_log.
      specialize (Hok (S i) s Hi).
      now replace (S (gets (log w)) + i)%nat with (gets (log w) + S i)%nat by lia. }
    exists ms, ((Get start :: evs) ++ [Sleep] ++ evs').
    rewrite E', add_log_app. split; [now rewrite <- app_assoc|].
    simpl. rewrite List.filter_app. simpl. rewrite Hf, Hf'. reflexivity.
Qed.

(** The page loop never touches the files. *)
Lemma fetch_pages_frame (self : DoubanTop250Scraper) (starts : list Z) :
  forall (movies : list Movie) (w : world),
  exists evs, snd (fetch_pages self starts movies w) = add_log w evs.
Proof.
  induction starts as [|start rest IH]; intros movies w.
  - exists []. simpl. now rewrite add_log_nil.
  - simpl. unfold bind.
    assert (Hp : exists evs, snd (_fetch_page self start w) = add_log w evs).
    { rewrite fetch_page_unfold. cbv zeta.
      destruct (server w (gets (log w)) start) as [|status soup]; [now eexists|].
      destruct (bad_status status); [now eexists|].
      destruct (find (u "ol") (Some (u "grid_view")) soup) as [g|]; [|now eexists].
      destruct (parse_items_log (find_all (u "li") None g) [] (add_log w [Get start]))
        as (ms & evs & E & _). rewrite E, add_log_app. now eexists. }
    destruct Hp as (evs & Hp).
    destruct (_fetch_page self start w) as [[pm|e] w1]; simpl in Hp; subst w1.
    + destruct (respectful_delay_cases self (add_log w evs)) as [[e E]|E];
        rewrite E; [now eexists|]. rewrite add_log_app.
      destruct (IH (movies ++ pm) (add_log w (evs ++ [Sleep]))) as (evs' & E').
      rewrite E', add_log_app. now eexists.
    + now eexists.
Qed.

(** The page loop when the page at one offset lacks its container and the
    pages before it are in order. *)
Lemma fetch_pages_lacks (self : DoubanTop250Scraper) (pre : list Z) :
  delays_accepted self ->
  forall (s : Z) (post : list Z) (movies : list Movie) (w : world),
  (forall i start, pre !! i = Some start ->
     page_ok (server w (gets (log w) + i) start) = true) ->
  lacks_container (server w (gets (log w) + List.length pre) s) = true ->
  fst (fetch_pages self (pre ++ s :: post) movies w) = Raise no_container.
Proof.
  intros Hd. induction pre as [|start pre IH]; intros s post movies w Hok Hl.
  - simpl. unfold bind. rewrite fetch_page_lacks; [reflexivity|].
    simpl in Hl. now rewrite Nat.add_0_r in Hl.
  - simpl. unfold bind.
    destruct (fetch_page_ok self start w) as (pm & evs & E & Hf).
    { specialize (Hok 0%nat start eq_refl). now rewrite Nat.add_0_r in Hok. }
    rewrite E. rewrite (respectful_delay_ok self _ Hd), add_log_app.
    pose proof (gets_after_page w start evs Hf) as Hg.
    apply IH.
    + intros i s' Hi. rewrite Hg, server_add_log. specialize (Hok (S i) s' Hi).
      now replace (S (gets (log w)) + i)%nat with (gets (log w) + S i)%nat by lia.
    + rewrite Hg, server_add_log. simpl in Hl.
      now replace (S (gets (log w)) + List.length pre)%nat
        with (gets (log w) + S (List.length pre))%nat by lia.
Qed.

End RunFacts.

(** * Facts about text *)

Module TextFacts.
Import Py TextSpec.
Local Open Scope N_scope.

Lemma lstrip_by_idem (p : char -> bool) (s : str) :
  lstrip_by p (lstrip_by p s) = lstrip_by p s.
Proof.
  induction s as [|c r IH]; [reflexivity|].
  simpl. destruct (p c) eqn:E; [exact IH|]. simpl. now rewrite E.
Qed.

Lemma lstrip_by_snoc (p : char -> bool) (a : str) (c : char) :
  p c = false -> lstrip_by p (a ++ [c]) = lstrip_by p a ++ [c].
Proof.
  intros Hc. induction a as [|x a IH]; simpl.
  - now rewrite Hc.
  - destruct (p x); [exact IH|reflexivity].
Qed.

Lemma rstrip_by_cons (p : char -> bool) (c : char) (r : str) :
  p c = false -> rstrip_by p (c :: r) = c :: rstrip_by p r.
Proof.
  intros Hc. unfold rstrip_by. simpl rev.
  rewrite lstrip_by_snoc by exact Hc. now rewrite rev_app_distr.
Qed.

Lemma rstrip_by_idem (p : char -> bool) (s : str) :
  rstrip_by p (rstrip_by p s) = rstrip_by p s.
Proof. unfold rstrip_by. now rewrite rev_involutive, lstrip_by_idem. Qed.

Lemma lstrip_by_head (p : char -> bool) (s : str) (c : char) (r : str) :
  lstrip_by p s = c :: r -> p c = false.
Proof.
  induction s as [|x s IH]; [discriminate|].
  simpl. destruct (p x) eqn:E; [exact IH|]. intros [= <- _]. exact E.
Qed.

(** Stripping twice is stripping once. *)
Lemma strip_idem (s : str) : trimmed (strip s).
Proof.
  unfold trimmed, strip.
  destruct (lstrip_by isspace s) as [|c r] eqn:E; [reflexivity|].
  pose proof (lstrip_by_head _ _ _ _ E) as Hc.
  rewrite (rstrip_by_cons _ _ _ Hc). simpl. rewrite Hc.
  rewrite (rstrip_by_cons _ _ _ Hc). now rewrite rstrip_by_idem.
Qed.

Lemma split_single_step (c : char) (s : str) (cur : str) :
  split_go [c] s O cur =
  match s with
  | [] => [rev cur]
  | x :: r =>
    if c =? x then rev cur :: split_go [c] r O [] else split_go [c] r O (x :: cur)
  end.
Proof.
  destruct s as [|x r]; [reflexivity|]. simpl.
  destruct (c =? x); reflexivity.
Qed.

Lemma hd_split_go (c : char) (s cur : str) :
  hd [] (split_go [c] s O cur) = rev cur ++ before c s.
Proof.
  revert cur. induction s as [|x r IH]; intros cur.
  - simpl. now rewrite app_nil_r.
  - rewrite split_single_step. simpl. destruct (c =? x).
    + simpl. now rewrite app_nil_r.
    + rewrite IH. simpl. now rewrite <- app_assoc.
Qed.

(** The first piece of a split is the text before the first separator. *)
Lemma hd_split (c : char) (s : str) : hd [] (split [c] s) = before c s.
Proof. unfold split. now rewrite hd_split_go. Qed.

Lemma contains_single (c : char) (s : str) :
  contains [c] s = existsb (N.eqb c) s.
Proof.
  induction s as [|x r IH]; [reflexivity|].
  simpl. rewrite IH. now rewrite andb_true_r.
Qed.

Lemma before_absent (c : char) (s : str) :
  contains [c] s = false -> before c s = s.
Proof.
  rewrite contains_single. induction s as [|x r IH]; [reflexivity|].
  simpl. destruct (c =? x); [discriminate|]. simpl. intros Hr. now rewrite IH.
Qed.

Lemma before_free (c : char) (s : str) : free_of c (before c s).
Proof.
  unfold free_of. induction s as [|x r IH]; [intros []|].
  simpl. destruct (c =? x) eqn:E; [intros []|].
  intros [->|Hin]; [|now apply IH].
  now rewrite N.eqb_refl in E.
Qed.

(** The pieces of a split at [c] do not contain [c]. *)
Lemma split_go_free (c : char) (s cur : str) :
  free_of c cur -> Forall (free_of c) (split_go [c] s O cur).
Proof.
  revert cur. induction s as [|x r IH]; intros cur Hcur.
  - simpl. constructor; [|constructor]. unfold free_of in *.
    now rewrite <- in_rev.
  - rewrite split_single_step. destruct (c =? x) eqn:E.
    + constructor.
      * unfold free_of in *. now rewrite <- in_rev.
      * apply IH. intros [].
    + apply IH. unfold free_of in *. intros [->|Hin]; [|now apply Hcur].
      now rewrite N.eqb_refl in E.
Qed.

Lemma split_free (c : char) (s : str) : Forall (free_of c) (split [c] s).
Proof. apply split_go_free. intros []. Qed.

(** Joining the pieces gives the text back. *)
Lemma join_split_go (c : char) (s cur : str) :
  join [c] (split_go [c] s O cur) = rev cur ++ s.
Proof.
  revert cur. induction s as [|x r IH]; intros cur.
  - simpl. now rewrite app_nil_r.
  - rewrite split_single_step. destruct (c =? x) eqn:E.
    + apply N.eqb_eq in E. subst x.
      specialize (IH []). simpl in IH.
      change (join [c] (rev cur :: split_go [c] r O []))
        with (match split_go [c] r O [] with
              | [] => rev cur
              | _ => rev cur ++ [c] ++ join [c] (split_go [c] r O [])
              end).
      destruct (split_go [c] r O []) as [|p ps] eqn:Es.
      * destruct r; simpl in Es; [discriminate|].
        destruct (starts_with [c] (n :: r)); discriminate.
      * now rewrite IH.
    + rewrite IH. simpl. now rewrite <- app_assoc.
Qed.

Lemma join_split (c : char) (s : str) : join [c] (split [c] s) = s.
Proof. apply join_split_go. Qed.

Lemma strip_free (c : char) (s : str) : free_of c s -> free_of c (strip s).
Proof.
  assert (Hl : forall p t, free_of c t -> free_of c (lstrip_by p t)).
  { intros p t. unfold free_of. induction t as [|x t IH]; [auto|].
    simpl. destruct (p x); [|auto]. intros Hn. apply IH. intros Hin. apply Hn. now right. }
  intros Hs. unfold strip, rstrip_by, free_of. rewrite <- in_rev.
  apply Hl. unfold free_of. rewrite <- in_rev. now apply Hl.
Qed.

End TextFacts.

(** * Facts about the conversions *)

Section ConvFacts.
Context `{Interp}.
Import Py TextSpec.
Local Open Scope N_scope.

Lemma ascii_digit_range (c : char) : ascii_digit c = true <-> 48 <= c <= 57.
Proof.
  unfold ascii_digit. rewrite andb_true_iff, !N.leb_le. reflexivity.
Qed.

Lemma int_ascii_digit (c : char) : ascii_digit c = true -> int_ascii c = c.
Proof.
  rewrite ascii_digit_range. intros Hc. unfold int_ascii.
  destruct (c <? 128) eqn:E; [reflexivity|]. apply N.ltb_ge in E. lia.
Qed.

Lemma int_isspace_digit (c : char) : ascii_digit c = true -> int_isspace c = false.
Proof.
  rewrite ascii_digit_range. intros Hc. unfold int_isspace.
  apply orb_false_iff. split.
  - apply andb_false_iff. right. apply N.leb_gt. lia.
  - apply N.eqb_neq. lia.
Qed.

Lemma map_int_ascii_digits (ds : str) :
  forallb ascii_digit ds = true -> map int_ascii ds = ds.
Proof.
  induction ds as [|c r IH]; [reflexivity|].
  simpl. rewrite andb_true_iff. intros [Hc Hr].
  now rewrite (int_ascii_digit c Hc), IH.
Qed.

Lemma int_scan_digits (ds : str) (acc : Z) :
  forallb ascii_digit ds = true ->
  int_scan ds false acc =
  Some (fold_left (fun a c => (a * 10 + Z.of_N (c - 48))%Z) ds acc, []).
Proof.
  revert acc. induction ds as [|c r IH]; intros acc; [reflexivity|].
  simpl. rewrite andb_true_iff. intros [Hc Hr]. rewrite Hc. now apply IH.
Qed.

Lemma filter_digits_all (ds : str) :
  forallb ascii_digit ds = true -> List.filter ascii_digit ds = ds.
Proof.
  induction ds as [|c r IH]; [reflexivity|].
  simpl. rewrite andb_true_iff. intros [Hc Hr]. now rewrite Hc, IH.
Qed.

(** [int()] on a non-empty run of ASCII digits within the limit, and
    beyond it. *)
Lemma py_int_digits (ds : str) :
  forallb ascii_digit ds = true -> ds <> [] ->
  py_int ds = if within_limit ds then Some (decimal_value ds) else None.
Proof.
  intros Hds Hne. unfold py_int. rewrite (map_int_ascii_digits ds Hds).
  destruct ds as [|c r]; [congruence|].
  pose proof Hds as Hds'. simpl in Hds'. apply andb_true_iff in Hds' as [Hc Hr].
  simpl lstrip_by. rewrite (int_isspace_digit c Hc).
  pose proof (proj1 (ascii_digit_range c) Hc) as Hrange.
  replace (c =? 43) with false by (symmetry; apply N.eqb_neq; lia).
  replace (c =? 45) with false by (symmetry; apply N.eqb_neq; lia).
  rewrite Hc. rewrite (int_scan_digits (c :: r) 0 Hds).
  cbn [lstrip_by]. now rewrite (filter_digits_all (c :: r) Hds).
Qed.

(** [_extract_vote_count] when the digit characters of the text are ASCII
    digits: the number they spell when they are within the limit of
    [int()], an error beyond it, and 0 when there is none. *)
Lemma extract_vote_count_ascii (value : str) :
  forallb ascii_digit (List.filter isdigit value) = true ->
  _extract_vote_count value =
  if within_limit (List.filter isdigit value)
  then Ok (decimal_value (List.filter isdigit value))
  else Raise int_error.
Proof.
  intros Hd. unfold _extract_vote_count.
  destruct (List.filter isdigit value) as [|c r] eqn:E;
    [reflexivity|].
  rewrite (py_int_digits (c :: r) Hd) by discriminate.
  now destruct (within_limit (c :: r)).
Qed.

End ConvFacts.

(** * Facts about the JSON codec: strings *)

Section JsonStringFacts.
Context `{Interp}.
Import Py.
Local Open Scope N_scope.

Lemma hex_val_digit (d : N) : d < 16 -> hex_val (hex_digit d) = Some d.
Proof.
  intros Hd. unfold hex_digit, hex_val.
  destruct (d <? 10) eqn:E.
  - apply N.ltb_lt in E.
    replace ((48 <=? 48 + d) && (48 + d <=? 57)) with true
      by (symmetry; apply andb_true_iff; rewrite !N.leb_le; lia).
    f_equal. lia.
  - apply N.ltb_ge in E.
    replace ((48 <=? 87 + d) && (87 + d <=? 57)) with false
      by (symmetry; apply andb_false_iff; right; apply N.leb_gt; lia).
    replace ((97 <=? 87 + d) && (87 + d <=? 102)) with true
      by (symmetry; apply andb_true_iff; rewrite !N.leb_le; lia).
    f_equal. lia.
Qed.

(** One round of the scanner reads back one escaped character. *)
Lemma scanstring_step (c : char) (fuel : nat) (tail acc : str) :
  scanstring (S fuel) (escape_char c ++ tail) acc = scanstring fuel tail (c :: acc).
Proof.
  unfold escape_char.
  destruct (c =? 34) eqn:E34; [apply N.eqb_eq in E34; subst; reflexivity|].
  destruct (c =? 92) eqn:E92; [apply N.eqb_eq in E92; subst; reflexivity|].
  destruct (c =? 10) eqn:E10; [apply N.eqb_eq in E10; subst; reflexivity|].
  destruct (c =? 13) eqn:E13; [apply N.eqb_eq in E13; subst; reflexivity|].
  destruct (c =? 9) eqn:E9; [apply N.eqb_eq in E9; subst; reflexivity|].
  destruct (c =? 8) eqn:E8; [apply N.eqb_eq in E8; subst; reflexivity|].
  destruct (c =? 12) eqn:E12; [apply N.eqb_eq in E12; subst; reflexivity|].
  destruct (c <? 32) eqn:E32.
  - apply N.ltb_lt in E32.
    assert (H1 : c / 16 < 16) by (apply N.Div0.div_lt_upper_bound; lia).
    assert (H2 : c mod 16 < 16) by (apply N.mod_lt; lia).
    cbn [app scanstring]. change (92 =? 34) with false. change (92 =? 92) with true.
    cbv iota. unfold decode_uXXXX.
    rewrite (hex_val_digit _ H1), (hex_val_digit _ H2).
    change (hex_val 48) with (Some 0). cbv iota beta.
    assert (Hc : 0 * 4096 + 0 * 256 + c / 16 * 16 + c mod 16 = c).
    { pose proof (N.div_mod c 16). lia. }
    rewrite Hc.
    replace ((55296 <=? c) && (c <=? 56319)) with false
      by (symmetry; apply andb_false_iff; left; apply N.leb_gt; lia).
    reflexivity.
  - cbn [app scanstring]. rewrite E34, E92, E32. reflexivity.
Qed.

Lemma escape_char_length (c : char) : (1 <= List.length (escape_char c))%nat.
Proof.
  unfold escape_char.
  repeat match goal with |- context [if ?b then _ else _] => destruct b end;
    simpl; lia.
Qed.

Lemma scanstring_escaped (s : str) :
  forall (fuel : nat) (rest acc : str),
  (List.length (flat_map escape_char s) < fuel)%nat ->
  scanstring fuel (flat_map escape_char s ++ 34 :: rest) acc
  = Some (rev acc ++ s, rest).
Proof.
  induction s as [|c r IH]; intros fuel rest acc Hfuel.
  - destruct fuel as [|fuel]; [simpl in Hfuel; lia|]. simpl.
    now rewrite app_nil_r.
  - destruct fuel as [|fuel]; [simpl in Hfuel; lia|].
    simpl flat_map. rewrite <- app_assoc, scanstring_step.
    rewrite IH.
    + simpl. now rewrite <- app_assoc.
    + simpl in Hfuel. rewrite length_app in Hfuel.
      pose proof (escape_char_length c). lia.
Qed.

(** The scanner reads an encoded string back, whatever follows it. *)
Lemma scanstring_encode_str (s rest : str) :
  scanstring (List.length (flat_map escape_char s ++ 34 :: rest))
    (flat_map escape_char s ++ 34 :: rest) []
  = Some (s, rest).
Proof.
  rewrite scanstring_escaped; [reflexivity|].
  rewrite length_app. simpl. lia.
Qed.

End JsonStringFacts.

(** * Facts about the JSON codec: numbers *)

Section JsonNumberFacts.
Context `{Interp}.
Import Py TextSpec.
Local Open Scope N_scope.

Lemma decimal_value_snoc (ds : str) (d : char) :
  decimal_value (ds ++ [d]) = (decimal_value ds * 10 + Z.of_N (d - 48))%Z.
Proof. unfold decimal_value. now rewrite fold_left_app. Qed.

Lemma forallb_digit_snoc (ds : str) (d : char) :
  forallb ascii_digit ds = true -> ascii_digit d = true ->
  forallb ascii_digit (ds ++ [d]) = true.
Proof.
  intros H1 H2. apply forallb_forall. intros x Hx.
  apply in_app_or in Hx as [Hx|[<-|[]]]; [|exact H2].
  rewrite forallb_forall in H1. now apply H1.
Qed.

Lemma ascii_digit_offset (m : N) : m < 10 -> ascii_digit (48 + m) = true.
Proof. intros Hm. apply ascii_digit_range. lia. Qed.

(** The digits that [digits_go] puts in front of [tl]. *)
Lemma digits_go_spec (k : nat) :
  forall (n : N) (tl : str),
  n < 2 ^ N.of_nat (S k) ->
  exists ds, digits_go (S k) n tl = ds ++ tl
    /\ forallb ascii_digit ds = true
    /\ ds <> []
    /\ decimal_value ds = Z.of_N n
    /\ (hd 0 ds = 48 -> ds = [48]).
Proof.
  induction k as [|k IH]; intros n tl Hn.
  - assert (Hlt : n < 10) by (change (2 ^ N.of_nat 1) with 2 in Hn; lia).
    simpl. apply N.ltb_lt in Hlt as Hb. rewrite Hb.
    rewrite N.mod_small by lia.
    exists [48 + n]. split; [reflexivity|]. split.
    + simpl. rewrite andb_true_r. apply ascii_digit_range. lia.
    + split; [discriminate|]. split.
      * unfold decimal_value. simpl. lia.
      * simpl. intros Hz. f_equal. lia.
  - assert (Hm : n mod 10 < 10) by (apply N.mod_lt; lia).
    change (digits_go (S (S k)) n tl)
      with (if n <? 10 then (48 + n mod 10) :: tl
            else digits_go (S k) (n / 10) ((48 + n mod 10) :: tl)).
    destruct (n <? 10) eqn:Hb.
    + apply N.ltb_lt in Hb. rewrite N.mod_small by lia.
      exists [48 + n]. split; [reflexivity|]. split.
      * simpl. rewrite andb_true_r. apply ascii_digit_range. lia.
      * split; [discriminate|]. split.
        -- unfold decimal_value. simpl. lia.
        -- simpl. intros Hz. f_equal. lia.
    + apply N.ltb_ge in Hb.
      destruct (IH (n / 10) ((48 + n mod 10) :: tl)) as (ds & E & Hd & Hne & Hv & Hz).
      { apply N.Div0.div_lt_upper_bound.
        replace (N.of_nat (S (S k))) with (N.succ (N.of_nat (S k))) in Hn by lia.
        rewrite N.pow_succ_r' in Hn. lia. }
      exists (ds ++ [48 + n mod 10]). split.
      { rewrite E. now rewrite <- app_assoc. }
      split.
      { apply forallb_digit_snoc; [exact Hd|]. now apply ascii_digit_offset. }
      split.
      { destruct ds; discriminate. }
      split.
      { rewrite decimal_value_snoc, Hv.
        pose proof (N.div_mod n 10) as Hdm.
        set (q := n / 10) in *. set (m := n mod 10) in *.
        replace (48 + m - 48) with m by lia. lia. }
      intros Hhd. exfalso.
      assert (Hhd' : hd 0 ds = 48) by (destruct ds; [congruence|exact Hhd]).
      specialize (Hz Hhd'). subst ds.
      unfold decimal_value in Hv. simpl in Hv.
      assert (Hq0 : n / 10 = 0) by lia.
      assert (Hq1 : 1 <= n / 10) by (apply N.div_le_lower_bound; lia).
      rewrite Hq0 in Hq1. lia.
Qed.

Lemma nat_repr_spec (n : N) :
  forallb ascii_digit (nat_repr n) = true
  /\ nat_repr n <> []
  /\ decimal_value (nat_repr n) = Z.of_N n
  /\ (hd 0 (nat_repr n) = 48 -> nat_repr n = [48]).
Proof.
  unfold nat_repr.
  destruct (digits_go_spec (N.to_nat (N.log2 n)) n []) as (ds & E & Hd & Hne & Hv & Hz).
  { replace (N.of_nat (S (N.to_nat (N.log2 n)))) with (N.succ (N.log2 n)) by lia.
    destruct (N.eq_dec n 0) as [->|Hn0]; [reflexivity|].
    apply N.log2_spec. lia. }
  rewrite E, app_nil_r. auto.
Qed.


(** [int()] reads back what [int.__repr__] writes, within the limit. *)
Lemma py_int_int_repr (z : Z) :
  repr_within_limit z = true -> py_int (int_repr z) = Some z.
Proof.
  unfold repr_within_limit. intros Hlim.
  destruct z as [|p|p]; unfold int_repr.
  - reflexivity.
  - destruct (nat_repr_spec (Z.to_N (Z.pos p))) as (Hd & Hne & Hv & _).
    rewrite (py_int_digits _ Hd Hne), Hv.
    change (Z.to_N (Z.pos p)) with (Z.abs_N (Z.pos p)). now rewrite Hlim.
  - destruct (nat_repr_spec (N.pos p)) as (Hd & Hne & Hv & _).
    unfold py_int. simpl map. rewrite (map_int_ascii_digits _ Hd).
    change (int_ascii 45) with 45. simpl lstrip_by.
    destruct (nat_repr (N.pos p)) as [|c r] eqn:E; [congruence|].
    pose proof Hd as Hd'. simpl in Hd'. apply andb_true_iff in Hd' as [Hc _].
    change (45 =? 43) with false. change (45 =? 45) with true. cbv iota beta.
    rewrite Hc, (int_scan_digits _ 0 Hd). simpl lstrip_by. cbv iota.
    rewrite (filter_digits_all _ Hd).
    change (Z.abs_N (Z.neg p)) with (N.pos p) in Hlim. rewrite E in Hlim.
    rewrite Hlim. fold (decimal_value (c :: r)). rewrite Hv. reflexivity.
Qed.

(** What may follow a number without being read as part of it. *)
Lemma span_digits_extend (s rest ds r : str) :
  stops rest = true ->
  span_digits s = (ds, r) ->
  span_digits (s ++ rest) = (ds, r ++ rest).
Proof.
  intros Hst. revert ds r. induction s as [|c s IH]; intros ds r.
  - simpl. intros [= <- <-]. destruct rest as [|c rest]; [reflexivity|].
    simpl. simpl in Hst. destruct (ascii_digit c); [discriminate|reflexivity].
  - simpl. destruct (ascii_digit c).
    + destruct (span_digits s) as [ds' r'] eqn:E. intros [= <- <-].
      now rewrite (IH ds' r' eq_refl).
    + intros [= <- <-]. reflexivity.
Qed.

Lemma span_digits_all (ds : str) :
  forallb ascii_digit ds = true -> span_digits ds = (ds, []).
Proof.
  induction ds as [|c r IH]; [reflexivity|].
  simpl. intros Hd. apply andb_true_iff in Hd as [Hc Hr].
  now rewrite Hc, (IH Hr).
Qed.

Lemma span_digits_concat (s ds r : str) :
  span_digits s = (ds, r) -> s = ds ++ r.
Proof.
  revert ds r. induction s as [|c s IH]; intros ds r.
  - simpl. now intros [= <- <-].
  - simpl. destruct (ascii_digit c).
    + destruct (span_digits s) as [ds' r'] eqn:E. intros [= <- <-].
      simpl. f_equal. now apply IH.
    + now intros [= <- <-].
Qed.

Lemma stops_head (c : char) (rest : str) :
  stops (c :: rest) = true ->
  ascii_digit c = false /\ (c =? 46) = false /\ (c =? 101) = false
  /\ (c =? 69) = false.
Proof.
  simpl. rewrite !andb_true_iff, !negb_true_iff. tauto.
Qed.

Lemma sign_part_concat (s sg r : str) : sign_part s = (sg, r) -> s = sg ++ r.
Proof.
  destruct s as [|c s]; simpl; [now intros [= <- <-]|].
  destruct (c =? 45) eqn:E; intros [= <- <-]; [|reflexivity].
  apply N.eqb_eq in E. now subst.
Qed.

Lemma int_part_concat (s ds r : str) : int_part s = Some (ds, r) -> s = ds ++ r.
Proof.
  destruct s as [|c s]; [discriminate|]. unfold int_part.
  destruct (c =? 48) eqn:E.
  - intros [= <- <-]. apply N.eqb_eq in E. now subst.
  - destruct (ascii_digit c); [|discriminate].
    intros [= Hs]. now apply span_digits_concat.
Qed.

Lemma frac_part_concat (s fr r : str) : frac_part s = (fr, r) -> s = fr ++ r.
Proof.
  destruct s as [|c s]; [now intros [= <- <-]|]. unfold frac_part.
  destruct (c =? 46) eqn:E; [|now intros [= <- <-]].
  apply N.eqb_eq in E. subst c.
  destruct (span_digits s) as [fs r'] eqn:Es.
  apply span_digits_concat in Es. subst s.
  destruct fs; intros [= <- <-]; reflexivity.
Qed.

Lemma exp_part_concat (s ex r : str) : exp_part s = (ex, r) -> s = ex ++ r.
Proof.
  destruct s as [|e s]; [now intros [= <- <-]|]. unfold exp_part.
  destruct ((e =? 101) || (e =? 69)); [|now intros [= <- <-]].
  destruct s as [|c s'].
  - simpl. now intros [= <- <-].
  - destruct ((c =? 43) || (c =? 45)).
    + destruct (span_digits s') as [es r'] eqn:Es.
      apply span_digits_concat in Es. subst s'.
      destruct es; intros [= <- <-]; reflexivity.
    + destruct (span_digits (c :: s')) as [es r'] eqn:Es.
      apply span_digits_concat in Es. rewrite Es.
      destruct es; intros [= <- <-]; reflexivity.
Qed.

(** The groups of a match and the unread text make up the input. *)
Lemma match_number_concat (s i fr ex r : str) :
  match_number s = Some (i, fr, ex, r) -> s = i ++ fr ++ ex ++ r.
Proof.
  unfold match_number.
  destruct (sign_part s) as [sg s1] eqn:E1.
  destruct (int_part s1) as [[ds s2]|] eqn:E2; [|discriminate].
  destruct (frac_part s2) as [fr' s3] eqn:E3.
  destruct (exp_part s3) as [ex' s4] eqn:E4.
  intros [= <- <- <- <-].
  apply sign_part_concat in E1. apply int_part_concat in E2.
  apply frac_part_concat in E3. apply exp_part_concat in E4.
  subst. now rewrite <- !app_assoc.
Qed.

Lemma int_part_extend (s rest ds r : str) :
  stops rest = true ->
  int_part s = Some (ds, r) -> int_part (s ++ rest) = Some (ds, r ++ rest).
Proof.
  intros Hst. destruct s as [|c s]; [discriminate|].
  unfold int_part. cbn [app].
  destruct (c =? 48); [now intros [= <- <-]|].
  destruct (ascii_digit c) eqn:Ec; [|discriminate].
  intros [= Hs]. f_equal.
  now apply (span_digits_extend (c :: s) rest ds r).
Qed.

Lemma frac_part_extend (s rest fr r : str) :
  stops rest = true ->
  frac_part s = (fr, r) -> frac_part (s ++ rest) = (fr, r ++ rest).
Proof.
  intros Hst. destruct s as [|c s].
  - intros [= <- <-]. destruct rest as [|c rest]; [reflexivity|].
    apply stops_head in Hst as (_ & H46 & _). simpl. now rewrite H46.
  - unfold frac_part. cbn [app].
    destruct (c =? 46); [|now intros [= <- <-]].
    destruct (span_digits s) as [fs r'] eqn:Es.
    rewrite (span_digits_extend s rest fs r' Hst Es).
    destruct fs; intros [= <- <-]; reflexivity.
Qed.

Lemma exp_part_extend (s rest ex : str) :
  stops rest = true ->
  exp_part s = (ex, []) -> exp_part (s ++ rest) = (ex, rest).
Proof.
  intros Hst. destruct s as [|e s].
  - intros [= <-]. destruct rest as [|c rest]; [reflexivity|].
    apply stops_head in Hst as (_ & _ & H101 & H69). simpl.
    now rewrite H101, H69.
  - unfold exp_part. cbn [app].
    destruct ((e =? 101) || (e =? 69)); [|discriminate].
    destruct s as [|c s'].
    + simpl. discriminate.
    + cbn [app]. destruct ((c =? 43) || (c =? 45)).
      * destruct (span_digits s') as [es r'] eqn:Es.
        rewrite (span_digits_extend s' rest es r' Hst Es).
        destruct es; [discriminate|]. now intros [= <- ->].
      * destruct (span_digits (c :: s')) as [es r'] eqn:Es.
        change (c :: s' ++ rest) with ((c :: s') ++ rest).
        rewrite (span_digits_extend (c :: s') rest es r' Hst Es).
        destruct es; [discriminate|]. now intros [= <- ->].
Qed.

(** A complete match stays the match when a stopping text follows. *)
Lemma match_number_extend (s rest i fr ex : str) :
  stops rest = true ->
  match_number s = Some (i, fr, ex, []) ->
  match_number (s ++ rest) = Some (i, fr, ex, rest).
Proof.
  intros Hst. unfold match_number.
  destruct (sign_part s) as [sg s1] eqn:E1.
  destruct (int_part s1) as [[ds s2]|] eqn:E2; [|discriminate].
  destruct (frac_part s2) as [fr' s3] eqn:E3.
  destruct (exp_part s3) as [ex' s4] eqn:E4.
  intros [= <- <- <- ->].
  assert (E1' : sign_part (s ++ rest) = (sg, s1 ++ rest)).
  { destruct s as [|c s].
    - simpl in E1. injection E1 as <- <-. discriminate E2.
    - unfold sign_part in *. cbn [app].
      destruct (c =? 45); injection E1 as <- <-; reflexivity. }
  rewrite E1', (int_part_extend _ _ _ _ Hst E2),
    (frac_part_extend _ _ _ _ Hst E3), (exp_part_extend _ _ _ Hst E4).
  reflexivity.
Qed.

Lemma match_number_head (s : str) (g : str * str * str * str) :
  match_number s = Some g ->
  exists c r, s = c :: r /\ (c = 45 \/ ascii_digit c = true).
Proof.
  unfold match_number. destruct s as [|c s]; [discriminate|].
  intros Hm. exists c, s. split; [reflexivity|].
  unfold sign_part in Hm. destruct (c =? 45) eqn:E.
  - left. now apply N.eqb_eq.
  - right. unfold int_part in Hm.
    destruct (c =? 48) eqn:E48.
    + apply N.eqb_eq in E48. now subst.
    + destruct (ascii_digit c); [reflexivity|discriminate].
Qed.

(** The match of what [int.__repr__] writes. *)
Lemma match_number_int_repr (z : Z) :
  match_number (int_repr z) = Some (int_repr z, [], [], []).
Proof.
  assert (Hnat : forall n, match_number (nat_repr n) = Some (nat_repr n, [], [], [])).
  { intros n. destruct (nat_repr_spec n) as (Hd & Hne & _ & Hz).
    destruct (nat_repr n) as [|c r] eqn:E; [congruence|].
    pose proof Hd as Hd'. simpl in Hd'. apply andb_true_iff in Hd' as [Hc _].
    pose proof (proj1 (ascii_digit_range c) Hc) as Hrange.
    unfold match_number, sign_part.
    replace (c =? 45) with false by (symmetry; apply N.eqb_neq; lia).
    unfold int_part. destruct (c =? 48) eqn:E48.
    - apply N.eqb_eq in E48. subst c. specialize (Hz eq_refl).
      injection Hz as ->. reflexivity.
    - rewrite Hc, (span_digits_all _ Hd). reflexivity. }
  destruct z as [|p|p]; unfold int_repr.
  - apply Hnat.
  - apply Hnat.
  - specialize (Hnat (N.pos p)).
    destruct (nat_repr_spec (N.pos p)) as (Hd & Hne & _ & _).
    destruct (nat_repr (N.pos p)) as [|c r] eqn:E; [congruence|].
    pose proof Hd as Hd'. simpl in Hd'. apply andb_true_iff in Hd' as [Hc _].
    pose proof (proj1 (ascii_digit_range c) Hc) as Hrange.
    unfold match_number in *. unfold sign_part in *.
    replace (c =? 45) with false in Hnat by (symmetry; apply N.eqb_neq; lia).
    change (45 =? 45) with true. cbv iota.
    destruct (int_part (c :: r)) as [[ds s2]|]; [|discriminate].
    destruct (frac_part s2) as [fr s3]. destruct (exp_part s3) as [ex s4].
    injection Hnat as Hi Hf He Hr. simpl in Hi. subst. reflexivity.
Qed.

End JsonNumberFacts.

(** * Facts about the JSON codec: scalars *)

Section JsonScalarFacts.
Context `{Interp}.
Import Py TextSpec.
Local Open Scope N_scope.

Lemma str_eqb_eq (a b : str) : str_eqb a b = true <-> a = b.
Proof.
  revert b. induction a as [|x a IH]; intros [|y b]; simpl;
    try (split; [discriminate|congruence]); [tauto|].
  rewrite andb_true_iff, N.eqb_eq, IH. split; [intros [-> ->]|intros [= -> ->]]; auto.
Qed.

Lemma str_eqb_refl (a : str) : str_eqb a a = true.
Proof. now apply str_eqb_eq. Qed.

Lemma str_eqb_neq (a b : str) : a <> b -> str_eqb a b = false.
Proof.
  intros Hne. destruct (str_eqb a b) eqn:E; [|reflexivity].
  apply str_eqb_eq in E. contradiction.
Qed.

(** The decoder on a text that starts with a complete number. *)
Lemma scan_once_number (fuel : nat) (t rest i fr ex : str) :
  match_number t = Some (i, fr, ex, []) ->
  stops rest = true ->
  scan_once (S fuel) (t ++ rest) =
  match fr, ex with
  | [], [] => let! n := of_option (py_int i) int_error in Ok (JInt n, rest)
  | _, _ =>
    let! f := of_option (py_float (i ++ fr ++ ex))
                (ValueError "could not convert string to float") in
    Ok (JFloat f, rest)
  end.
Proof.
  intros Hm Hst.
  pose proof (match_number_extend t rest i fr ex Hst Hm) as Hm'.
  destruct (match_number_head t _ Hm) as (c & r & -> & Hc).
  assert (Hrange : c = 45 \/ 48 <= c <= 57).
  { destruct Hc as [->|Hd]; [now left|right; now apply ascii_digit_range]. }
  cbn [scan_once app]. cbn [app] in Hm'.
  replace (c =? 34) with false by (symmetry; apply N.eqb_neq; lia).
  replace (c =? 123) with false by (symmetry; apply N.eqb_neq; lia).
  replace (c =? 91) with false by (symmetry; apply N.eqb_neq; lia).
  change (u "null") with [110; 117; 108; 108].
  change (u "true") with [116; 114; 117; 101].
  change (u "false") with [102; 97; 108; 115; 101].
  cbn [starts_with].
  replace (110 =? c) with false by (symmetry; apply N.eqb_neq; lia).
  replace (116 =? c) with false by (symmetry; apply N.eqb_neq; lia).
  replace (102 =? c) with false by (symmetry; apply N.eqb_neq; lia).
  cbn [andb]. rewrite Hm'.
  destruct fr, ex; reflexivity.
Qed.

Lemma scan_once_int (fuel : nat) (z : Z) (rest : str) :
  repr_within_limit z = true ->
  stops rest = true ->
  scan_once (S fuel) (int_repr z ++ rest) = Ok (JInt z, rest).
Proof.
  intros Hlim Hst.
  rewrite (scan_once_number fuel _ rest _ _ _ (match_number_int_repr z) Hst).
  now rewrite py_int_int_repr.
Qed.

Lemma scan_once_float (fuel : nat) (f : float) (rest : str) :
  float_reads_back f ->
  stops rest = true ->
  scan_once (S fuel) (float_json f ++ rest) = Ok (JFloat f, rest).
Proof.
  intros Hlaw Hst. unfold float_reads_back, float_of_json_text in Hlaw.
  destruct (str_eqb (float_json f) (u "NaN")) eqn:E1.
  { apply str_eqb_eq in E1. rewrite E1.
    change (u "NaN" ++ rest) with (78 :: 97 :: 78 :: rest).
    cbn. cbn in Hlaw. rewrite Hlaw. reflexivity. }
  destruct (str_eqb (float_json f) (u "Infinity")) eqn:E2.
  { apply str_eqb_eq in E2. rewrite E2.
    change (u "Infinity" ++ rest)
      with (73 :: 110 :: 102 :: 105 :: 110 :: 105 :: 116 :: 121 :: rest).
    cbn. cbn in Hlaw. rewrite Hlaw. reflexivity. }
  destruct (str_eqb (float_json f) (u "-Infinity")) eqn:E3.
  { apply str_eqb_eq in E3. rewrite E3.
    change (u "-Infinity" ++ rest)
      with (45 :: 73 :: 110 :: 102 :: 105 :: 110 :: 105 :: 116 :: 121 :: rest).
    cbn. cbn in Hlaw. rewrite Hlaw. reflexivity. }
  destruct (match_number (float_json f)) as [[[[i fr] ex] r]|] eqn:Em;
    [|discriminate].
  assert (Hr : r = []).
  { destruct fr, ex, r; try discriminate; reflexivity. }
  subst r.
  rewrite (scan_once_number fuel _ rest _ _ _ Em Hst).
  apply match_number_concat in Em as Ec. rewrite !app_nil_r in Ec.
  rewrite <- Ec.
  destruct fr, ex; try discriminate; now rewrite Hlaw.
Qed.

Lemma value_start_facts (c : char) :
  value_start c = true ->
  is_ws c = false /\ (c =? 93) = false /\ (c =? 125) = false
  /\ (c =? 44) = false /\ (c =? 58) = false.
Proof.
  unfold value_start, is_ws, ascii_digit.
  rewrite !orb_true_iff, andb_true_iff, !N.eqb_eq, !N.leb_le.
  intros Hc.
  repeat split;
    try (apply N.eqb_neq; lia);
    repeat (apply orb_false_iff; split); apply N.eqb_neq; lia.
Qed.

(** The text of a float starts like a value. *)
Lemma float_json_start (f : float) :
  float_reads_back f ->
  exists c r, float_json f = c :: r /\ value_start c = true.
Proof.
  intros Hlaw. unfold float_reads_back, float_of_json_text in Hlaw.
  destruct (str_eqb (float_json f) (u "NaN")) eqn:E1.
  { apply str_eqb_eq in E1. rewrite E1. now eexists _, _. }
  destruct (str_eqb (float_json f) (u "Infinity")) eqn:E2.
  { apply str_eqb_eq in E2. rewrite E2. now eexists _, _. }
  destruct (str_eqb (float_json f) (u "-Infinity")) eqn:E3.
  { apply str_eqb_eq in E3. rewrite E3. now eexists _, _. }
  destruct (match_number (float_json f)) as [g|] eqn:Em; [|discriminate].
  destruct (match_number_head _ _ Em) as (c & r & E & Hc).
  exists c, r. split; [exact E|]. unfold value_start.
  destruct Hc as [->|Hd]; [reflexivity|]. rewrite Hd.
  now rewrite !orb_true_r.
Qed.

Lemma int_repr_start (z : Z) :
  exists c r, int_repr z = c :: r /\ value_start c = true.
Proof.
  destruct (match_number_head _ _ (match_number_int_repr z)) as (c & r & E & Hc).
  exists c, r. split; [exact E|]. unfold value_start.
  destruct Hc as [->|Hd]; [reflexivity|]. rewrite Hd.
  now rewrite !orb_true_r.
Qed.

End JsonScalarFacts.

(** * Facts about the JSON codec: arrays, objects, whole texts *)

Section JsonStructFacts.
Context `{Interp}.
Import Py TextSpec.
Local Open Scope N_scope.

(** Induction on JSON values, with the hypothesis for every element. *)
Lemma json_ind' (P : json -> Prop) :
  P JNull -> (forall b, P (JBool b)) -> (forall n, P (JInt n)) ->
  (forall f, P (JFloat f)) -> (forall s, P (JStr s)) ->
  (forall items, Forall P items -> P (JList items)) ->
  (forall pairs, Forall (fun kv => P (snd kv)) pairs -> P (JDict pairs)) ->
  forall v, P v.
Proof.
  intros Hnull Hbool Hint Hfloat Hstr Hlist Hdict.
  refine (fix IH (v : json) : P v :=
    match v with
    | JNull => Hnull
    | JBool b => Hbool b
    | JInt n => Hint n
    | JFloat f => Hfloat f
    | JStr s => Hstr s
    | JList items =>
      Hlist items
        ((fix go (l : list json) : Forall P l :=
            match l with
            | [] => List.Forall_nil P
            | x :: r => @List.Forall_cons _ P x r (IH x) (go r)
            end) items)
    | JDict pairs =>
      Hdict pairs
        ((fix go (l : list (str * json)) : Forall (fun kv => P (snd kv)) l :=
            match l with
            | [] => List.Forall_nil (fun kv => P (snd kv))
            | kv :: r =>
              @List.Forall_cons _ (fun kv => P (snd kv)) kv r (IH (snd kv)) (go r)
            end) pairs)
    end).
Qed.

Lemma skip_ws_start (c : char) (s : str) :
  is_ws c = false -> skip_ws (c :: s) = c :: s.
Proof. intros Hc. unfold skip_ws. simpl. now rewrite Hc. Qed.

Lemma skip_ws_indent (level : nat) (s : str) :
  skip_ws (newline_indent level ++ s) = skip_ws s.
Proof.
  unfold newline_indent, skip_ws. cbn [app lstrip_by].
  change (is_ws 10) with true. cbv iota.
  induction (2 * level)%nat as [|n IH]; [reflexivity|].
  cbn [repeat app lstrip_by]. change (is_ws 32) with true. cbv iota. exact IH.
Qed.

Lemma newline_indent_length (level : nat) :
  List.length (newline_indent level) = S (2 * level).
Proof. unfold newline_indent. simpl. now rewrite repeat_length. Qed.

(** Every encoded value starts with a character that opens a value, a
    float when it reads back. *)
Lemma encode_start (v : json) :
  match v with JFloat f => float_reads_back f | _ => True end -> opens v.
Proof.
  intros Hv level.
  destruct v as [|[]|n|f|s|[|x xs]|[|kv pairs]];
    try (now eexists _, _).
  - apply int_repr_start.
  - now apply float_json_start.
Qed.

Lemma dict_set_fresh (k : str) (v : json) (d : list (str * json)) :
  ~ In k (map fst d) -> dict_set k v d = d ++ [(k, v)].
Proof.
  induction d as [|[k' v'] d IH]; [reflexivity|].
  simpl. intros Hn.
  rewrite str_eqb_neq by (intros ->; apply Hn; now left).
  rewrite IH; [reflexivity|]. intros Hin. apply Hn. now right.
Qed.

Lemma dict_fold_distinct (pairs acc : list (str * json)) :
  List.NoDup (map fst (acc ++ pairs)) ->
  fold_left (fun d kv => dict_set (fst kv) (snd kv) d) pairs acc = acc ++ pairs.
Proof.
  revert acc. induction pairs as [|[k v] pairs IH]; intros acc Hnd.
  - now rewrite app_nil_r.
  - simpl. rewrite dict_set_fresh.
    + rewrite IH; rewrite <- app_assoc; [reflexivity|exact Hnd].
    + rewrite map_app in Hnd. simpl in Hnd.
      apply NoDup_remove_2 in Hnd. intros Hin. apply Hnd.
      apply in_or_app. now left.
Qed.

(** Building a dict from pairs with distinct keys keeps the pairs. *)
Lemma dict_of_pairs_distinct (pairs : list (str * json)) :
  List.NoDup (map fst pairs) -> dict_of_pairs pairs = pairs.
Proof. intros Hnd. unfold dict_of_pairs. now rewrite dict_fold_distinct. Qed.

Lemma stops_comma (s : str) : stops (44 :: s) = true.
Proof. reflexivity. Qed.

Lemma stops_indent (level : nat) (s : str) :
  stops (newline_indent level ++ s) = true.
Proof. reflexivity. Qed.

Lemma join_cons_cons (sep a b : str) (more : list str) :
  join sep (a :: b :: more) = a ++ sep ++ join sep (b :: more).
Proof. reflexivity. Qed.

Lemma item_sep_length (level : nat) :
  List.length (item_sep level) = (2 * level + 4)%nat.
Proof.
  unfold item_sep. rewrite length_app, newline_indent_length. simpl. lia.
Qed.

Lemma join_items_start (level : nat) (x : json) (xs : list json) (t : str) :
  opens x ->
  exists c r,
    join (item_sep level) (map (encode (S level)) (x :: xs)) ++ t = c :: r
    /\ value_start c = true.
Proof.
  intros Hopen. destruct (Hopen (S level)) as (c & r & Ec & Hc).
  cbn [map]. destruct (map (encode (S level)) xs) as [|e es].
  - simpl join. rewrite Ec. now eexists _, _.
  - rewrite join_cons_cons, Ec. now eexists _, _.
Qed.

(** The array loop on the encodings of the items that remain. *)
Lemma array_loop_items (level : nat) (rest : str) (xs : list json) :
  Forall reads_back xs ->
  forall (x : json) (acc : list json) (fuel : nat),
  reads_back x ->
  (2 * List.length (join (item_sep level) (map (encode (S level)) (x :: xs))) + 1
     <= fuel)%nat ->
  array_loop fuel
    (join (item_sep level) (map (encode (S level)) (x :: xs))
       ++ newline_indent level ++ 93 :: rest) acc
  = Ok (JList (rev acc ++ x :: xs), rest).
Proof.
  induction 1 as [|x' xs Hx' Hxs IH]; intros x acc fuel Hx Hfuel.
  - simpl map in *. simpl join in *.
    destruct fuel as [|fuel]; [lia|]. cbn [array_loop].
    rewrite (proj2 Hx); [|apply stops_indent|lia]. cbn [rbind fst snd].
    rewrite skip_ws_indent, skip_ws_start by reflexivity.
    change (93 =? 93) with true. cbv iota. reflexivity.
  - cbn [map] in *. rewrite join_cons_cons in *.
    rewrite !length_app in Hfuel.
    destruct fuel as [|fuel]; [lia|]. cbn [array_loop].
    rewrite <- !app_assoc.
    pose proof (item_sep_length level) as Hsep.
    rewrite (proj2 Hx); [|reflexivity|lia]. cbn [rbind fst snd].
    unfold item_sep at 1. change (u ",") with [44]. cbn [app].
    rewrite skip_ws_start by reflexivity.
    change (44 =? 93) with false. change (44 =? 44) with true. cbv iota.
    rewrite skip_ws_indent.
    destruct (proj1 Hx' (S level)) as (c & r & Ec & Hc).
    pose proof (value_start_facts c Hc) as (Hws & _).
    assert (Hskip : forall t,
      skip_ws (join (item_sep level) (encode (S level) x' :: map (encode (S level)) xs) ++ t)
      = join (item_sep level) (encode (S level) x' :: map (encode (S level)) xs) ++ t).
    { intros t. destruct (map (encode (S level)) xs) as [|e es].
      - simpl join. rewrite Ec. cbn [app]. now apply skip_ws_start.
      - rewrite join_cons_cons, Ec. cbn [app]. now apply skip_ws_start. }
    rewrite Hskip.
    rewrite (IH x' (x :: acc) fuel Hx').
    + simpl rev. now rewrite <- app_assoc.
    + cbn [map]. lia.
Qed.

Lemma pairs_body_join (level : nat) (kv : str * json) (more : list (str * json)) :
  join (item_sep level) (map (pair_text level) (kv :: more))
  = 34 :: pairs_body level kv more.
Proof.
  unfold pairs_body. destruct more as [|kv' more].
  - simpl. unfold pair_text, encode_str. change (u ": ") with [58; 32].
    simpl. rewrite <- !app_assoc. simpl. now rewrite app_nil_r.
  - cbn [map]. rewrite join_cons_cons. unfold pair_text at 1, encode_str.
    change (u ": ") with [58; 32]. simpl. now rewrite <- !app_assoc.
Qed.

Lemma pairs_body_length (level : nat) (kv : str * json)
    (more : list (str * json)) :
  List.length (pairs_body level kv more)
  = (List.length (flat_map escape_char (fst kv)) + 3
     + List.length (encode (S level) (snd kv))
     + match more with
       | [] => 0
       | _ => List.length (item_sep level)
              + List.length (join (item_sep level) (map (pair_text level) more))
       end)%nat.
Proof.
  unfold pairs_body. rewrite length_app. cbn [List.length].
  rewrite length_app. destruct more; [simpl; lia|].
  rewrite length_app. lia.
Qed.

(** The object loop on the encodings of the pairs that remain. *)
Lemma object_loop_pairs (level : nat) (rest : str) (more : list (str * json)) :
  Forall (fun kv => reads_back (snd kv)) more ->
  forall (kv : str * json) (acc : list (str * json)) (fuel : nat),
  reads_back (snd kv) ->
  (2 * List.length (pairs_body level kv more) + 1 <= fuel)%nat ->
  object_loop fuel (pairs_body level kv more ++ newline_indent level ++ 125 :: rest) acc
  = Ok (JDict (dict_of_pairs (rev acc ++ kv :: more)), rest).
Proof.
  induction 1 as [|kv' more Hkv' Hmore IH]; intros [k v] acc fuel Hv Hfuel.
  - rewrite pairs_body_length in Hfuel.
    unfold pairs_body in *. cbn [fst snd] in *.
    rewrite app_nil_r.
    destruct fuel as [|fuel]; [lia|]. cbn [object_loop].
    rewrite <- !app_assoc. cbn [app]. rewrite <- ?app_assoc.
    rewrite scanstring_encode_str.
    rewrite skip_ws_start by reflexivity.
    change (58 =? 58) with true. cbv iota.
    destruct (proj1 Hv (S level)) as (c & r & Ec & Hc).
    pose proof (value_start_facts c Hc) as (Hws & _).
    assert (Hskip : forall t, skip_ws (32 :: encode (S level) v ++ t)
                              = encode (S level) v ++ t).
    { intros t. unfold skip_ws. cbn [lstrip_by]. change (is_ws 32) with true.
      cbv iota. rewrite Ec. cbn [app lstrip_by]. now rewrite Hws. }
    rewrite Hskip.
    rewrite (proj2 Hv); [|apply stops_indent|lia]. cbn [rbind fst snd].
    rewrite skip_ws_indent, skip_ws_start by reflexivity.
    change (125 =? 125) with true. cbv iota. simpl rev. reflexivity.
  - rewrite pairs_body_length in Hfuel.
    unfold pairs_body. cbn [fst snd] in Hfuel, Hv |- *.
    destruct fuel as [|fuel]; [lia|]. cbn [object_loop].
    rewrite <- !app_assoc. cbn [app]. rewrite <- ?app_assoc.
    rewrite scanstring_encode_str.
    rewrite skip_ws_start by reflexivity.
    change (58 =? 58) with true. cbv iota.
    destruct (proj1 Hv (S level)) as (c & r & Ec & Hc).
    pose proof (value_start_facts c Hc) as (Hws & _).
    assert (Hskip : forall t, skip_ws (32 :: encode (S level) v ++ t)
                              = encode (S level) v ++ t).
    { intros t. unfold skip_ws. cbn [lstrip_by]. change (is_ws 32) with true.
      cbv iota. rewrite Ec. cbn [app lstrip_by]. now rewrite Hws. }
    rewrite Hskip.
    pose proof (item_sep_length level) as Hsep.
    rewrite (proj2 Hv); [|reflexivity|lia]. cbn [rbind fst snd].
    unfold item_sep at 1. change (u ",") with [44]. cbn [app].
    rewrite skip_ws_start by reflexivity.
    change (44 =? 125) with false. change (44 =? 44) with true. cbv iota.
    rewrite skip_ws_indent.
    change (map (pair_text level) (kv' :: more))
      with (map (pair_text level) (kv' :: more)).
    rewrite pairs_body_join. cbn [app].
    rewrite skip_ws_start by reflexivity.
    change (34 =? 34) with true. cbv iota.
    rewrite (IH kv' ((k, v) :: acc) fuel Hkv').
    + simpl rev. now rewrite <- app_assoc.
    + rewrite pairs_body_join in Hfuel. cbn [List.length] in Hfuel. lia.
Qed.

Lemma keys_distinct_items (items : list json) :
  keys_distinct (JList items) -> Forall keys_distinct items.
Proof.
  induction items as [|x r IH]; [constructor|].
  intros [Hx Hr]. constructor; [exact Hx|]. now apply IH.
Qed.

Lemma keys_distinct_pairs (pairs : list (str * json)) :
  keys_distinct (JDict pairs) ->
  List.NoDup (map fst pairs) /\ Forall (fun kv => keys_distinct (snd kv)) pairs.
Proof.
  intros [Hnd Hall]. split; [exact Hnd|]. clear Hnd.
  induction pairs as [|kv r IH]; [constructor|].
  destruct Hall as [Hx Hr]. constructor; [exact Hx|]. now apply IH.
Qed.

Lemma numbers_read_back_items (items : list json) :
  numbers_read_back (JList items) -> Forall numbers_read_back items.
Proof.
  induction items as [|x r IH]; [constructor|].
  intros [Hx Hr]. constructor; [exact Hx|]. now apply IH.
Qed.

Lemma numbers_read_back_pairs (pairs : list (str * json)) :
  numbers_read_back (JDict pairs) ->
  Forall (fun kv => numbers_read_back (snd kv)) pairs.
Proof.
  induction pairs as [|kv r IH]; [constructor|].
  intros [Hx Hr]. constructor; [exact Hx|]. now apply IH.
Qed.

(** The decoder reads back the encoding of every value whose numbers read
    back and whose dict keys are distinct, at every indentation level,
    whatever stopping text follows it. *)
Lemma scan_once_encode (v : json) :
  numbers_read_back v -> keys_distinct v -> reads_back v.
Proof.
  induction v as [|b|n|f|s|items IH|pairs IH] using json_ind';
    intros Hnum Hkd;
    (split; [apply encode_start; try exact I; exact Hnum|]);
    intros level fuel rest Hst Hfuel.
  - destruct fuel as [|fuel]; [simpl in Hfuel; lia|]. reflexivity.
  - destruct fuel as [|fuel]; [destruct b; simpl in Hfuel; lia|].
    destruct b; reflexivity.
  - destruct (int_repr_start n) as (c & r & Ec & _).
    destruct fuel as [|fuel]; [simpl in Hfuel; rewrite Ec in Hfuel; simpl in Hfuel; lia|].
    now apply scan_once_int.
  - destruct (float_json_start f Hnum) as (c & r & Ec & _).
    destruct fuel as [|fuel]; [simpl in Hfuel; rewrite Ec in Hfuel; simpl in Hfuel; lia|].
    now apply scan_once_float.
  - destruct fuel as [|fuel]; [simpl in Hfuel; lia|].
    simpl encode. unfold encode_str. cbn [app scan_once].
    change (34 =? 34) with true. cbv iota.
    rewrite <- app_assoc. cbn [app].
    now rewrite scanstring_encode_str.
  - destruct items as [|x xs].
    + destruct fuel as [|fuel]; [simpl in Hfuel; lia|]. reflexivity.
    + apply keys_distinct_items in Hkd.
      apply numbers_read_back_items in Hnum.
      assert (Hrb : Forall reads_back (x :: xs)).
      { clear -IH Hkd Hnum. induction IH as [|y ys Hy Hys IHys]; [constructor|].
        inversion Hkd; subst. inversion Hnum; subst. constructor; auto. }
      inversion Hrb as [|? ? Hx Hxs]; subst.
      change (encode level (JList (x :: xs)))
        with (u "[" ++ newline_indent (S level)
                ++ join (item_sep level) (map (encode (S level)) (x :: xs))
                ++ newline_indent level ++ u "]") in *.
      change (u "[") with [91] in *. change (u "]") with [93] in *.
      rewrite !length_app, !newline_indent_length in Hfuel.
      cbn [List.length] in Hfuel.
      destruct fuel as [|fuel]; [lia|].
      cbn [app scan_once]. change (91 =? 34) with false.
      change (91 =? 123) with false. change (91 =? 91) with true. cbv iota.
      rewrite <- !app_assoc. rewrite skip_ws_indent.
      destruct (join_items_start level x xs
                  (newline_indent level ++ [93] ++ rest) (proj1 Hx))
        as (c & r' & Ej & Hc).
      pose proof (value_start_facts c Hc) as (Hws & H93 & _).
      rewrite Ej, skip_ws_start by exact Hws.
      rewrite H93, <- Ej.
      change ([93] ++ rest) with (93 :: rest).
      rewrite (array_loop_items level rest xs Hxs x [] fuel Hx); [reflexivity|].
      lia.
  - destruct pairs as [|kv more].
    + destruct fuel as [|fuel]; [simpl in Hfuel; lia|]. reflexivity.
    + apply keys_distinct_pairs in Hkd as [Hnd Hkd].
      apply numbers_read_back_pairs in Hnum.
      assert (Hrb : Forall (fun kv => reads_back (snd kv)) (kv :: more)).
      { clear -IH Hkd Hnum. induction IH as [|y ys Hy Hys IHys]; [constructor|].
        inversion Hkd; subst. inversion Hnum; subst. constructor; auto. }
      inversion Hrb as [|? ? Hx Hxs]; subst.
      change (encode level (JDict (kv :: more)))
        with (u "{" ++ newline_indent (S level)
                ++ join (item_sep level) (map (pair_text level) (kv :: more))
                ++ newline_indent level ++ u "}") in *.
      change (u "{") with [123] in *. change (u "}") with [125] in *.
      rewrite pairs_body_join in *.
      rewrite !length_app, !newline_indent_length in Hfuel.
      cbn [List.length] in Hfuel.
      destruct fuel as [|fuel]; [lia|].
      cbn [app scan_once]. change (123 =? 34) with false.
      change (123 =? 123) with true. cbv iota.
      rewrite <- !app_assoc. rewrite skip_ws_indent. cbn [app].
      rewrite skip_ws_start by reflexivity.
      change (34 =? 125) with false. change (34 =? 34) with true. cbv iota.
      rewrite <- ?app_assoc. change ([125] ++ rest) with (125 :: rest).
      rewrite (object_loop_pairs level rest more Hxs kv [] fuel Hx); [|lia].
      simpl rev. cbn [app]. now rewrite (dict_of_pairs_distinct _ Hnd).
Qed.

(** The integers of a value whose numbers read back are within the
    limit, so [json.dumps] returns its text. *)
Lemma numbers_within_limit (v : json) :
  numbers_read_back v -> ints_within_limit v = true.
Proof.
  induction v as [|b|n|f|s|items IH|pairs IH] using json_ind';
    intros Hnum; try reflexivity.
  - exact Hnum.
  - apply numbers_read_back_items in Hnum. cbn [ints_within_limit].
    apply forallb_forall. intros x Hx.
    rewrite List.Forall_forall in IH, Hnum. auto.
  - apply numbers_read_back_pairs in Hnum. cbn [ints_within_limit].
    apply forallb_forall. intros x Hx.
    rewrite List.Forall_forall in IH, Hnum. auto.
Qed.

Lemma dumps_text (v : json) :
  numbers_read_back v -> dumps v = Ok (encode 0 v).
Proof. intros Hnum. unfold dumps. now rewrite numbers_within_limit. Qed.

(** [json.loads] reads back what [json.dumps] writes. *)
Lemma loads_encode (v : json) :
  numbers_read_back v -> keys_distinct v -> loads (encode 0 v) = Ok v.
Proof.
  intros Hnum Hkd. unfold loads.
  destruct (scan_once_encode v Hnum Hkd) as [Hopen Hscan].
  destruct (Hopen 0%nat) as (c & r & Ec & Hc).
  pose proof (value_start_facts c Hc) as (Hws & _).
  assert (Hsk : skip_ws (encode 0 v) = encode 0 v).
  { rewrite Ec. now apply skip_ws_start. }
  rewrite Hsk.
  pose proof (Hscan 0%nat
                (2 * List.length (encode 0 v) + 1)%nat [] eq_refl) as Hs.
  rewrite app_nil_r in Hs. rewrite Hs by lia. reflexivity.
Qed.

Lemma loads_dumps (v : json) :
  numbers_read_back v -> keys_distinct v ->
  (let! text := dumps v in loads text) = Ok v.
Proof.
  intros Hnum Hkd. rewrite (dumps_text v Hnum). cbn [rbind].
  now apply loads_encode.
Qed.

(** ** No carriage return is written *)

Lemma digits_free (c : char) (ds : str) :
  ascii_digit c = false -> forallb ascii_digit ds = true -> free_of c ds.
Proof.
  intros Hc Hd Hin. rewrite forallb_forall in Hd.
  apply Hd in Hin. congruence.
Qed.

Lemma span_digits_digits (s ds r : str) :
  span_digits s = (ds, r) -> forallb ascii_digit ds = true.
Proof.
  revert ds r. induction s as [|c s IH]; intros ds r.
  - simpl. now intros [= <- <-].
  - simpl. destruct (ascii_digit c) eqn:Ec; [|now intros [= <- <-]].
    destruct (span_digits s) as [ds' r'] eqn:E. intros [= <- <-].
    simpl. now rewrite Ec, (IH ds' r').
Qed.

Lemma match_number_free (s i fr ex r : str) :
  match_number s = Some (i, fr, ex, r) -> free_of 13 (i ++ fr ++ ex).
Proof.
  assert (H13 : ascii_digit 13 = false) by reflexivity.
  unfold match_number.
  destruct (sign_part s) as [sg s1] eqn:E1.
  destruct (int_part s1) as [[ds s2]|] eqn:E2; [|discriminate].
  destruct (frac_part s2) as [fr' s3] eqn:E3.
  destruct (exp_part s3) as [ex' s4] eqn:E4.
  intros [= <- <- <- <-].
  assert (Hsg : free_of 13 sg).
  { unfold sign_part in E1. destruct s as [|c s]; [now inversion E1|].
    destruct (c =? 45) eqn:E; inversion E1; subst; [|intros []].
    intros [Hc|[]]. discriminate Hc. }
  assert (Hds : free_of 13 ds).
  { unfold int_part in E2. destruct s1 as [|c s1]; [discriminate|].
    destruct (c =? 48); [inversion E2; subst; intros [Hc|[]]; discriminate Hc|].
    destruct (ascii_digit c); [|discriminate]. injection E2 as E2.
    apply (digits_free 13 ds H13 (span_digits_digits (c :: s1) ds s2 E2)). }
  assert (Hfr : free_of 13 fr').
  { unfold frac_part in E3. destruct s2 as [|c s2]; [inversion E3; intros []|].
    destruct (c =? 46); [|inversion E3; intros []].
    destruct (span_digits s2) as [fs r'] eqn:Es.
    pose proof (span_digits_digits _ _ _ Es) as Hd.
    destruct fs as [|f fs]; inversion E3; subst; [intros []|].
    intros [Hc|Hin]; [discriminate Hc|].
    now apply (digits_free 13 _ H13 Hd). }
  assert (Hex : free_of 13 ex').
  { unfold exp_part in E4. destruct s3 as [|e s3]; [inversion E4; intros []|].
    destruct ((e =? 101) || (e =? 69)) eqn:Ee; [|inversion E4; intros []].
    assert (He : e <> 13).
    { intros ->. discriminate Ee. }
    destruct s3 as [|c s3'].
    - simpl in E4. inversion E4. intros [].
    - destruct ((c =? 43) || (c =? 45)) eqn:Ecs.
      + destruct (span_digits s3') as [es r'] eqn:Es.
        pose proof (span_digits_digits _ _ _ Es) as Hd.
        destruct es as [|x es]; inversion E4; subst; [intros []|].
        intros [Hc|[Hc|Hin]]; [congruence| |].
        * subst c. discriminate Ecs.
        * now apply (digits_free 13 _ H13 Hd).
      + destruct (span_digits (c :: s3')) as [es r'] eqn:Es.
        pose proof (span_digits_digits _ _ _ Es) as Hd.
        destruct es as [|x es]; inversion E4; subst; [intros []|].
        intros [Hc|Hin]; [congruence|].
        now apply (digits_free 13 _ H13 Hd). }
  unfold free_of in *. rewrite !in_app_iff. tauto.
Qed.

Lemma float_json_free (f : float) :
  float_reads_back f -> free_of 13 (float_json f).
Proof.
  unfold float_reads_back, float_of_json_text. intros Hlaw.
  destruct (str_eqb (float_json f) (u "NaN")) eqn:E1.
  { apply str_eqb_eq in E1. rewrite E1. vm_compute. intuition discriminate. }
  destruct (str_eqb (float_json f) (u "Infinity")) eqn:E2.
  { apply str_eqb_eq in E2. rewrite E2. vm_compute. intuition discriminate. }
  destruct (str_eqb (float_json f) (u "-Infinity")) eqn:E3.
  { apply str_eqb_eq in E3. rewrite E3. vm_compute. intuition discriminate. }
  destruct (match_number (float_json f)) as [[[[i fr] ex] r]|] eqn:Em;
    [|discriminate].
  assert (Hr : r = []).
  { destruct fr, ex, r; try discriminate; reflexivity. }
  subst r. pose proof (match_number_free _ _ _ _ _ Em) as Hfree.
  apply match_number_concat in Em. rewrite !app_nil_r in Em.
  now rewrite Em.
Qed.

Lemma int_repr_free (z : Z) : free_of 13 (int_repr z).
Proof.
  pose proof (match_number_free _ _ _ _ _ (match_number_int_repr z)) as Hf.
  now rewrite !app_nil_r in Hf.
Qed.

Lemma escape_char_free (c : char) : free_of 13 (escape_char c).
Proof.
  unfold escape_char, hex_digit.
  destruct (c =? 34); [vm_compute; intuition discriminate|].
  destruct (c =? 92); [vm_compute; intuition discriminate|].
  destruct (c =? 10); [vm_compute; intuition discriminate|].
  destruct (c =? 13) eqn:E13; [vm_compute; intuition discriminate|].
  destruct (c =? 9); [vm_compute; intuition discriminate|].
  destruct (c =? 8); [vm_compute; intuition discriminate|].
  destruct (c =? 12); [vm_compute; intuition discriminate|].
  apply N.eqb_neq in E13.
  destruct (c <? 32).
  - intros Hin. cbn [In] in Hin.
    generalize dependent (c / 16). generalize dependent (c mod 16).
    intros a b Hin.
    destruct (b <? 10); destruct (a <? 10);
      repeat (destruct Hin as [Hin|Hin]; [try discriminate Hin; lia|]);
      exact Hin.
  - intros [Hc|[]]. congruence.
Qed.

Lemma encode_str_free (s : str) : free_of 13 (encode_str s).
Proof.
  unfold encode_str, free_of. cbn [In]. rewrite in_app_iff.
  intros [Hc|[Hin|[Hc|[]]]]; try discriminate.
  apply in_flat_map in Hin as (c & _ & Hin). now apply escape_char_free in Hin.
Qed.

Lemma newline_indent_free (level : nat) : free_of 13 (newline_indent level).
Proof.
  unfold newline_indent. intros [Hc|Hin]; [discriminate|].
  apply repeat_spec in Hin. discriminate.
Qed.

Lemma join_free (c : char) (sep : str) (parts : list str) :
  free_of c sep -> Forall (free_of c) parts -> free_of c (join sep parts).
Proof.
  intros Hsep Hparts. induction Hparts as [|p ps Hp Hps IH]; [intros []|].
  destruct ps as [|q ps]; [exact Hp|].
  change (join sep (p :: q :: ps)) with (p ++ sep ++ join sep (q :: ps)).
  unfold free_of in *. rewrite !in_app_iff. tauto.
Qed.

Lemma item_sep_free (level : nat) : free_of 13 (item_sep level).
Proof.
  unfold item_sep, free_of. rewrite in_app_iff.
  intros [Hin|Hin]; [|now apply newline_indent_free in Hin].
  vm_compute in Hin. intuition discriminate.
Qed.

(** The text of a value whose numbers read back has no carriage
    return. *)
Lemma encode_free (v : json) :
  numbers_read_back v -> forall level, free_of 13 (encode level v).
Proof.
  induction v as [|b|n|f|s|items IH|pairs IH] using json_ind';
    intros Hnum level.
  - vm_compute. intuition discriminate.
  - destruct b; vm_compute; intuition discriminate.
  - apply int_repr_free.
  - now apply float_json_free.
  - apply encode_str_free.
  - destruct items as [|x xs]; [vm_compute; intuition discriminate|].
    apply numbers_read_back_items in Hnum.
    change (encode level (JList (x :: xs)))
      with (u "[" ++ newline_indent (S level)
              ++ join (item_sep level) (map (encode (S level)) (x :: xs))
              ++ newline_indent level ++ u "]").
    assert (Hj : free_of 13
              (join (item_sep level) (map (encode (S level)) (x :: xs)))).
    { apply join_free; [apply item_sep_free|].
      apply List.Forall_forall. intros t Ht.
      apply in_map_iff in Ht as (y & <- & Hy).
      rewrite List.Forall_forall in IH, Hnum. now apply IH; auto. }
    pose proof (newline_indent_free level).
    pose proof (newline_indent_free (S level)).
    unfold free_of in *. rewrite !in_app_iff.
    intros [Hin|[Hin|[Hin|[Hin|Hin]]]]; try tauto;
      vm_compute in Hin; intuition discriminate.
  - destruct pairs as [|kv more]; [vm_compute; intuition discriminate|].
    apply numbers_read_back_pairs in Hnum.
    change (encode level (JDict (kv :: more)))
      with (u "{" ++ newline_indent (S level)
              ++ join (item_sep level) (map (pair_text level) (kv :: more))
              ++ newline_indent level ++ u "}").
    assert (Hj : free_of 13
              (join (item_sep level) (map (pair_text level) (kv :: more)))).
    { apply join_free; [apply item_sep_free|].
      apply List.Forall_forall. intros t Ht.
      apply in_map_iff in Ht as (y & <- & Hy).
      rewrite List.Forall_forall in IH, Hnum.
      unfold pair_text, free_of. rewrite !in_app_iff.
      intros [Hin|[Hin|Hin]].
      - now apply encode_str_free in Hin.
      - vm_compute in Hin. intuition discriminate.
      - now apply (IH y Hy (Hnum y Hy) (S level)). }
    pose proof (newline_indent_free level).
    pose proof (newline_indent_free (S level)).
    unfold free_of in *. rewrite !in_app_iff.
    intros [Hin|[Hin|[Hin|[Hin|Hin]]]]; try tauto;
      vm_compute in Hin; intuition discriminate.
Qed.

End JsonStructFacts.

(** * Facts about the cache store *)

Section CacheFacts.
Context `{Interp}.
Import Py TextSpec.
Local Open Scope N_scope.

Lemma field_names_distinct : List.NoDup field_names.
Proof.
  vm_compute.
  repeat (constructor; [simpl; intuition discriminate|]). constructor.
Qed.

Lemma asdict_keys (m : Movie) :
  exists pairs, asdict m = JDict pairs /\ map fst pairs = field_names.
Proof. eexists. split; reflexivity. Qed.

Lemma keys_distinct_strs (l : list str) : keys_distinct (strs_json l).
Proof. induction l as [|s l IH]; simpl; auto. Qed.

Lemma keys_distinct_opt {A} (f : A -> json) (o : option A) :
  (forall a, keys_distinct (f a)) -> keys_distinct (opt_json f o).
Proof. intros Hf. destruct o; simpl; auto. Qed.

Lemma keys_distinct_asdict (m : Movie) : keys_distinct (asdict m).
Proof.
  split; [apply field_names_distinct|].
  pose proof (keys_distinct_strs (genres m)).
  pose proof (keys_distinct_strs (directors m)).
  pose proof (keys_distinct_strs (actors m)).
  cbn [snd]. repeat split; auto; apply keys_distinct_opt; intros; exact I.
Qed.

Lemma keys_distinct_records (movies : list Movie) :
  keys_distinct (JList (map asdict movies)).
Proof.
  induction movies as [|m ms IH]; [exact I|].
  split; [apply keys_distinct_asdict|exact IH].
Qed.

Lemma as_strs_items_strs (l : list str) : as_strs_items (map JStr l) = Ok l.
Proof. induction l as [|s l IH]; [reflexivity|]. simpl. now rewrite IH. Qed.

Lemma as_strs_strs (l : list str) : as_strs (strs_json l) = Ok l.
Proof. apply as_strs_items_strs. Qed.

Lemma as_opt_strs (l : list str) :
  as_opt as_strs (strs_json l) = Ok (Some l).
Proof. unfold as_opt, strs_json. fold (strs_json l). now rewrite as_strs_strs. Qed.

Lemma as_opt_str (o : option str) : as_opt as_str (opt_json JStr o) = Ok o.
Proof. destruct o; reflexivity. Qed.

Lemma as_opt_int (o : option Z) : as_opt as_int (opt_json JInt o) = Ok o.
Proof. destruct o; reflexivity. Qed.

Lemma required_at {A} (f : json -> result A) (k : str)
    (d : list (str * json)) (v : json) :
  dict_get k d = Some v -> required f k d = f v.
Proof. intros E. unfold required. now rewrite E. Qed.

Lemma optional_at {A} (f : json -> result A) (k : str)
    (d : list (str * json)) (v : json) :
  dict_get k d = Some v -> optional f k d = (let! a := f v in Ok (Some a)).
Proof. intros E. unfold optional. now rewrite E. Qed.

(** The constructor applied to the dict of a record gives the record. *)
Lemma Movie_of_json_asdict (m : Movie) : Movie_of_json (asdict m) = Ok m.
Proof.
  destruct m as [rk ti ot yr co ge ra vo qu du pu pl di ac].
  unfold asdict, Movie_of_json, Movie_of_dict.
  cbn [rank title original_title year country genres rating votes quote
       detail_url poster_url is_playable directors actors].
  match goal with |- context [forallb _ ?d] => set (pairs := d) end.
  assert (Hkeys : forallb (fun kv => existsb (str_eqb (fst kv)) field_names) pairs
                  = true) by reflexivity.
  rewrite Hkeys. cbn [negb].
  rewrite (required_at as_int (u "rank") pairs (JInt rk) eq_refl).
  rewrite (required_at as_str (u "title") pairs (JStr ti) eq_refl).
  rewrite (required_at (as_opt as_str) (u "original_title") pairs
             (opt_json JStr ot) eq_refl), as_opt_str.
  rewrite (required_at (as_opt as_int) (u "year") pairs
             (opt_json JInt yr) eq_refl), as_opt_int.
  rewrite (required_at (as_opt as_str) (u "country") pairs
             (opt_json JStr co) eq_refl), as_opt_str.
  rewrite (required_at as_strs (u "genres") pairs (strs_json ge) eq_refl),
    as_strs_strs.
  rewrite (required_at as_float (u "rating") pairs (JFloat ra) eq_refl).
  rewrite (required_at as_int (u "votes") pairs (JInt vo) eq_refl).
  rewrite (required_at (as_opt as_str) (u "quote") pairs
             (opt_json JStr qu) eq_refl), as_opt_str.
  rewrite (required_at as_str (u "detail_url") pairs (JStr du) eq_refl).
  rewrite (optional_at (as_opt as_str) (u "poster_url") pairs
             (opt_json JStr pu) eq_refl), as_opt_str.
  rewrite (optional_at as_bool (u "is_playable") pairs (JBool pl) eq_refl).
  rewrite (optional_at (as_opt as_strs) (u "directors") pairs
             (strs_json di) eq_refl), as_opt_strs.
  rewrite (optional_at (as_opt as_strs) (u "actors") pairs
             (strs_json ac) eq_refl), as_opt_strs.
  reflexivity.
Qed.

Lemma Movies_of_items_asdict (movies : list Movie) :
  Movies_of_items (map asdict movies) = Ok movies.
Proof.
  induction movies as [|m ms IH]; [reflexivity|].
  cbn [map Movies_of_items]. now rewrite Movie_of_json_asdict, IH.
Qed.

Lemma numbers_read_back_strs (l : list str) :
  numbers_read_back (strs_json l).
Proof. induction l as [|s l IH]; simpl; auto. Qed.

Lemma numbers_read_back_asdict (m : Movie) :
  record_reads_back m -> numbers_read_back (asdict m).
Proof.
  intros (Hrank & Hyear & Hrating & Hvotes).
  pose proof (numbers_read_back_strs (genres m)).
  pose proof (numbers_read_back_strs (directors m)).
  pose proof (numbers_read_back_strs (actors m)).
  cbn [asdict numbers_read_back snd]. repeat split; auto;
    try (destruct (original_title m); exact I);
    try (destruct (country m); exact I);
    try (destruct (quote m); exact I);
    try (destruct (poster_url m); exact I).
  destruct (year m); [exact Hyear|exact I].
Qed.

Lemma numbers_read_back_records (movies : list Movie) :
  Forall record_reads_back movies ->
  numbers_read_back (JList (map asdict movies)).
Proof.
  induction 1 as [|m ms Hm Hms IH]; [exact I|].
  split; [now apply numbers_read_back_asdict|exact IH].
Qed.

(** [json.dumps] returns the text of records whose numbers read back. *)
Lemma dumps_records (movies : list Movie) :
  Forall record_reads_back movies ->
  dumps (JList (map asdict movies)) = Ok (cache_text movies).
Proof.
  intros Hrb. apply dumps_text. now apply numbers_read_back_records.
Qed.

Lemma dumps_storable (movies : list Movie) :
  storable movies = true ->
  dumps (JList (map asdict movies)) = Ok (cache_text movies).
Proof.
  unfold storable, dumps. intros Hs. apply andb_true_iff in Hs as [Hi _].
  now rewrite Hi.
Qed.

Lemma ints_within_limit_strs (l : list str) :
  ints_within_limit (strs_json l) = true.
Proof. induction l as [|s l IH]; [reflexivity|exact IH]. Qed.

(** Records that can be stored and whose ratings read back have numbers
    that read back. *)
Lemma storable_reads_back (movies : list Movie) :
  storable movies = true ->
  Forall (fun m => float_reads_back (rating m)) movies ->
  Forall record_reads_back movies.
Proof.
  unfold storable. intros Hs Hf. apply andb_true_iff in Hs as [Hi _].
  induction Hf as [|m ms Hm Hms IH]; [constructor|].
  cbn [map ints_within_limit forallb] in Hi.
  apply andb_true_iff in Hi as [Him Hims].
  constructor; [|now apply IH].
  cbn [asdict ints_within_limit forallb snd] in Him.
  repeat (apply andb_true_iff in Him as [? Him]).
  unfold record_reads_back. repeat split; try assumption.
  destruct (year m); [assumption|exact I].
Qed.

(** The text of records whose numbers read back has no carriage return. *)
Lemma cache_text_free (movies : list Movie) :
  Forall record_reads_back movies -> ~ In 13 (cache_text movies).
Proof.
  intros Hrb. apply (encode_free _ (numbers_read_back_records movies Hrb)).
Qed.

(** Decoding the text written for a list of records gives the records. *)
Lemma records_roundtrip (movies : list Movie) :
  Forall record_reads_back movies ->
  (let! raw := loads (cache_text movies) in Movies_of_raw raw) = Ok movies.
Proof.
  intros Hrb. unfold cache_text.
  rewrite (loads_encode _ (numbers_read_back_records movies Hrb)
             (keys_distinct_records movies)).
  cbn [rbind Movies_of_raw]. apply Movies_of_items_asdict.
Qed.

End CacheFacts.

Module FsWriteFacts.
Import Fs FsFacts.

Lemma open_w_ok (fs : files) (p : path) :
  p <> [] -> is_dir fs (parent p) = true -> is_dir fs p = false ->
  open_w fs p = Ok (<[p := File []]> fs).
Proof.
  intros Hp Hpar Hself. unfold open_w, is_dir in *.
  destruct p as [|c p]; [congruence|].
  destruct (stat fs (parent (c :: p))) as [[|content]|]; try discriminate.
  unfold stat in Hself.
  destruct (fs !! (c :: p)) as [[|content]|]; try discriminate; reflexivity.
Qed.

Lemma write_text_states_ok (fs : files) (p : path) (data : Py.str) :
  p <> [] -> is_dir fs (parent p) = true -> is_dir fs p = false ->
  write_text_states fs p data
  = if encodable data
    then ([<[p := File []]> fs; <[p := File data]> fs], Ok tt)
    else ([<[p := File []]> fs], Raise UnicodeEncodeError).
Proof.
  intros Hp Hpar Hself. unfold write_text_states.
  rewrite (open_w_ok fs p Hp Hpar Hself).
  destruct (encodable data); [|reflexivity].
  now rewrite insert_insert_eq.
Qed.

Lemma write_text_ok (fs : files) (p : path) (data : Py.str) :
  p <> [] -> is_dir fs (parent p) = true -> is_dir fs p = false ->
  encodable data = true ->
  write_text fs p data = (<[p := File data]> fs, Ok tt).
Proof.
  intros Hp Hpar Hself Henc. unfold write_text.
  now rewrite (write_text_states_ok fs p data Hp Hpar Hself), Henc.
Qed.

(** Text that cannot be encoded leaves the file empty. *)
Lemma write_text_unencodable (fs : files) (p : path) (data : Py.str) :
  p <> [] -> is_dir fs (parent p) = true -> is_dir fs p = false ->
  encodable data = false ->
  write_text fs p data = (<[p := File []]> fs, Raise UnicodeEncodeError).
Proof.
  intros Hp Hpar Hself Henc. unfold write_text.
  now rewrite (write_text_states_ok fs p data Hp Hpar Hself), Henc.
Qed.

(** A write that cannot open its file changes nothing. *)
Lemma write_text_closed (fs : files) (p : path) (data : Py.str) (e : exn) :
  open_w fs p = Raise e -> write_text fs p data = (fs, Raise e).
Proof.
  intros E. unfold write_text, write_text_states. now rewrite E.
Qed.

Lemma universal_newlines_plain (s : Py.str) :
  ~ In 13%N s -> universal_newlines s = s.
Proof.
  induction s as [|c r IH]; [reflexivity|]. intros Hn.
  cbn [universal_newlines].
  destruct (N.eqb_spec c 13) as [->|_]; [exfalso; apply Hn; now left|].
  rewrite IH; [reflexivity|]. intros Hin. apply Hn. now right.
Qed.

(** Text without a carriage return reads as it was written. *)
Lemma read_text_insert (fs : files) (p : path) (data : Py.str) :
  p <> [] -> ~ In 13%N data ->
  read_text (<[p := File data]> fs) p = Ok data.
Proof.
  intros Hp Hd. unfold read_text. rewrite stat_insert_eq by exact Hp.
  now rewrite universal_newlines_plain.
Qed.

End FsWriteFacts.

(** * Splitting at longer separators *)

Module TextFacts2.
Import Py TextSpec TextFacts InfoText.
Local Open Scope N_scope.

Lemma starts_with_self (sep r : str) : starts_with sep (sep ++ r) = true.
Proof.
  induction sep as [|c sep IH]; [reflexivity|].
  simpl. now rewrite N.eqb_refl, IH.
Qed.

Lemma starts_with_app (p a b : str) :
  (List.length p <= List.length a)%nat ->
  starts_with p (a ++ b) = starts_with p a.
Proof.
  revert a. induction p as [|x p IH]; intros a Hl; [now destruct a|].
  destruct a as [|y a]; [simpl in Hl; lia|].
  simpl. rewrite IH; [reflexivity|]. simpl in Hl. lia.
Qed.

Lemma starts_with_weaken (p a b : str) :
  starts_with p a = true -> starts_with p (a ++ b) = true.
Proof.
  revert a. induction p as [|x p IH]; intros a; [now destruct a|].
  destruct a as [|y a]; [discriminate|].
  simpl. rewrite !andb_true_iff. intros [-> Hp]. auto.
Qed.

Lemma contains_weaken (sep a b : str) :
  contains sep a = true -> contains sep (a ++ b) = true.
Proof.
  induction a as [|c a IH].
  - simpl. rewrite orb_false_r. intros Hs.
    destruct sep; [|discriminate]. now destruct b.
  - cbn [contains app]. fold (app a b).
    rewrite !orb_true_iff. intros [Hs|Hc].
    + left. now apply (starts_with_weaken sep (c :: a) b).
    + right. now apply IH.
Qed.

Lemma contains_after (sep pre rest : str) :
  contains sep (pre ++ sep ++ rest) = true.
Proof.
  induction pre as [|c pre IH].
  - simpl app. destruct (sep ++ rest) as [|x l] eqn:E.
    + destruct sep; [reflexivity|discriminate].
    + cbn [contains]. rewrite <- E, starts_with_self. reflexivity.
  - cbn [contains app]. rewrite IH. apply orb_true_r.
Qed.

Lemma split_go_skip (sep k rest cur : str) :
  split_go sep (k ++ rest) (List.length k) cur = split_go sep rest O cur.
Proof.
  induction k as [|c k IH]; [reflexivity|]. simpl. exact IH.
Qed.

Lemma split_go_absent (sep s cur : str) :
  contains sep s = false -> split_go sep s O cur = [rev cur ++ s].
Proof.
  revert cur. induction s as [|c s IH]; intros cur Hc.
  - simpl. now rewrite app_nil_r.
  - cbn [contains] in Hc. apply orb_false_iff in Hc as [Hs Hc].
    cbn [split_go]. rewrite Hs. rewrite (IH _ Hc). simpl.
    now rewrite <- app_assoc.
Qed.

Lemma split_absent (sep s : str) :
  contains sep s = false -> split sep s = [s].
Proof. apply split_go_absent. Qed.

Lemma removelast_snoc_app (pre sep : str) :
  sep <> [] -> exists x, pre ++ sep = removelast (pre ++ sep) ++ [x].
Proof.
  intros Hs. exists (List.last (pre ++ sep) 0). apply app_removelast_last.
  destruct pre; simpl; [exact Hs|discriminate].
Qed.

Lemma split_go_first (sep pre rest cur : str) :
  sep <> [] ->
  first_at sep pre = true ->
  split_go sep (pre ++ sep ++ rest) O cur
  = (rev cur ++ pre) :: split_go sep rest O [].
Proof.
  intros Hs. unfold first_at. rewrite negb_true_iff.
  revert cur. induction pre as [|c pre IH]; intros cur Hf.
  - simpl app. destruct sep as [|x sep']; [congruence|].
    cbn [app split_go].
    change (starts_with (x :: sep') (x :: sep' ++ rest))
      with (starts_with (x :: sep') ((x :: sep') ++ rest)).
    rewrite starts_with_self. cbn [List.length Nat.pred].
    rewrite split_go_skip. now rewrite app_nil_r.
  - assert (Hne : pre ++ sep <> []) by (destruct pre; simpl; congruence).
    assert (Hr : removelast ((c :: pre) ++ sep) = c :: removelast (pre ++ sep)).
    { simpl. destruct (pre ++ sep); congruence. }
    rewrite Hr in Hf. cbn [contains] in Hf.
    apply orb_false_iff in Hf as [Hst Hc].
    destruct (removelast_snoc_app pre sep Hs) as [x Hx].
    assert (Hlen : (List.length sep <= List.length (c :: removelast (pre ++ sep)))%nat).
    { apply (f_equal (@List.length N)) in Hx. rewrite !length_app in Hx.
      simpl in *. lia. }
    assert (Hst' : starts_with sep ((c :: pre) ++ sep ++ rest) = false).
    { replace ((c :: pre) ++ sep ++ rest)
        with ((c :: removelast (pre ++ sep)) ++ [x] ++ rest).
      - now rewrite starts_with_app.
      - simpl. f_equal. change (x :: rest) with ([x] ++ rest).
        rewrite (app_assoc (removelast (pre ++ sep)) [x] rest), <- Hx.
        now rewrite <- app_assoc. }
    cbn [app split_go] in *. rewrite Hst'. rewrite (IH _ Hc).
    simpl. now rewrite <- app_assoc.
Qed.

Lemma split_first (sep pre rest : str) :
  sep <> [] -> first_at sep pre = true ->
  split sep (pre ++ sep ++ rest) = pre :: split sep rest.
Proof. intros Hs Hf. apply (split_go_first sep pre rest [] Hs Hf). Qed.

(** ** Replacing *)

Lemma replace_go_skip (old new k rest : str) :
  replace_go old new (k ++ rest) (List.length k) = replace_go old new rest O.
Proof.
  induction k as [|c k IH]; [reflexivity|]. simpl. exact IH.
Qed.

Lemma replace_absent (old new s : str) :
  contains old s = false -> replace old new s = s.
Proof.
  unfold replace. induction s as [|c s IH]; intros Hc; [reflexivity|].
  cbn [contains] in Hc. apply orb_false_iff in Hc as [Hs Hc].
  cbn [replace_go]. rewrite Hs. now rewrite (IH Hc).
Qed.

Lemma replace_first (old new pre rest : str) :
  old <> [] ->
  first_at old pre = true ->
  replace old new (pre ++ old ++ rest) = pre ++ new ++ replace old new rest.
Proof.
  intros Hs. unfold first_at, replace. rewrite negb_true_iff.
  induction pre as [|c pre IH]; intros Hf.
  - simpl app. destruct old as [|x old']; [congruence|].
    cbn [app replace_go].
    change (starts_with (x :: old') (x :: old' ++ rest))
      with (starts_with (x :: old') ((x :: old') ++ rest)).
    rewrite starts_with_self. cbn [List.length Nat.pred].
    now rewrite replace_go_skip.
  - assert (Hr : removelast ((c :: pre) ++ old) = c :: removelast (pre ++ old)).
    { simpl. destruct (pre ++ old) eqn:E; [|reflexivity].
      destruct pre; simpl in E; congruence. }
    rewrite Hr in Hf. cbn [contains] in Hf.
    apply orb_false_iff in Hf as [Hst Hc].
    destruct (removelast_snoc_app pre old Hs) as [x Hx].
    assert (Hlen : (List.length old <= List.length (c :: removelast (pre ++ old)))%nat).
    { apply (f_equal (@List.length N)) in Hx. rewrite !length_app in Hx.
      simpl in *. lia. }
    assert (Hst' : starts_with old ((c :: pre) ++ old ++ rest) = false).
    { replace ((c :: pre) ++ old ++ rest)
        with ((c :: removelast (pre ++ old)) ++ [x] ++ rest).
      - now rewrite starts_with_app.
      - simpl. f_equal. change (x :: rest) with ([x] ++ rest).
        rewrite (app_assoc (removelast (pre ++ old)) [x] rest), <- Hx.
        now rewrite <- app_assoc. }
    cbn [app replace_go] in *. rewrite Hst'. now rewrite (IH Hc).
Qed.

(** Replacing one character by another, character by character. *)
Lemma replace_single (c d : char) (s : str) :
  replace [c] [d] s = map (fun x => if x =? c then d else x) s.
Proof.
  unfold replace. induction s as [|x s IH]; [reflexivity|].
  cbn [replace_go starts_with map List.length Nat.pred].
  rewrite andb_true_r, (N.eqb_sym c x).
  destruct (x =? c); cbn [app]; now rewrite IH.
Qed.

End TextFacts2.

(** * The orchestrator *)

Section RunClaims.
Context `{Interp}.
Import Py Bs4.
Local Open Scope Z_scope.

Lemma load_from_cache_unfold (self : DoubanTop250Scraper) (w : world) :
  _load_from_cache self w =
  ((let! text := Fs.read_text (fs w) (cache_path self) in
    let! raw := loads text in
    Movies_of_raw raw), w).
Proof.
  unfold _load_from_cache, bind, get_world, lift.
  destruct (Fs.read_text (fs w) (cache_path self)) as [text|e]; [|reflexivity].
  simpl. destruct (loads text); reflexivity.
Qed.

Lemma write_cache_log (self : DoubanTop250Scraper) (movies : list Movie)
    (w : world) :
  log (snd (_write_cache self movies w)) = log w.
Proof.
  unfold _write_cache, bind, get_world, lift, put_fs.
  destruct (dumps _) as [text|e]; [|reflexivity].
  destruct (Fs.write_text _ _ _) as [f [[]|e]]; reflexivity.
Qed.

Lemma fetch_movies_miss (self : DoubanTop250Scraper) (force_refresh : bool)
    (w : world) :
  no_cache_hit self force_refresh w = true ->
  fetch_movies self force_refresh w =
  (do movies <- fetch_pages self (range 0 250 25) [];
   do_ (if use_cache self then _write_cache self movies else ret tt);
   ret movies) w.
Proof.
  unfold no_cache_hit, fetch_movies. intros Hmiss.
  unfold bind at 1. unfold get_world at 1.
  apply negb_true_iff in Hmiss. now rewrite Hmiss.
Qed.

(** C1, as the code has it: in a fetch pass with no cache hit in which
    every page arrives with its container and every delay drawn is one
    that the sleep accepts, the orchestrator requests the offsets
    0, 25, ..., 225 once each, in increasing order, and calls the pacing
    controller once after every request, the last one included: ten
    requests and ten delays. *)
Theorem fetch_pass_requests_and_delays (self : DoubanTop250Scraper)
    (force_refresh : bool) (w : world) :
  delays_accepted self ->
  no_cache_hit self force_refresh w = true ->
  (forall i start, range 0 250 25 !! i = Some start ->
     page_ok (server w (gets (log w) + i) start) = true) ->
  exists evs,
    log (snd (fetch_movies self force_refresh w)) = log w ++ evs
    /\ List.filter is_net evs =
       flat_map (fun s => [Get s; Sleep])
         [0; 25; 50; 75; 100; 125; 150; 175; 200; 225]
    /\ List.length (List.filter is_get evs) = 10%nat
    /\ List.length (List.filter is_sleep evs) = 10%nat.
Proof.
  intros Hd Hmiss Hok. rewrite (fetch_movies_miss _ _ _ Hmiss).
  destruct (fetch_pages_all_ok self (range 0 250 25) Hd [] w Hok)
    as (ms & evs & E & Hf).
  exists evs. unfold bind. rewrite E.
  assert (Hlog : log (snd ((do_ (if use_cache self then _write_cache self ms
                                 else ret tt); ret ms) (add_log w evs)))
                 = log w ++ evs).
  { unfold bind. destruct (use_cache self).
    - pose proof (write_cache_log self ms (add_log w evs)) as Hw.
      destruct (_write_cache self ms (add_log w evs)) as [[[]|e] w']; exact Hw.
    - reflexivity. }
  unfold bind in Hlog. split; [exact Hlog|].
  change (range 0 250 25) with [0; 25; 50; 75; 100; 125; 150; 175; 200; 225] in Hf.
  split; [exact Hf|].
  assert (Hg : List.filter is_get evs = List.filter is_get (List.filter is_net evs)).
  { clear. induction evs as [|e evs IH]; [reflexivity|].
    destruct e; simpl; rewrite ?IH; reflexivity. }
  assert (Hs : List.filter is_sleep evs = List.filter is_sleep (List.filter is_net evs)).
  { clear. induction evs as [|e evs IH]; [reflexivity|].
    destruct e; simpl; rewrite ?IH; reflexivity. }
  rewrite Hg, Hs, Hf. split; reflexivity.
Qed.

(** C3: with caching enabled, no forced refresh and a cache file present,
    the fetch is the load of the cache: it leaves files, server and log as
    they were, so it makes no request, and its outcome is that of
    [_load_from_cache]; when the file holds the text written for a list of
    records whose numbers read back, it returns those records; called
    twice, the second call makes no request either and both calls return
    the same records. *)
Theorem cached_fetch_no_network (self : DoubanTop250Scraper) (w : world) :
  use_cache self = true ->
  Fs.exists_ (fs w) (cache_path self) = true ->
  snd (fetch_movies self false w) = w
  /\ (represented (fst (_load_from_cache self w)) ->
      fst (fetch_movies self false w) = fst (_load_from_cache self w))
  /\ (forall movies,
        Fs.read_text (fs w) (cache_path self) = Ok (cache_text movies) ->
        Forall record_reads_back movies ->
        fetch_movies self false w = (Ok movies, w))
  /\ (let '(r1, w1) := fetch_movies self false w in
      let '(r2, w2) := fetch_movies self false w1 in
      r1 = r2 /\ w1 = w /\ w2 = w
      /\ List.filter is_get (log w2) = List.filter is_get (log w)).
Proof.
  intros Huse Hex.
  assert (E : fetch_movies self false w =
    ((let! text := Fs.read_text (fs w) (cache_path self) in
      let! raw := loads text in
      Movies_of_raw raw), w)).
  { unfold fetch_movies. unfold bind at 1. unfold get_world at 1.
    rewrite Huse, Hex. simpl. apply load_from_cache_unfold. }
  split; [now rewrite E|].
  split; [intros _; now rewrite E, load_from_cache_unfold|].
  split.
  - intros movies Hread Hrb. rewrite E, Hread. cbn [rbind].
    now rewrite (records_roundtrip movies Hrb).
  - rewrite E, E. auto.
Qed.

(** C4: when a page of the pass arrives without the list container (the
    pages before it being in order and the delays after them accepted),
    the container error, which is none of the network errors, leaves
    [_fetch_page] and the whole pass: [fetch_movies] raises it, returns no
    records, and the files are as they were before the pass. *)
Theorem missing_container_aborts_pass (self : DoubanTop250Scraper)
    (force_refresh : bool) (w : world) (pre : list Z) (s : Z) (post : list Z) :
  delays_accepted self ->
  no_cache_hit self force_refresh w = true ->
  range 0 250 25 = pre ++ s :: post ->
  (forall i start, pre !! i = Some start ->
     page_ok (server w (gets (log w) + i) start) = true) ->
  lacks_container (server w (gets (log w) + List.length pre) s) = true ->
  fst (fetch_movies self force_refresh w) = Raise no_container
  /\ fs (snd (fetch_movies self force_refresh w)) = fs w
  /\ (forall w0, lacks_container (server w0 (gets (log w0)) s) = true ->
        fst (_fetch_page self s w0) = Raise no_container)
  /\ no_container <> ConnectionError
  /\ (forall status, no_container <> HTTPError status).
Proof.
  intros Hd Hmiss Hr Hok Hl. rewrite (fetch_movies_miss _ _ _ Hmiss), Hr.
  pose proof (fetch_pages_lacks self pre Hd s post [] w Hok Hl) as Hfst.
  destruct (fetch_pages_frame self (pre ++ s :: post) [] w) as (evs & Hsnd).
  unfold bind.
  destruct (fetch_pages self (pre ++ s :: post) [] w) as [r w'].
  simpl in Hfst, Hsnd. subst r w'. simpl.
  split; [reflexivity|]. split; [reflexivity|].
  split; [intros w0 H0; now rewrite fetch_page_lacks|].
  split; [discriminate|]. intros status. discriminate.
Qed.


End RunClaims.

Section RunExamples.
Import Py Bs4 Examples.
#[local] Existing Instance tenths_interp.
Local Open Scope Z_scope.

(** C1, as stated, fails: with every page served, the pass sleeps ten
    times, not nine, and the last thing it does after the request for
    offset 225 is to sleep. *)
Lemma fetch_pass_sleeps_after_last_page :
  let w' := snd (fetch_movies (plain_scraper false) false fresh_world) in
  List.length (List.filter is_sleep (log w')) <> 9%nat
  /\ List.length (List.filter is_get (log w')) = 10%nat
  /\ last (log w') = Some Sleep.
Proof. vm_compute. split; [discriminate|split; reflexivity]. Qed.

Lemma fetch_pass_requests_and_delays_witness :
  no_cache_hit (plain_scraper false) false fresh_world = true
  /\ exists evs,
    log (snd (fetch_movies (plain_scraper false) false fresh_world))
      = log fresh_world ++ evs
    /\ List.filter is_net evs =
       flat_map (fun s => [Get s; Sleep])
         [0; 25; 50; 75; 100; 125; 150; 175; 200; 225]
    /\ List.length (List.filter is_get evs) = 10%nat
    /\ List.length (List.filter is_sleep evs) = 10%nat.
Proof.
  split; [reflexivity|].
  apply (fetch_pass_requests_and_delays (plain_scraper false) false fresh_world).
  - intros n. reflexivity.
  - reflexivity.
  - intros i start _. reflexivity.
Defined.

Lemma listed_movie_reads_back : Forall record_reads_back [listed_movie].
Proof. repeat constructor. Qed.

Lemma cached_fetch_no_network_witness :
  fetch_movies (plain_scraper true) false
    (cached_world (cache_text [listed_movie]))
  = (Ok [listed_movie], cached_world (cache_text [listed_movie])).
Proof.
  destruct (cached_fetch_no_network (plain_scraper true)
              (cached_world (cache_text [listed_movie])) eq_refl eq_refl)
    as (_ & _ & Hrecords & _).
  exact (Hrecords [listed_movie] eq_refl listed_movie_reads_back).
Defined.

Lemma missing_container_aborts_pass_witness :
  fst (fetch_movies (plain_scraper true) false blocked_world)
    = Raise no_container
  /\ fs (snd (fetch_movies (plain_scraper true) false blocked_world))
     = fs blocked_world.
Proof.
  destruct (missing_container_aborts_pass (plain_scraper true) false
              blocked_world [0; 25; 50] 75 [100; 125; 150; 175; 200; 225])
    as (H1 & H2 & _).
  - intros n. reflexivity.
  - reflexivity.
  - reflexivity.
  - intros i start Hi.
    destruct i as [|[|[|i]]]; try reflexivity. discriminate Hi.
  - reflexivity.
  - split; assumption.
Defined.


End RunExamples.

(** * The field extractor *)

Section ExtractClaims.
Context `{Interp}.
Import Py Bs4 TextSpec TextFacts TextFacts2 InfoText.
Local Open Scope Z_scope.

(** [_parse_movie] returns exactly when the rank and the vote count are
    read, and then every field is the value of its block. *)
Lemma parse_movie_fields (li : node) :
  _parse_movie li =
  (let! rank := parse_rank li in
   let! votes := parse_votes li in
   Ok {| rank := rank; title := parse_title li;
         original_title := parse_original_title li;
         year := fst (fst (parse_meta li));
         country := snd (fst (parse_meta li));
         genres := snd (parse_meta li);
         rating := parse_rating li; votes := votes;
         quote := parse_quote li; detail_url := parse_detail_url li;
         poster_url := parse_poster_url li;
         is_playable := parse_is_playable li;
         directors := parse_directors li; actors := parse_actors li |}).
Proof.
  unfold _parse_movie. destruct (parse_rank li) as [r|e]; [|reflexivity].
  simpl. destruct (parse_meta li) as [[y c] g].
  destruct (parse_votes li) as [v|e]; reflexivity.
Qed.

Lemma parse_movie_project {A} (f : Movie -> A) (li : node) :
  rmap f (_parse_movie li) =
  (let! rank := parse_rank li in
   let! votes := parse_votes li in
   Ok (f {| rank := rank; title := parse_title li;
            original_title := parse_original_title li;
            year := fst (fst (parse_meta li));
            country := snd (fst (parse_meta li));
            genres := snd (parse_meta li);
            rating := parse_rating li; votes := votes;
            quote := parse_quote li; detail_url := parse_detail_url li;
            poster_url := parse_poster_url li;
            is_playable := parse_is_playable li;
            directors := parse_directors li; actors := parse_actors li |})).
Proof.
  rewrite parse_movie_fields. destruct (parse_rank li) as [r|e]; [|reflexivity].
  simpl. destruct (parse_votes li) as [v|e]; reflexivity.
Qed.

(** C5, as the code has it: the rank is the integer that [int()] reads
    from the text of the first [em] element, and 0 when there is no such
    element; when the text is not an integer literal the extraction of the
    item raises [ValueError], and the page loop reports the item and leaves
    it out. *)
Theorem rank_extraction (li : node) :
  rmap rank (_parse_movie li) =
    (let! r := match find (u "em") None li with
               | Some rank_tag => of_option (py_int (get_text [] rank_tag)) int_error
               | None => Ok 0
               end in
     let! _ := parse_votes li in
     Ok r)
  /\ (forall rank_tag,
        find (u "em") None li = Some rank_tag ->
        py_int (get_text [] rank_tag) = None ->
        _parse_movie li = Raise int_error
        /\ forall rest movies w,
             parse_items (li :: rest) movies w
             = parse_items rest movies (add_log w [Printed int_error])).
Proof.
  split.
  - rewrite parse_movie_project. unfold parse_rank.
    destruct (find (u "em") None li) as [t|]; [|reflexivity].
    destruct (py_int (get_text [] t)); reflexivity.
  - intros t Ht Hint.
    assert (E : _parse_movie li = Raise int_error).
    { rewrite parse_movie_fields. unfold parse_rank. now rewrite Ht, Hint. }
    split; [exact E|]. intros rest movies w. simpl. now rewrite E.
Qed.

Lemma last_item_filter_split {A} (p : A -> bool) (l : list A) (x : A) :
  last_item (List.filter p l) = Some x ->
  exists l1 l2, l = l1 ++ x :: l2 /\ p x = true /\ List.filter p l2 = [].
Proof.
  unfold last_item. induction l as [|a l IH]; [discriminate|].
  simpl. destruct (p a) eqn:Ea.
  - destruct (List.filter p l) as [|b t] eqn:Ef.
    + simpl. intros [= <-]. exists [], l. auto.
    + intros Hl. destruct IH as (l1 & l2 & -> & Hx & Hf); [exact Hl|].
      exists (a :: l1), l2. auto.
  - intros Hl. destruct (IH Hl) as (l1 & l2 & -> & Hx & Hf).
    exists (a :: l1), l2. auto.
Qed.

Lemma slash_parts_shape (s : str) :
  Forall (fun p => p <> [] /\ trimmed p /\ free_of 47%N p) (slash_parts s).
Proof.
  unfold slash_parts. apply List.Forall_forall. intros p Hp.
  apply filter_In in Hp as [Hin Hne].
  apply in_map_iff in Hin as (q & <- & Hq).
  split; [|split].
  - destruct (strip q); [discriminate|discriminate].
  - apply strip_idem.
  - apply strip_free.
    pose proof (split_free 47%N s) as Hf.
    rewrite List.Forall_forall in Hf. now apply Hf.
Qed.

(** C7, as the code has it: the year, country and genres come from the
    last non-empty line of the info block: every non-breaking space and
    every occurrence of the entity's text becomes a space, the line is cut
    at the slashes, the segments are trimmed and the empty ones dropped,
    the first segment that remains is read as the year with [int()]
    (absent when [int()] rejects it), the second is the country and the
    rest are the genres as they stand; the line "1994 / 美国 / 剧情 犯罪"
    gives 1994, 美国 and the one genre token "剧情 犯罪". *)
Theorem metadata_line_fields (li info_block : node) (line : str) :
  find (u "p") None li = Some info_block ->
  last_item (info_lines info_block) = Some line ->
  let parts :=
    slash_parts (replace (u "&nbsp;") (u " ") (replace [160%N] (u " ") line)) in
  let fields :=
    (match parts with p0 :: _ => py_int p0 | [] => None end,
     parts !! 1%nat, drop 2 parts) in
  (exists before_ after_,
     map strip (split [10%N] (get_text [10%N] info_block))
       = before_ ++ line :: after_
     /\ line <> [] /\ Forall (fun l => l = []) after_)
  /\ Forall (fun p => p <> [] /\ trimmed p /\ free_of 47%N p) parts
  /\ parse_meta li = fields
  /\ rmap (fun m => (year m, country m, genres m)) (_parse_movie li)
     = (let! _ := parse_rank li in let! _ := parse_votes li in Ok fields)
  /\ (line = u "1994 / 美国 / 剧情 犯罪" ->
      fields = (Some 1994, Some (u "美国"), [u "剧情 犯罪"]))
  /\ replace [160%N] (u " ") line
     = map (fun c => if (c =? 160)%N then 32%N else c) line
  /\ (forall s, contains (u "&nbsp;") s = false ->
        replace (u "&nbsp;") (u " ") s = s)
  /\ (forall a b, first_at (u "&nbsp;") a = true ->
        replace (u "&nbsp;") (u " ") (a ++ u "&nbsp;" ++ b)
        = a ++ u " " ++ replace (u "&nbsp;") (u " ") b).
Proof.
  intros Hfind Hlast parts fields.
  assert (Hmeta : parse_meta li = fields).
  { unfold parse_meta, metadata_parts. rewrite Hfind, Hlast.
    fold parts. subst fields. destruct parts as [|p0 [|p1 rest]]; reflexivity. }
  split; [|split; [|split; [|split; [|split; [|split; [|split]]]]]].
  - unfold info_lines in Hlast.
    apply last_item_filter_split in Hlast as (l1 & l2 & E & Hx & Hf).
    exists l1, l2. split; [exact E|]. split.
    + destruct line; [discriminate|discriminate].
    + apply List.Forall_forall. intros l Hl.
      destruct l as [|c r]; [reflexivity|]. exfalso.
      assert (Hin : In (c :: r) (List.filter nonempty l2)).
      { apply filter_In. split; [exact Hl|reflexivity]. }
      now rewrite Hf in Hin.
  - apply slash_parts_shape.
  - exact Hmeta.
  - rewrite parse_movie_project. simpl. rewrite Hmeta.
    destruct (parse_rank li); [|reflexivity]. simpl.
    destruct (parse_votes li); reflexivity.
  - intros ->. subst fields parts. vm_compute. reflexivity.
  - apply (replace_single 160%N 32%N).
  - intros s. apply replace_absent.
  - intros a b. apply replace_first. vm_compute. discriminate.
Qed.

(** C8: the vote count is what [int()] reads from the digit characters of
    the span text, in the order they occur, and 0 when there is none; when
    those are ASCII digits within the limit of [int()] it is the number
    they spell, and a ratings span with the text "1234567人评价" gives
    1234567.  The span is the first one in the rating block whose text
    holds the votes marker; when there is no such block or span, or the
    count read there is 0, it is the last span of the star block, and the
    count is 0 when that is missing too. *)
Theorem vote_count_extraction :
  Forall (fun c => uni_isdigit c = false) (u "人评价") ->
  (forall value,
     _extract_vote_count value =
     match List.filter isdigit value with
     | [] => Ok 0
     | ds => of_option (py_int ds) int_error
     end)
  /\ (forall value,
        forallb ascii_digit (List.filter isdigit value) = true ->
        within_limit (List.filter isdigit value) = true ->
        _extract_vote_count value
        = Ok (decimal_value (List.filter isdigit value)))
  /\ _extract_vote_count (u "1234567人评价") = Ok 1234567
  /\ (forall li rating_div,
        find (u "div") (Some (u "bd")) li = Some rating_div ->
        List.find is_vote_text
          (map (get_text []) (find_all (u "span") None rating_div))
          = Some (u "1234567人评价") ->
        parse_votes li = Ok 1234567
        /\ rmap votes (_parse_movie li)
           = (let! _ := parse_rank li in Ok 1234567))
  /\ (forall li rating_div span_text v,
        find (u "div") (Some (u "bd")) li = Some rating_div ->
        List.find is_vote_text
          (map (get_text []) (find_all (u "span") None rating_div))
          = Some span_text ->
        _extract_vote_count span_text = Ok v ->
        v <> 0 ->
        parse_votes li = Ok v)
  /\ (forall li star_div last_span,
        match find (u "div") (Some (u "bd")) li with
        | Some rating_div =>
          match List.find is_vote_text
                  (map (get_text []) (find_all (u "span") None rating_div)) with
          | Some span_text => _extract_vote_count span_text = Ok 0
          | None => True
          end
        | None => True
        end ->
        find (u "div") (Some (u "star")) li = Some star_div ->
        last_item (find_all (u "span") None star_div) = Some last_span ->
        parse_votes li = _extract_vote_count (get_text [] last_span))
  /\ (forall li,
        rmap votes (_parse_movie li)
        = (let! _ := parse_rank li in parse_votes li)).
Proof.
  intros Hnd.
  assert (Hex : _extract_vote_count (u "1234567人评价") = Ok 1234567).
  { assert (Hf : List.filter isdigit (u "1234567人评价") = u "1234567").
    { vm_compute in Hnd.
      inversion Hnd as [|? ? H1 Hnd1]; subst.
      inversion Hnd1 as [|? ? H2 Hnd2]; subst.
      inversion Hnd2 as [|? ? H3 _]; subst.
      vm_compute. rewrite H1, H2, H3. reflexivity. }
    rewrite extract_vote_count_ascii; rewrite Hf; reflexivity. }
  assert (Hrec : forall li,
    rmap votes (_parse_movie li) = (let! _ := parse_rank li in parse_votes li)).
  { intros li. rewrite parse_movie_project.
    destruct (parse_rank li); [|reflexivity]. cbn [rbind].
    destruct (parse_votes li); reflexivity. }
  split; [|split; [|split; [|split; [|split; [|split]]]]].
  - intros value. unfold _extract_vote_count.
    destruct (List.filter isdigit value); reflexivity.
  - intros value Hd Hlim. rewrite (extract_vote_count_ascii value Hd).
    now rewrite Hlim.
  - exact Hex.
  - intros li rating_div Hbd Hspan.
    assert (Hv : parse_votes li = Ok 1234567).
    { unfold parse_votes, votes_from_bd. rewrite Hbd, Hspan, Hex. reflexivity. }
    split; [exact Hv|]. rewrite Hrec, Hv.
    destruct (parse_rank li); reflexivity.
  - intros li rating_div span_text v Hbd Hspan Hv Hne.
    unfold parse_votes, votes_from_bd. rewrite Hbd, Hspan, Hv. cbn [rbind].
    apply Z.eqb_neq in Hne. now rewrite Hne.
  - intros li star_div last_span Hbd Hstar Hlast.
    unfold parse_votes, votes_from_bd, votes_from_star.
    rewrite Hstar, Hlast.
    destruct (find (u "div") (Some (u "bd")) li) as [rating_div|];
      [|reflexivity].
    destruct (List.find is_vote_text _) as [span_text|]; [|reflexivity].
    rewrite Hbd. reflexivity.
  - exact Hrec.
Qed.

Lemma other_title_first_alternate (o : option node) :
  match o with
  | Some other_title_tag =>
    if negb (truthy None) then
      let other_text :=
        strip (lstrip_chars (u "/") (get_text [] other_title_tag)) in
      if nonempty other_text then
        Some (if contains (u "/") other_text
              then strip (hd [] (split (u "/") other_text))
              else other_text)
      else None
    else None
  | None => None
  end =
  match o with
  | Some other_title_tag =>
    let other_text :=
      strip (lstrip_chars (u "/") (get_text [] other_title_tag)) in
    if nonempty other_text then Some (strip (before 47%N other_text))
    else None
  | None => None
  end.
Proof.
  destruct o as [o|]; [|reflexivity]. cbv zeta. simpl negb. cbv iota.
  destruct (nonempty (strip (lstrip_chars (u "/") (get_text [] o))));
    [|reflexivity].
  change (u "/") with [47%N].
  destruct (contains [47%N] (strip (lstrip_chars [47%N] (get_text [] o))))
    eqn:Ec.
  - now rewrite hd_split.
  - rewrite (before_absent _ _ Ec). now rewrite strip_idem.
Qed.

(** C9: with at most one title span, the original title comes from the
    "other titles" span: leading slashes are taken off its text, which is
    trimmed, and what is kept is the trimmed text before the first
    remaining slash, that is the first alternate, or the whole text when
    there is no further slash; with no such span, or an empty text in it,
    the original title is absent. *)
Theorem original_title_fallback (li : node) :
  (List.length (find_all (u "span") (Some (u "title")) li) <= 1)%nat ->
  let fallback :=
    match find (u "span") (Some (u "other")) li with
    | Some other_title_tag =>
      let other_text :=
        strip (lstrip_chars (u "/") (get_text [] other_title_tag)) in
      if nonempty other_text then Some (strip (before 47%N other_text))
      else None
    | None => None
    end in
  parse_original_title li = fallback
  /\ rmap original_title (_parse_movie li)
     = (let! _ := parse_rank li in let! _ := parse_votes li in Ok fallback).
Proof.
  intros Hlen fallback.
  assert (E : parse_original_title li = fallback).
  { unfold parse_original_title, second_title. subst fallback.
    destruct (find_all (u "span") (Some (u "title")) li) as [|t0 [|t1 ts]];
      [| |simpl in Hlen; lia].
    - apply other_title_first_alternate.
    - apply other_title_first_alternate. }
  split; [exact E|]. rewrite parse_movie_project. simpl. rewrite E.
  destruct (parse_rank li); [|reflexivity]. simpl.
  destruct (parse_votes li); reflexivity.
Qed.

End ExtractClaims.

Section ExtractExamples.
Import Py Bs4 TextSpec Examples Examples2.
#[local] Existing Instance tenths_interp.
Local Open Scope Z_scope.

(** C5, as stated, fails: an item whose [em] text is "abc" does not get
    rank 0; its extraction raises and the page loop leaves it out. *)
Lemma non_numeric_rank_aborts_item :
  (exists rank_tag, find (u "em") None unranked_item = Some rank_tag
                    /\ get_text [] rank_tag = u "abc")
  /\ _parse_movie unranked_item = Raise int_error
  /\ ~ (exists m, _parse_movie unranked_item = Ok m /\ rank m = 0)
  /\ fst (parse_items [unranked_item] [] fresh_world) = Ok [].
Proof.
  split; [eexists; split; reflexivity|].
  split; [reflexivity|]. split; [|reflexivity].
  intros (m & Hm & _). discriminate Hm.
Qed.

Lemma rank_extraction_witness :
  rmap rank (_parse_movie listed_item) = Ok 1
  /\ _parse_movie unranked_item = Raise int_error.
Proof.
  split.
  - rewrite (proj1 (rank_extraction listed_item)). reflexivity.
  - eapply (proj2 (rank_extraction unranked_item)); reflexivity.
Defined.

(** C7, as stated, fails: the segments do not keep their places.  In the
    line "1994 / / 剧情" the segment after the year is empty; the code
    drops it, so the country is 剧情 and there is no genre, where the
    claim has the empty segment as the country and 剧情 as the genre.  And
    the year is what [int()] reads: "1_994", which is not a number as
    written, gives 1994. *)
Lemma empty_segment_shifts_fields :
  let line := u "1994 / / 剧情" in
  let segments := map strip (split (u "/") line) in
  find (u "p") None gapped_item = Some gapped_info
  /\ last_item (info_lines gapped_info) = Some line
  /\ segments = [u "1994"; []; u "剧情"]
  /\ parse_meta gapped_item = (Some 1994, Some (u "剧情"), [])
  /\ snd (fst (parse_meta gapped_item)) <> segments !! 1%nat
  /\ snd (parse_meta gapped_item) <> drop 2 segments
  /\ _safe_int (Some (u "1_994")) = Some 1994.
Proof.
  cbv zeta. repeat split; try reflexivity; vm_compute; discriminate.
Qed.

Lemma metadata_line_fields_witness :
  parse_meta listed_item = (Some 1994, Some (u "美国"), [u "剧情 犯罪"])
  /\ parse_meta spaced_item
     = (Some 1994, Some (u "美国"), [u "剧情 犯罪 惊悚"]).
Proof.
  destruct (metadata_line_fields listed_item listed_info
              (u "1994" ++ nbsp ++ u "/" ++ nbsp ++ u "美国" ++ nbsp ++ u "/"
                 ++ nbsp ++ u "剧情 犯罪") eq_refl eq_refl)
    as (_ & _ & Hmeta & _).
  destruct (metadata_line_fields spaced_item spaced_info
              (u "1994 / 美国 / 剧情" ++ nbsp ++ u "犯罪&nbsp;惊悚")
              eq_refl eq_refl)
    as (_ & _ & Hmeta' & _).
  rewrite Hmeta, Hmeta'. split; reflexivity.
Defined.

Lemma votes_marker_no_digit :
  Forall (fun c => uni_isdigit c = false) (u "人评价").
Proof. repeat constructor. Qed.

Lemma vote_count_extraction_witness :
  parse_votes listed_item = Ok 1234567
  /\ parse_votes starred_item = Ok 42.
Proof.
  destruct (vote_count_extraction votes_marker_no_digit)
    as (_ & _ & _ & Hbd & _ & Hstar & _).
  split.
  - exact (proj1 (Hbd listed_item listed_bd eq_refl eq_refl)).
  - rewrite (Hstar starred_item
               (Tag (u "div") [u "star"] [] [
                  Tag (u "span") [u "rating_num"] [] [text "8.5"];
                  Tag (u "span") [] [] [text "42人评价"]])
               (Tag (u "span") [] [] [text "42人评价"]) I eq_refl eq_refl).
    reflexivity.
Defined.

Lemma original_title_fallback_witness :
  parse_original_title alternates_item = Some (u "美国异闻录").
Proof.
  apply (original_title_fallback alternates_item).
  vm_compute. lia.
Defined.

End ExtractExamples.

(** * The cache store *)

Section CacheClaims.
Context `{Interp}.
Import Py TextSpec.

Lemma write_cache_ok (self : DoubanTop250Scraper) (movies : list Movie)
    (w : world) :
  cache_path self <> [] ->
  Fs.is_dir (fs w) (Fs.parent (cache_path self)) = true ->
  Fs.is_dir (fs w) (cache_path self) = false ->
  storable movies = true ->
  _write_cache self movies w
  = (Ok tt, with_fs w (<[cache_path self := Fs.File (cache_text movies)]> (fs w))).
Proof.
  intros Hp Hpar Hself Hs. unfold _write_cache, bind, get_world, lift, put_fs.
  rewrite (dumps_storable movies Hs). cbn [fst snd].
  unfold storable in Hs. apply andb_true_iff in Hs as [_ Henc].
  now rewrite (FsWriteFacts.write_text_ok _ _ _ Hp Hpar Hself Henc).
Qed.

(** C2, as the code has it: for every sequence of records that can be
    stored (their integers are within the limit of the integer-to-text
    conversion and their text can be encoded) and whose ratings are floats
    that their text gives back, writing it with the cache store and then
    reading the cache back gives the same sequence, field for field:
    absent optional fields stay absent and empty lists stay empty.  The
    cache directory is in place, as the constructor leaves it. *)
Theorem cache_roundtrip (self : DoubanTop250Scraper) (movies : list Movie)
    (w : world) :
  storable movies = true ->
  Forall (fun m => float_reads_back (rating m)) movies ->
  cache_path self <> [] ->
  Fs.is_dir (fs w) (Fs.parent (cache_path self)) = true ->
  Fs.is_dir (fs w) (cache_path self) = false ->
  exists w1,
    _write_cache self movies w = (Ok tt, w1)
    /\ _load_from_cache self w1 = (Ok movies, w1)
    /\ (let! raw := loads (cache_text movies) in Movies_of_raw raw) = Ok movies.
Proof.
  intros Hs Hf Hp Hpar Hself.
  eexists. split; [apply (write_cache_ok self movies w Hp Hpar Hself Hs)|].
  pose proof (storable_reads_back movies Hs Hf) as Hrb.
  pose proof (records_roundtrip movies Hrb) as Hrt.
  split; [|exact Hrt].
  rewrite load_from_cache_unfold. cbn [fs with_fs].
  rewrite (FsWriteFacts.read_text_insert _ _ _ Hp (cache_text_free movies Hrb)).
  cbn [rbind]. exact (f_equal (fun r => (r, _)) Hrt).
Qed.

(** C6, as the code has it: for records that can be stored, the cache
    write serializes the full field set of every record, defaulted and
    absent markers included, to a JSON array and writes that text to the
    configured path by opening the file for writing, which leaves it
    empty, and then writing the text.  The write makes no directory and
    touches no other path; the directory is the one the constructor
    made. *)
Theorem cache_write_contents (self : DoubanTop250Scraper)
    (movies : list Movie) (w : world) :
  storable movies = true ->
  cache_path self <> [] ->
  Fs.is_dir (fs w) (Fs.parent (cache_path self)) = true ->
  Fs.is_dir (fs w) (cache_path self) = false ->
  let w1 := snd (_write_cache self movies w) in
  fst (_write_cache self movies w) = Ok tt
  /\ dumps (JList (map asdict movies)) = Ok (cache_text movies)
  /\ Fs.stat (fs w1) (cache_path self) = Some (Fs.File (cache_text movies))
  /\ Forall (fun v => exists pairs, v = JDict pairs /\ map fst pairs = field_names)
       (map asdict movies)
  /\ (forall q, q <> cache_path self -> Fs.stat (fs w1) q = Fs.stat (fs w) q)
  /\ Fs.write_text_states (fs w) (cache_path self) (cache_text movies)
     = ([<[cache_path self := Fs.File []]> (fs w); fs w1], Ok tt).
Proof.
  intros Hs Hp Hpar Hself w1. subst w1.
  rewrite (write_cache_ok self movies w Hp Hpar Hself Hs).
  cbn [fst snd fs with_fs].
  split; [reflexivity|]. split; [exact (dumps_storable movies Hs)|]. split.
  { now rewrite (FsFacts.stat_insert_eq _ _ _ Hp). }
  split.
  { apply List.Forall_forall. intros v Hv.
    apply in_map_iff in Hv as (m & <- & _). apply asdict_keys. }
  split.
  { intros q Hq. apply FsFacts.stat_insert_ne. congruence. }
  rewrite (FsWriteFacts.write_text_states_ok _ _ _ Hp Hpar Hself).
  unfold storable in Hs. apply andb_true_iff in Hs as [_ Henc].
  now rewrite Henc.
Qed.

End CacheClaims.

Section CacheExamples.
Import Py Bs4 TextSpec Examples Examples2.
#[local] Existing Instance tenths_interp.

Lemma tenths_float_roundtrip : float_text_roundtrip.
Proof. intros [[] []]; reflexivity. Qed.

Lemma tenths_ratings_read_back (movies : list Movie) :
  Forall (fun m => float_reads_back (rating m)) movies.
Proof.
  apply List.Forall_forall. intros m _. apply tenths_float_roundtrip.
Qed.

(** C2, as stated, fails: a record whose title is a lone surrogate cannot
    be written.  The write raises after the file has been opened, the
    file is left empty, and reading the cache back fails instead of giving
    the record. *)
Lemma cache_roundtrip_fails_on_surrogate :
  let self := plain_scraper true in
  let w1 := snd (_write_cache self [surrogate_movie] blocked_world) in
  fst (_write_cache self [surrogate_movie] blocked_world)
    = Raise UnicodeEncodeError
  /\ Fs.read_text (fs w1) (cache_path self) = Ok []
  /\ fst (_load_from_cache self w1) = Raise JSONDecodeError
  /\ fst (_load_from_cache self w1) <> Ok [surrogate_movie].
Proof.
  cbv zeta. split; [reflexivity|]. split; [reflexivity|].
  split; [reflexivity|]. vm_compute. discriminate.
Qed.

Lemma cache_roundtrip_witness :
  exists w1,
    _write_cache (plain_scraper true) [listed_movie] blocked_world = (Ok tt, w1)
    /\ _load_from_cache (plain_scraper true) w1 = (Ok [listed_movie], w1)
    /\ (let! raw := loads (cache_text [listed_movie]) in Movies_of_raw raw)
       = Ok [listed_movie].
Proof.
  apply (cache_roundtrip (plain_scraper true) [listed_movie] blocked_world).
  - reflexivity.
  - apply tenths_ratings_read_back.
  - discriminate.
  - reflexivity.
  - reflexivity.
Defined.

(** C6, as stated, fails: while the cache is being rewritten, a reader can
    find the file empty, which is neither the old text nor the new one,
    and loading the cache at that moment fails. *)
Lemma cache_write_exposes_empty_file :
  let w := cached_world (u "[]") in
  let self := plain_scraper true in
  exists mid final,
    Fs.write_text_states (fs w) (cache_path self) (cache_text [listed_movie])
      = ([mid; final], Ok tt)
    /\ Fs.read_text (fs w) (cache_path self) = Ok (u "[]")
    /\ Fs.read_text final (cache_path self) = Ok (cache_text [listed_movie])
    /\ Fs.read_text mid (cache_path self) = Ok []
    /\ cache_text [listed_movie] <> []
    /\ fst (_load_from_cache self (with_fs w mid)) = Raise JSONDecodeError.
Proof.
  eexists _, _. split; [reflexivity|].
  split; [reflexivity|]. split; [reflexivity|]. split; [reflexivity|].
  split; [|reflexivity].
  vm_compute. discriminate.
Qed.

Lemma cache_write_contents_witness :
  fst (_write_cache (plain_scraper true) [listed_movie] blocked_world) = Ok tt
  /\ Fs.stat
       (fs (snd (_write_cache (plain_scraper true) [listed_movie] blocked_world)))
       (cache_path (plain_scraper true))
     = Some (Fs.File (cache_text [listed_movie])).
Proof.
  destruct (cache_write_contents (plain_scraper true) [listed_movie] blocked_world)
    as (H1 & _ & H2 & _).
  - reflexivity.
  - discriminate.
  - reflexivity.
  - reflexivity.
  - split; assumption.
Defined.

End CacheExamples.

(** * Facts about whole pages and passes *)

Section PassFacts.
Context `{Interp}.
Import Py Bs4.
Local Open Scope Z_scope.

Lemma parse_items_outcome (lis : list node) :
  forall (movies : list Movie) (w : world),
  parse_items lis movies w
  = (Ok (movies ++ item_records lis), add_log w (item_reports lis)).
Proof.
  induction lis as [|li rest IH]; intros movies w.
  - simpl. unfold ret. now rewrite app_nil_r, add_log_nil.
  - simpl. destruct (_parse_movie li) as [movie|exc].
    + rewrite IH. now rewrite <- app_assoc.
    + unfold bind. rewrite emit_add_log, IH, add_log_app. reflexivity.
Qed.

Lemma gets_item_reports (lis : list node) : gets (item_reports lis) = 0%nat.
Proof.
  induction lis as [|li rest IH]; [reflexivity|].
  simpl. destruct (_parse_movie li); [exact IH|exact IH].
Qed.

Lemma fetch_page_cases (self : DoubanTop250Scraper) (start : Z) (w : world) :
  _fetch_page self start w =
  match page_error (server w (gets (log w)) start) with
  | Some e => (Raise e, add_log w [Get start])
  | None =>
    (Ok (page_records (server w (gets (log w)) start)),
     add_log w (Get start :: page_reports (server w (gets (log w)) start)))
  end.
Proof.
  rewrite fetch_page_unfold. cbv zeta.
  unfold page_error, page_records, page_reports, page_items.
  destruct (server w (gets (log w)) start) as [|status soup]; [reflexivity|].
  destruct (bad_status status); [reflexivity|].
  destruct (find (u "ol") (Some (u "grid_view")) soup) as [g|]; [|reflexivity].
  rewrite parse_items_outcome, add_log_app. reflexivity.
Qed.

Lemma gets_page_log (w : world) (start : Z) (reports : list event) :
  gets reports = 0%nat ->
  gets (log (add_log w ((Get start :: reports) ++ [Sleep]))) = S (gets (log w)).
Proof.
  intros Hr. unfold add_log. cbn [log]. rewrite !gets_app.
  change (gets (Get start :: reports)) with (S (gets reports)).
  rewrite Hr. cbn. lia.
Qed.

(** The page loop when every page arrives with its container. *)
Lemma fetch_pages_ok (self : DoubanTop250Scraper) (starts : list Z) :
  delays_accepted self ->
  forall (movies : list Movie) (w : world),
  pages_ok (server w) (gets (log w)) starts = true ->
  fetch_pages self starts movies w
  = (Ok (movies ++ pages_records (server w) (gets (log w)) starts),
     add_log w (pages_events (server w) (gets (log w)) starts)).
Proof.
  intros Hd. induction starts as [|start rest IH]; intros movies w Hok.
  - simpl. unfold ret. now rewrite app_nil_r, add_log_nil.
  - cbn [fetch_pages pages_ok pages_records pages_events] in *.
    unfold bind. rewrite fetch_page_cases.
    destruct (page_error (server w (gets (log w)) start)); [discriminate|].
    rewrite (respectful_delay_ok self _ Hd), add_log_app.
    pose proof (gets_page_log w start _
                  (gets_item_reports (page_items (server w (gets (log w)) start))))
      as Hg.
    fold (page_reports (server w (gets (log w)) start)) in Hg.
    rewrite IH; rewrite Hg, server_add_log; [|exact Hok].
    rewrite add_log_app, <- !app_assoc. reflexivity.
Qed.

(** The page loop when a page fails after pages that arrive in order. *)
Lemma fetch_pages_fail (self : DoubanTop250Scraper) (pre : list Z) :
  delays_accepted self ->
  forall (s : Z) (post : list Z) (e : exn) (movies : list Movie) (w : world),
  pages_ok (server w) (gets (log w)) pre = true ->
  page_error (server w (gets (log w) + List.length pre) s) = Some e ->
  fetch_pages self (pre ++ s :: post) movies w
  = (Raise e,
     add_log w (pages_events (server w) (gets (log w)) pre ++ [Get s])).
Proof.
  intros Hd. induction pre as [|start pre IH]; intros s post e movies w Hok Herr.
  - cbn [app fetch_pages pages_events]. unfold bind. rewrite fetch_page_cases.
    simpl in Herr. rewrite Nat.add_0_r in Herr. now rewrite Herr.
  - cbn [app fetch_pages pages_ok pages_events] in *.
    unfold bind. rewrite fetch_page_cases.
    destruct (page_error (server w (gets (log w)) start)); [discriminate|].
    rewrite (respectful_delay_ok self _ Hd), add_log_app.
    pose proof (gets_page_log w start _
                  (gets_item_reports (page_items (server w (gets (log w)) start))))
      as Hg.
    fold (page_reports (server w (gets (log w)) start)) in Hg.
    rewrite (IH s post e); rewrite ?Hg, ?server_add_log.
    + rewrite add_log_app, <- !app_assoc. reflexivity.
    + exact Hok.
    + cbn [List.length] in Herr.
      now replace (S (gets (log w)) + List.length pre)%nat
        with (gets (log w) + S (List.length pre))%nat by lia.
Qed.

Lemma fetch_movies_pass (self : DoubanTop250Scraper) (force_refresh : bool)
    (w : world) :
  no_cache_hit self force_refresh w = true ->
  fetch_movies self force_refresh w =
  (do movies <- fetch_pages self offsets [];
   do_ (if use_cache self then _write_cache self movies else ret tt);
   ret movies) w.
Proof.
  unfold no_cache_hit, fetch_movies, offsets. intros Hmiss.
  unfold bind at 1. unfold get_world at 1.
  apply negb_true_iff in Hmiss. now rewrite Hmiss.
Qed.

Lemma write_cache_writable (self : DoubanTop250Scraper) (movies : list Movie)
    (w : world) :
  writable (fs w) (cache_path self) = true ->
  storable movies = true ->
  _write_cache self movies w
  = (Ok tt, with_fs w (<[cache_path self := Fs.File (cache_text movies)]> (fs w))).
Proof.
  unfold writable. intros Hw Hs.
  destruct (cache_path self) as [|c p] eqn:Ep; [discriminate|].
  apply andb_true_iff in Hw as [Hpar Hself]. apply negb_true_iff in Hself.
  unfold _write_cache, bind, get_world, lift, put_fs. rewrite Ep.
  rewrite (dumps_storable movies Hs). cbn [fst snd].
  unfold storable in Hs. apply andb_true_iff in Hs as [_ Henc].
  rewrite (FsWriteFacts.write_text_ok (fs w) (c :: p) (cache_text movies));
    [reflexivity|discriminate|exact Hpar|exact Hself|exact Henc].
Qed.

(** A write to a path that cannot be opened raises and changes
    nothing. *)
Lemma write_cache_closed (self : DoubanTop250Scraper) (movies : list Movie)
    (w : world) :
  writable (fs w) (cache_path self) = false ->
  ints_within_limit (JList (map asdict movies)) = true ->
  exists e,
    _write_cache self movies w = (Raise e, w)
    /\ (e = FileNotFoundError \/ e = NotADirectoryError
        \/ e = IsADirectoryError).
Proof.
  intros Hw Hi.
  assert (Hopen : exists e, Fs.open_w (fs w) (cache_path self) = Raise e
            /\ (e = FileNotFoundError \/ e = NotADirectoryError
                \/ e = IsADirectoryError)).
  { unfold writable in Hw. unfold Fs.open_w.
    destruct (cache_path self) as [|c p] eqn:Ep; [eexists; eauto|].
    rewrite <- Ep in *. unfold Fs.is_dir in Hw.
    destruct (Fs.stat (fs w) (Fs.parent (cache_path self)))
      as [[|content]|].
    - assert (Hd : fs w !! cache_path self = Some Fs.Dir).
      { unfold Fs.stat in Hw. rewrite Ep in Hw. rewrite Ep.
        destruct (fs w !! (c :: p)) as [[|content]|]; try discriminate.
        reflexivity. }
      rewrite Hd. eexists; eauto.
    - eexists; eauto.
    - unfold Fs.absent. destruct (existsb _ _); eexists; eauto. }
  destruct Hopen as (e & Eo & He). exists e. split; [|exact He].
  unfold _write_cache, bind, get_world, lift, put_fs, dumps.
  rewrite Hi. rewrite (FsWriteFacts.write_text_closed _ _ _ _ Eo).
  cbn [fst snd]. now destruct w.
Qed.

End PassFacts.

Section PassFacts2.
Context `{Interp}.
Import Py Bs4.
Local Open Scope Z_scope.

Lemma item_records_reports_length (lis : list node) :
  (List.length (item_records lis) + List.length (item_reports lis)
   = List.length lis)%nat.
Proof.
  induction lis as [|li rest IH]; [reflexivity|].
  simpl. destruct (_parse_movie li); simpl; lia.
Qed.

Lemma add_log_with_fs (w : world) (f : Fs.files) (evs : list event) :
  add_log (with_fs w f) evs = with_fs (add_log w evs) f.
Proof. reflexivity. Qed.

Lemma fetch_page_with_fs (self : DoubanTop250Scraper) (start : Z) (w : world)
    (f : Fs.files) :
  _fetch_page self start (with_fs w f)
  = (fst (_fetch_page self start w), with_fs (snd (_fetch_page self start w)) f).
Proof.
  rewrite !fetch_page_cases. cbn [server log with_fs].
  destruct (page_error (server w (gets (log w)) start)); reflexivity.
Qed.

Lemma respectful_delay_with_fs (self : DoubanTop250Scraper) (w : world)
    (f : Fs.files) :
  _respectful_delay self (with_fs w f)
  = (fst (_respectful_delay self w),
     with_fs (snd (_respectful_delay self w)) f).
Proof.
  unfold _respectful_delay, bind, get_world. cbn [log with_fs].
  destruct (sleep_error _); reflexivity.
Qed.

(** The page loop does not look at the files. *)
Lemma fetch_pages_with_fs (self : DoubanTop250Scraper) (starts : list Z) :
  forall (movies : list Movie) (w : world) (f : Fs.files),
  fetch_pages self starts movies (with_fs w f)
  = (fst (fetch_pages self starts movies w),
     with_fs (snd (fetch_pages self starts movies w)) f).
Proof.
  induction starts as [|start rest IH]; intros movies w f; [reflexivity|].
  cbn [fetch_pages]. unfold bind. rewrite fetch_page_with_fs.
  destruct (_fetch_page self start w) as [[pm|e] w1]; [|reflexivity].
  cbn [fst snd]. rewrite respectful_delay_with_fs.
  destruct (_respectful_delay self w1) as [[[]|e] w2]; [|reflexivity].
  cbn [fst snd]. apply IH.
Qed.

Lemma gets_pages_events (srv : nat -> Z -> response) (starts : list Z) :
  forall n, List.filter is_net (pages_events srv n starts)
            = flat_map (fun s => [Get s; Sleep]) starts.
Proof.
  induction starts as [|start rest IH]; intros n; [reflexivity|].
  cbn [pages_events flat_map]. cbn [List.filter is_net is_get is_sleep orb].
  rewrite List.filter_app. cbn [List.filter is_net is_get is_sleep orb].
  rewrite IH.
  assert (Hr : List.filter is_net (page_reports (srv n start)) = []).
  { unfold page_reports. induction (page_items (srv n start)) as [|li lis IHl];
      [reflexivity|].
    simpl. destruct (_parse_movie li); [exact IHl|exact IHl]. }
  rewrite Hr. reflexivity.
Qed.

(** A pass with no cache hit, all pages in order and caching enabled. *)
Lemma full_pass_facts (self : DoubanTop250Scraper) (force_refresh : bool)
    (w : world) :
  delays_accepted self ->
  no_cache_hit self force_refresh w = true ->
  pages_ok (server w) (gets (log w)) offsets = true ->
  writable (fs w) (cache_path self) = true ->
  storable (pages_records (server w) (gets (log w)) offsets) = true ->
  use_cache self = true ->
  fetch_movies self force_refresh w =
  (Ok (pages_records (server w) (gets (log w)) offsets),
   {| fs := <[cache_path self :=
               Fs.File (cache_text (pages_records (server w) (gets (log w)) offsets))]>
              (fs w);
      server := server w;
      log := log w ++ pages_events (server w) (gets (log w)) offsets |}).
Proof.
  intros Hd Hmiss Hok Hw Hs Huse. rewrite (fetch_movies_pass _ _ _ Hmiss).
  unfold bind. rewrite (fetch_pages_ok self offsets Hd [] w Hok).
  cbn [app]. rewrite Huse.
  rewrite write_cache_writable by assumption. reflexivity.
Qed.

Lemma writable_snoc (f : Fs.files) (p : Fs.path) (c : string) :
  writable f (p ++ [c]) = Fs.is_dir f p && negb (Fs.is_dir f (p ++ [c])).
Proof.
  unfold writable.
  destruct (p ++ [c]) as [|x l] eqn:Ep; [now apply FsFacts.snoc_not_nil in Ep|].
  rewrite <- Ep. now rewrite FsFacts.parent_snoc.
Qed.

End PassFacts2.

(** * More facts about the file system *)

Module FsFacts2.
Import Fs FsSpec FsFacts.

Lemma wf_parent_dir (fs : files) (p : path) (c : string) (e : entry) :
  wf fs -> fs !! (p ++ [c]) = Some e -> is_dir fs p = true.
Proof.
  intros Hwf He. apply Hwf in He; [|apply snoc_not_nil].
  now rewrite parent_snoc in He.
Qed.


Lemma is_dir_not_nil_lookup (fs : files) (p : path) (c : string) :
  is_dir fs (p ++ [c]) = true -> fs !! (p ++ [c]) = Some Dir.
Proof.
  unfold is_dir. rewrite stat_snoc.
  destruct (fs !! (p ++ [c])) as [[|]|]; congruence.
Qed.

(** Making a directory that is there already changes nothing. *)
Lemma mkdir_parents_rev_present (rp : list string) (fs : files) :
  wf fs -> is_dir fs (rev rp) = true -> mkdir_parents_rev rp fs = Ok fs.
Proof.
  intros Hwf Hd. destruct rp as [|c rp]; [reflexivity|].
  simpl mkdir_parents_rev. simpl rev in *. unfold os_mkdir.
  pose proof (is_dir_not_nil_lookup fs (rev rp) c Hd) as Hl.
  pose proof (wf_parent_dir fs (rev rp) c Dir Hwf Hl) as Hpar.
  destruct (rev rp ++ [c]) as [|x l] eqn:Ep; [now apply snoc_not_nil in Ep|].
  rewrite <- Ep in *. clear x l Ep. rewrite parent_snoc.
  unfold is_dir in Hpar.
  destruct (stat fs (rev rp)) as [[|content]|]; try discriminate.
  rewrite !Hl. now rewrite Hd.
Qed.

(** What [mkdir_parents_rev] achieves and what it leaves alone. *)
Lemma mkdir_parents_rev_frame (rp : list string) (fs : files) :
  wf fs -> no_file_on fs (rev rp) ->
  exists fs', mkdir_parents_rev rp fs = Ok fs'
    /\ wf fs' /\ is_dir fs' (rev rp) = true
    /\ (forall q e, stat fs q = Some e -> stat fs' q = Some e)
    /\ (forall q, ~ q `prefix_of` rev rp -> stat fs' q = stat fs q).
Proof.
  revert fs. induction rp as [|c rp IH]; intros fs Hwf Hno.
  - exists fs. simpl. auto.
  - simpl mkdir_parents_rev. simpl rev in *.
    assert (Hins : forall g : files,
      wf g -> is_dir g (rev rp) = true -> g !! (rev rp ++ [c]) = None ->
      wf (<[rev rp ++ [c] := Dir]> g)
      /\ is_dir (<[rev rp ++ [c] := Dir]> g) (rev rp ++ [c]) = true
      /\ (forall q e, stat g q = Some e ->
            stat (<[rev rp ++ [c] := Dir]> g) q = Some e)
      /\ (forall q, ~ q `prefix_of` rev rp ++ [c] ->
            stat (<[rev rp ++ [c] := Dir]> g) q = stat g q)).
    { intros g Hg Hpar Hnone. split; [|split; [|split]].
      - apply wf_insert_dir; auto using snoc_not_nil. now rewrite parent_snoc.
      - unfold is_dir. rewrite stat_insert_eq; auto using snoc_not_nil.
      - intros q e Hq. destruct (decide (rev rp ++ [c] = q)) as [<-|Hne].
        + rewrite stat_snoc, Hnone in Hq. discriminate.
        + rewrite stat_insert_ne; auto.
      - intros q Hq. apply stat_insert_ne. intros <-. now apply Hq. }
    unfold os_mkdir.
    destruct (rev rp ++ [c]) as [|x l] eqn:Ep; [now apply snoc_not_nil in Ep|].
    rewrite <- Ep in *. clear x l Ep.
    rewrite parent_snoc.
    destruct (stat fs (rev rp)) as [[|content]|] eqn:Epar.
    + destruct (fs !! (rev rp ++ [c])) as [[|content]|] eqn:Eself.
      * exists fs. unfold is_dir. rewrite stat_snoc, !Eself. auto.
      * exfalso. apply (Hno (rev rp ++ [c]) content); [reflexivity|].
        now rewrite stat_snoc.
      * exists (<[rev rp ++ [c] := Dir]> fs). rewrite ?Eself.
        split; [reflexivity|]. apply Hins; auto.
        unfold is_dir. now rewrite Epar.
    + exfalso. apply (Hno (rev rp) content); [|assumption]. now exists [c].
    + rewrite (absent_no_file fs _ (rev rp) Hno) by now exists [c].
      destruct (IH fs Hwf) as (fs1 & E1 & Hwf1 & Hd1 & Hkeep1 & Hframe1).
      { intros q d [k Hk] Hq. apply (Hno q d); [|assumption].
        exists (k ++ [c]). rewrite Hk. now rewrite app_assoc. }
      rewrite E1. simpl rbind. unfold mkdir_exist_ok, os_mkdir.
      destruct (rev rp ++ [c]) as [|x l] eqn:Ep; [now apply snoc_not_nil in Ep|].
      rewrite <- Ep in *. clear x l Ep.
      rewrite parent_snoc.
      pose proof Hd1 as Hd1'. unfold is_dir in Hd1'.
      destruct (stat fs1 (rev rp)) as [[|content]|] eqn:Epar1; try discriminate.
      assert (Hself : fs !! (rev rp ++ [c]) = None).
      { destruct (fs !! (rev rp ++ [c])) as [e|] eqn:E; [|reflexivity].
        apply (wf_parent_dir fs (rev rp) c e Hwf) in E.
        unfold is_dir in E. rewrite Epar in E. discriminate. }
      assert (Hself1 : fs1 !! (rev rp ++ [c]) = None).
      { rewrite <- stat_snoc, Hframe1, stat_snoc; [exact Hself|].
        intros [k Hk]. apply (f_equal (@List.length string)) in Hk.
        rewrite !length_app in Hk. simpl in Hk. lia. }
      rewrite !Hself1.
      exists (<[rev rp ++ [c] := Dir]> fs1). split; [reflexivity|].
      destruct (Hins fs1 Hwf1 Hd1 Hself1) as (H1 & H2 & H3 & H4).
      split; [exact H1|]. split; [exact H2|]. split.
      * intros q e Hq. apply H3. now apply Hkeep1.
      * intros q Hq. rewrite H4 by exact Hq. apply Hframe1.
        intros [k Hk]. apply Hq. exists (k ++ [c]).
        rewrite Hk. now rewrite app_assoc.
Qed.




End FsFacts2.

(** * The people named in the info text *)

Section PeopleFacts.
Context `{Interp}.
Import Py Bs4 TextSpec TextFacts TextFacts2 InfoText.

Lemma director_mark_not_nil : director_mark <> [].
Proof. vm_compute. discriminate. Qed.

Lemma cast_mark_not_nil : cast_mark <> [].
Proof. vm_compute. discriminate. Qed.

Lemma first_at_absent (mark pre : str) :
  mark <> [] -> first_at mark pre = true -> contains mark pre = false.
Proof.
  intros Hm. unfold first_at. rewrite negb_true_iff. intros Hf.
  destruct (contains mark pre) eqn:Ec; [|reflexivity].
  rewrite removelast_app in Hf by exact Hm.
  now rewrite (contains_weaken mark pre (removelast mark) Ec) in Hf.
Qed.

Lemma slice_slash_parts_shape (n : nat) (s : str) :
  Forall (fun p => p <> [] /\ trimmed p /\ free_of 47%N p)
    (slice_to n (slash_parts s)).
Proof.
  apply List.Forall_forall. intros p Hp.
  pose proof (slash_parts_shape s) as Hs. rewrite List.Forall_forall in Hs.
  apply Hs. unfold slice_to in Hp.
  rewrite <- (firstn_skipn n (slash_parts s)). apply in_or_app. now left.
Qed.

Lemma parse_directors_cases (li : node) :
  parse_directors li = [] \/
  exists s, parse_directors li = slice_to 3 (slash_parts s).
Proof.
  unfold parse_directors.
  destruct (find (u "p") None li) as [info|]; [|now left]. cbv zeta.
  destruct (contains (u "导演:") (get_text [] info)); [|now left].
  match goal with |- context [split (u "导演:") ?t] => generalize t end.
  intros part. destruct (contains (u "导演:") part); [|now left].
  destruct (split (u "导演:") part) as [|p0 [|p1 ps]]; [now left|now left|].
  right. now eexists.
Qed.

Lemma parse_actors_cases (li : node) :
  parse_actors li = [] \/
  exists s, parse_actors li = slice_to 5 (slash_parts s).
Proof.
  unfold parse_actors.
  destruct (find (u "p") None li) as [info|]; [|now left]. cbv zeta.
  destruct (contains (u "主演:") (get_text [] info)); [|now left].
  destruct (split (u "主演:") (get_text [] info)) as [|p0 [|p1 ps]];
    [now left|now left|].
  right. now eexists.
Qed.

Lemma directors_of_text (li info : node) (pre ds : str) (cast : option str) :
  find (u "p") None li = Some info ->
  get_text [] info = pre ++ director_mark ++ ds ++ cast_text cast ->
  first_at director_mark pre = true ->
  contains director_mark ds = false ->
  first_at cast_mark (pre ++ director_mark ++ ds) = true ->
  parse_directors li = slice_to 3 (slash_parts (strip ds)).
Proof.
  intros Hfind Htext Hd Hds Hc. unfold parse_directors.
  rewrite Hfind. cbv zeta. fold director_mark cast_mark. rewrite Htext.
  rewrite (contains_after director_mark pre (ds ++ cast_text cast)).
  assert (Hpart :
    (if contains cast_mark (pre ++ director_mark ++ ds ++ cast_text cast)
     then hd [] (split cast_mark (pre ++ director_mark ++ ds ++ cast_text cast))
     else pre ++ director_mark ++ ds ++ cast_text cast)
    = pre ++ director_mark ++ ds).
  { destruct cast as [names|]; unfold cast_text.
    - replace (pre ++ director_mark ++ ds ++ cast_mark ++ names)
        with ((pre ++ director_mark ++ ds) ++ cast_mark ++ names)
        by now rewrite <- !app_assoc.
      rewrite contains_after.
      now rewrite (split_first _ _ _ cast_mark_not_nil Hc).
    - rewrite app_nil_r.
      now rewrite (first_at_absent _ _ cast_mark_not_nil Hc). }
  rewrite Hpart. rewrite (contains_after director_mark pre ds).
  rewrite (split_first _ _ _ director_mark_not_nil Hd).
  now rewrite (split_absent _ _ Hds).
Qed.

Lemma actors_of_text (li info : node) (pre names : str) :
  find (u "p") None li = Some info ->
  get_text [] info = pre ++ cast_mark ++ names ->
  first_at cast_mark pre = true ->
  contains cast_mark names = false ->
  contains (u "<br") names = false ->
  parse_actors li = slice_to 5 (slash_parts names).
Proof.
  intros Hfind Htext Hc Hn Hbr. unfold parse_actors.
  rewrite Hfind. cbv zeta. fold cast_mark. rewrite Htext.
  rewrite contains_after.
  rewrite (split_first _ _ _ cast_mark_not_nil Hc).
  rewrite (split_absent _ _ Hn). now rewrite Hbr.
Qed.

Lemma actors_without_mark (li info : node) :
  find (u "p") None li = Some info ->
  contains cast_mark (get_text [] info) = false ->
  parse_actors li = [].
Proof.
  intros Hfind Hc. unfold parse_actors. rewrite Hfind. cbv zeta.
  fold cast_mark. now rewrite Hc.
Qed.

(** The text of a block of two strings with an empty element between
    them. *)
Lemma get_text_two_lines (nm : str) (cls : list str) (attrs : list (str * str))
    (a b : str) (brn : str) (brc : list str) (bra : list (str * str)) :
  get_text [] (Tag nm cls attrs [Text a; Tag brn brc bra []; Text b])
  = strip a ++ strip b.
Proof.
  unfold get_text, stripped_strings. cbn -[strip join str_eqb].
  destruct (strip a) as [|x sa]; destruct (strip b) as [|y sb];
    cbn [str_eqb negb join app]; rewrite ?app_nil_r; reflexivity.
Qed.

End PeopleFacts.

(** * The sign of the numbers read from digit characters *)

Section VoteFacts.
Context `{Interp}.
Import Py Bs4.

Lemma int_scan_nonneg (s : str) (prev_us : bool) (acc n : Z) (rest : str) :
  (0 <= acc)%Z -> int_scan s prev_us acc = Some (n, rest) -> (0 <= n)%Z.
Proof.
  revert prev_us acc. induction s as [|c r IH]; intros prev_us acc Hacc.
  - simpl. destruct prev_us; [discriminate|]. now intros [= <- _].
  - simpl. destruct (ascii_digit c).
    + apply IH. lia.
    + destruct (c =? 95)%N.
      * destruct prev_us; [discriminate|]. now apply IH.
      * destruct prev_us; [discriminate|]. now intros [= <- _].
Qed.

Lemma lstrip_by_incl (p : char -> bool) (s : str) (x : char) :
  In x (lstrip_by p s) -> In x s.
Proof.
  induction s as [|c r IH]; [auto|]. simpl.
  destruct (p c); [|auto]. intros Hx. right. now apply IH.
Qed.

Lemma isdigit_int_ascii (c : char) :
  isdigit c = true -> int_ascii c <> 43%N /\ int_ascii c <> 45%N.
Proof.
  unfold isdigit, int_ascii. destruct (c <? 128)%N.
  - intros Hd. apply ascii_digit_range in Hd. lia.
  - intros _. destruct (isspace c); [lia|].
    destruct (uni_decimal c); lia.
Qed.

Lemma py_int_unsigned (s : str) (n : Z) :
  Forall (fun c => int_ascii c <> 43%N /\ int_ascii c <> 45%N) s ->
  py_int s = Some n -> (0 <= n)%Z.
Proof.
  intros Hs. unfold py_int.
  destruct (lstrip_by int_isspace (map int_ascii s)) as [|c r] eqn:E;
    [discriminate|].
  assert (Hc : c <> 43%N /\ c <> 45%N).
  { assert (Hin : In c (map int_ascii s)).
    { apply (lstrip_by_incl int_isspace). rewrite E. now left. }
    apply in_map_iff in Hin as (c0 & <- & Hin0).
    rewrite List.Forall_forall in Hs. now apply Hs. }
  destruct Hc as [H43 H45].
  apply N.eqb_neq in H43. apply N.eqb_neq in H45. rewrite H43, H45.
  destruct (ascii_digit c); [|discriminate].
  destruct (int_scan (c :: r) false 0) as [[n' rest]|] eqn:Es; [|discriminate].
  destruct (lstrip_by int_isspace rest); [|discriminate].
  destruct (within_limit _); [|discriminate].
  intros [= <-]. now apply (int_scan_nonneg _ _ _ _ _ (Z.le_refl 0) Es).
Qed.

Lemma extract_vote_count_nonneg (value : str) (n : Z) :
  _extract_vote_count value = Ok n -> (0 <= n)%Z.
Proof.
  unfold _extract_vote_count.
  destruct (List.filter isdigit value) as [|c r] eqn:E.
  - intros [= <-]. lia.
  - destruct (py_int (c :: r)) as [v|] eqn:Ev; [|discriminate].
    simpl. intros [= <-]. apply (py_int_unsigned (c :: r)); [|exact Ev].
    rewrite <- E. apply List.Forall_forall. intros x Hx.
    apply filter_In in Hx as [_ Hx]. now apply isdigit_int_ascii.
Qed.

Lemma parse_votes_nonneg (li : node) (n : Z) :
  parse_votes li = Ok n -> (0 <= n)%Z.
Proof.
  unfold parse_votes.
  assert (Hbd : forall v, votes_from_bd li = Ok v -> (0 <= v)%Z).
  { unfold votes_from_bd. intros v.
    destruct (find (u "div") (Some (u "bd")) li) as [d|]; [|intros [= <-]; lia].
    destruct (List.find is_vote_text _) as [t|]; [|intros [= <-]; lia].
    apply extract_vote_count_nonneg. }
  assert (Hstar : forall v, votes_from_star li = Ok v -> (0 <= v)%Z).
  { unfold votes_from_star. intros v.
    destruct (find (u "div") (Some (u "star")) li) as [d|]; [|intros [= <-]; lia].
    destruct (last_item _) as [t|]; [|intros [= <-]; lia].
    apply extract_vote_count_nonneg. }
  destruct (votes_from_bd li) as [v|e]; [|discriminate].
  cbn [rbind]. destruct (v =? 0)%Z.
  - apply Hstar.
  - intros [= <-]. now apply Hbd.
Qed.

(** Nothing is found in a fragment whose descendants are all strings. *)
Lemma find_all_no_tags (name : str) (class_ : option str) (n : node) :
  forallb InfoText.is_text (descendants n) = true ->
  find_all name class_ n = [].
Proof.
  unfold find_all. induction (descendants n) as [|d ds IH]; [reflexivity|].
  simpl. rewrite andb_true_iff. intros [Hd Hds].
  destruct d; [|discriminate]. simpl. now apply IH.
Qed.

Lemma find_no_tags (name : str) (class_ : option str) (n : node) :
  forallb InfoText.is_text (descendants n) = true ->
  find name class_ n = None.
Proof. intros Hn. unfold find. now rewrite find_all_no_tags. Qed.

End VoteFacts.

(** * Reading stored records *)

Section StoredFacts.
Context `{Interp}.
Import Py.

Lemma dict_get_app (k : str) (d1 d2 : list (str * json)) :
  dict_get k (d1 ++ d2)
  = match dict_get k d1 with
    | Some v => Some v
    | None => dict_get k d2
    end.
Proof.
  unfold dict_get. induction d1 as [|kv d1 IH]; [reflexivity|].
  simpl. destruct (str_eqb (fst kv) k); [reflexivity|exact IH].
Qed.

Lemma dict_get_cons (k k' : str) (v : json) (d : list (str * json)) :
  dict_get k ((k', v) :: d) = if str_eqb k' k then Some v else dict_get k d.
Proof. unfold dict_get. simpl. now destruct (str_eqb k' k). Qed.

Lemma dict_get_nil (k : str) : dict_get k [] = None.
Proof. reflexivity. Qed.

End StoredFacts.

(** * Further properties of the orchestrator *)

Section PassProperties.
Context `{Interp}.
Import Py Bs4.
Local Open Scope Z_scope.

(** X1: what [_fetch_page] does, case by case on the answer to its request.
    A connection failure, an error status or a missing container leaves
    with that exception after the one request.  Otherwise the page returns
    the records of the items whose extraction returns, in document order,
    and reports each of the others once, so that every item is either
    returned or reported.  The files are never touched. *)
Theorem page_fetch_outcome (self : DoubanTop250Scraper) (start : Z) (w : world) :
  let r := server w (gets (log w)) start in
  _fetch_page self start w =
    match page_error r with
    | Some e => (Raise e, add_log w [Get start])
    | None => (Ok (page_records r), add_log w (Get start :: page_reports r))
    end
  /\ fs (snd (_fetch_page self start w)) = fs w
  /\ (List.length (page_records r) + List.length (page_reports r)
      = List.length (page_items r))%nat.
Proof.
  cbv zeta. split; [apply fetch_page_cases|]. split.
  - rewrite fetch_page_cases.
    destruct (page_error (server w (gets (log w)) start)); reflexivity.
  - apply item_records_reports_length.
Qed.

(** X2: a pass with no cache hit in which all ten pages arrive with their
    containers and every delay drawn is accepted by the sleep returns the
    records of the pages, page after page in offset order and in document
    order within a page.  With caching enabled, the cache file writable
    and the records storable (integers within the conversion limit, text
    that can be encoded), the cache file holds the text of exactly those
    records afterwards; with caching disabled the files are as they
    were. *)
Theorem full_pass_outcome (self : DoubanTop250Scraper) (force_refresh : bool)
    (w : world) :
  delays_accepted self ->
  no_cache_hit self force_refresh w = true ->
  pages_ok (server w) (gets (log w)) offsets = true ->
  (use_cache self = true ->
   writable (fs w) (cache_path self) = true
   /\ storable (pages_records (server w) (gets (log w)) offsets) = true) ->
  let records := pages_records (server w) (gets (log w)) offsets in
  fetch_movies self force_refresh w =
  (Ok records,
   {| fs := if use_cache self
            then <[cache_path self := Fs.File (cache_text records)]> (fs w)
            else fs w;
      server := server w;
      log := log w ++ pages_events (server w) (gets (log w)) offsets |}).
Proof.
  intros Hd Hmiss Hok Hw records. rewrite (fetch_movies_pass _ _ _ Hmiss).
  unfold bind. rewrite (fetch_pages_ok self offsets Hd [] w Hok).
  cbn [app]. fold records.
  destruct (use_cache self) eqn:Euse.
  - destruct (Hw eq_refl) as [Hwr Hs].
    rewrite write_cache_writable by (cbn [fs add_log]; assumption).
    reflexivity.
  - reflexivity.
Qed.

(** X3: after such a pass with caching enabled, the ratings of the
    records being floats that their text gives back, fetching again
    without a forced refresh returns the same records from the cache and
    makes no request, whatever the server would answer now. *)
Theorem refetch_after_pass (self : DoubanTop250Scraper) (force_refresh : bool)
    (w : world) :
  delays_accepted self ->
  use_cache self = true ->
  no_cache_hit self force_refresh w = true ->
  pages_ok (server w) (gets (log w)) offsets = true ->
  writable (fs w) (cache_path self) = true ->
  storable (pages_records (server w) (gets (log w)) offsets) = true ->
  Forall (fun m => float_reads_back (rating m))
    (pages_records (server w) (gets (log w)) offsets) ->
  let records := pages_records (server w) (gets (log w)) offsets in
  let w1 := snd (fetch_movies self force_refresh w) in
  fst (fetch_movies self force_refresh w) = Ok records
  /\ forall srv,
       fetch_movies self false {| fs := fs w1; server := srv; log := log w1 |}
       = (Ok records, {| fs := fs w1; server := srv; log := log w1 |}).
Proof.
  intros Hd Huse Hmiss Hok Hw Hs Hf records w1. subst w1.
  assert (Hp : cache_path self <> []).
  { unfold writable in Hw. destruct (cache_path self); [discriminate|discriminate]. }
  pose proof (full_pass_facts self force_refresh w Hd Hmiss Hok Hw Hs Huse) as E.
  fold records in E. rewrite E. cbn [fst snd fs log].
  split; [reflexivity|]. intros srv.
  unfold fetch_movies. unfold bind at 1. unfold get_world at 1.
  rewrite Huse. cbn [andb negb fs].
  assert (Hex : Fs.exists_ (<[cache_path self := Fs.File (cache_text records)]> (fs w))
                  (cache_path self) = true).
  { unfold Fs.exists_. now rewrite FsFacts.stat_insert_eq. }
  pose proof (storable_reads_back records Hs Hf) as Hrb.
  rewrite Hex. rewrite load_from_cache_unfold. cbn [fs].
  rewrite (FsWriteFacts.read_text_insert _ _ _ Hp (cache_text_free _ Hrb)).
  cbn [rbind]. now rewrite (records_roundtrip records Hrb).
Qed.

(** X4: when a page of a pass fails (connection failure, error status or
    missing container) after pages that arrived in order, each followed by
    a delay that the sleep accepted, the pass raises that page's
    exception, makes no request after the failing one, does not sleep
    after it, and leaves the files as they were. *)
Theorem failing_page_ends_pass (self : DoubanTop250Scraper)
    (force_refresh : bool) (w : world) (pre : list Z) (s : Z) (post : list Z)
    (e : exn) :
  delays_accepted self ->
  no_cache_hit self force_refresh w = true ->
  offsets = pre ++ s :: post ->
  pages_ok (server w) (gets (log w)) pre = true ->
  page_error (server w (gets (log w) + List.length pre) s) = Some e ->
  fetch_movies self force_refresh w
    = (Raise e,
       add_log w (pages_events (server w) (gets (log w)) pre ++ [Get s]))
  /\ List.filter is_net
       (pages_events (server w) (gets (log w)) pre ++ [Get s])
     = flat_map (fun s' => [Get s'; Sleep]) pre ++ [Get s].
Proof.
  intros Hd Hmiss Hoff Hok Herr.
  rewrite (fetch_movies_pass _ _ _ Hmiss), Hoff.
  unfold bind. rewrite (fetch_pages_fail self pre Hd s post e [] w Hok Herr).
  split; [reflexivity|].
  rewrite List.filter_app, gets_pages_events. reflexivity.
Qed.

(** X5: a scraper with caching disabled never reads or writes the files:
    whatever the outcome of a fetch, the files are as they were, and the
    result and the requests made do not depend on what the files hold. *)
Theorem uncached_fetch_ignores_files (self : DoubanTop250Scraper)
    (force_refresh : bool) (w : world) :
  use_cache self = false ->
  fs (snd (fetch_movies self force_refresh w)) = fs w
  /\ forall f,
       fetch_movies self force_refresh (with_fs w f)
       = (fst (fetch_movies self force_refresh w),
          with_fs (snd (fetch_movies self force_refresh w)) f).
Proof.
  intros Huse.
  assert (Hmiss : forall w', no_cache_hit self force_refresh w' = true).
  { intros w'. unfold no_cache_hit. now rewrite Huse. }
  split.
  - rewrite (fetch_movies_pass _ _ _ (Hmiss w)). unfold bind. rewrite Huse.
    destruct (fetch_pages_frame self offsets [] w) as (evs & Hsnd).
    destruct (fetch_pages self offsets [] w) as [[ms|e] w1];
      cbn [snd] in Hsnd; subst w1; reflexivity.
  - intros f. rewrite (fetch_movies_pass _ _ _ (Hmiss w)),
      (fetch_movies_pass _ _ _ (Hmiss (with_fs w f))).
    unfold bind. rewrite Huse, fetch_pages_with_fs.
    destruct (fetch_pages self offsets [] w) as [[ms|e] w1]; reflexivity.
Qed.

(** X18: when the cache file cannot be written at the end of a pass (its
    directory is missing or is a regular file, or a directory sits in its
    place), the records are lost: all ten requests and delays have been
    made (the delays being ones the sleep accepts), the text of the
    records has been produced (their integers being within the conversion
    limit), and [fetch_movies] raises the error of the write, returns no
    record and leaves the files as they were. *)
Theorem unwritable_cache_loses_pass (self : DoubanTop250Scraper)
    (force_refresh : bool) (w : world) :
  delays_accepted self ->
  use_cache self = true ->
  no_cache_hit self force_refresh w = true ->
  pages_ok (server w) (gets (log w)) offsets = true ->
  ints_within_limit
    (JList (map asdict (pages_records (server w) (gets (log w)) offsets)))
    = true ->
  writable (fs w) (cache_path self) = false ->
  exists e,
    fetch_movies self force_refresh w
    = (Raise e, add_log w (pages_events (server w) (gets (log w)) offsets))
    /\ (e = FileNotFoundError \/ e = NotADirectoryError
        \/ e = IsADirectoryError)
    /\ List.filter is_net (pages_events (server w) (gets (log w)) offsets)
       = flat_map (fun s => [Get s; Sleep]) offsets.
Proof.
  intros Hd Huse Hmiss Hok Hi Hw. rewrite (fetch_movies_pass _ _ _ Hmiss).
  unfold bind at 1. rewrite (fetch_pages_ok self offsets Hd [] w Hok).
  cbn [app]. rewrite Huse.
  pose proof (gets_pages_events (server w) offsets (gets (log w))) as Hreq.
  destruct (write_cache_closed self
              (pages_records (server w) (gets (log w)) offsets)
              (add_log w (pages_events (server w) (gets (log w)) offsets))
              Hw Hi) as (e & E & He).
  exists e. unfold bind. rewrite E. auto.
Qed.

End PassProperties.

(** * The constructor and the cache directory *)

Section InitProperties.
Context `{Interp}.
Import Py.

(** X6: for a cache directory and a file name made of plain entry names,
    constructing a scraper only adds directories on the way to the cache
    directory: every entry that existed is still there with the same
    contents, every path that is not a prefix of the cache directory is as
    it was, and neither the record of requests nor the server is touched;
    the cache path is the directory with the file name as one more
    component. *)
Theorem init_only_adds_directories (cache_dir : Fs.path)
    (cache_filename : string) (caching : bool) (min_delay max_delay : float)
    (w : world) :
  FsSpec.plain_path cache_dir = true ->
  FsSpec.plain_name cache_filename = true ->
  FsSpec.wf (fs w) ->
  FsSpec.no_file_on (fs w) cache_dir ->
  exists self w',
    __init__ cache_dir cache_filename caching min_delay max_delay w
      = (Ok self, w')
    /\ cache_path self = cache_dir ++ [cache_filename]
    /\ (forall q e, Fs.stat (fs w) q = Some e -> Fs.stat (fs w') q = Some e)
    /\ (forall q, ~ q `prefix_of` cache_dir ->
          Fs.stat (fs w') q = Fs.stat (fs w) q)
    /\ FsSpec.wf (fs w')
    /\ log w' = log w.
Proof.
  intros _ _ Hwf Hno. unfold __init__, bind, get_world, lift, Fs.mkdir_parents.
  destruct (FsFacts2.mkdir_parents_rev_frame (rev cache_dir) (fs w) Hwf)
    as (fs' & E & Hwf' & _ & Hkeep & Hframe).
  { now rewrite rev_involutive. }
  rewrite E. simpl. eexists _, _. split; [reflexivity|]. simpl.
  rewrite rev_involutive in Hframe. auto.
Qed.

(** X7: when the cache directory exists already, constructing a scraper
    changes nothing at all; so constructing a second scraper with the same
    directory after a first one leaves the world of the first. *)
Theorem init_existing_directory (cache_dir : Fs.path)
    (cache_filename : string) (caching : bool) (min_delay max_delay : float)
    (w : world) :
  FsSpec.wf (fs w) ->
  Fs.is_dir (fs w) cache_dir = true ->
  snd (__init__ cache_dir cache_filename caching min_delay max_delay w) = w
  /\ exists self,
       fst (__init__ cache_dir cache_filename caching min_delay max_delay w)
       = Ok self.
Proof.
  intros Hwf Hd. unfold __init__, bind, get_world, lift, Fs.mkdir_parents.
  rewrite (FsFacts2.mkdir_parents_rev_present (rev cache_dir) (fs w) Hwf)
    by now rewrite rev_involutive.
  simpl. split; [now destruct w|]. now eexists.
Qed.


(** X9: a scraper just constructed can write its cache and read it back:
    for a cache directory and a file name made of plain entry names, on a
    well-formed file system with no regular file on the way to the cache
    directory and no directory in the place of the cache file, and for
    records that can be stored and whose ratings are floats that their
    text gives back, construction, [_write_cache] and [_load_from_cache]
    all return, and the load gives the records written. *)
Theorem fresh_scraper_cache_roundtrip (cache_dir : Fs.path)
    (cache_filename : string) (caching : bool) (min_delay max_delay : float)
    (w : world) (movies : list Movie) :
  FsSpec.plain_path cache_dir = true ->
  FsSpec.plain_name cache_filename = true ->
  storable movies = true ->
  Forall (fun m => float_reads_back (rating m)) movies ->
  FsSpec.wf (fs w) ->
  FsSpec.no_file_on (fs w) cache_dir ->
  Fs.is_dir (fs w) (cache_dir ++ [cache_filename]) = false ->
  exists self w1 w2,
    __init__ cache_dir cache_filename caching min_delay max_delay w
      = (Ok self, w1)
    /\ _write_cache self movies w1 = (Ok tt, w2)
    /\ _load_from_cache self w2 = (Ok movies, w2).
Proof.
  intros _ _ Hs Hf Hwf Hno Hnd.
  unfold __init__, bind, get_world, lift, Fs.mkdir_parents.
  destruct (FsFacts2.mkdir_parents_rev_frame (rev cache_dir) (fs w) Hwf)
    as (fs' & E & Hwf' & Hd & _ & Hframe).
  { now rewrite rev_involutive. }
  rewrite E. simpl. rewrite rev_involutive in Hd, Hframe.
  eexists _, _, _. split; [reflexivity|].
  assert (Hw : writable fs' (cache_dir ++ [cache_filename]) = true).
  { rewrite writable_snoc, Hd. simpl.
    unfold Fs.is_dir in *. rewrite Hframe; [now rewrite Hnd|].
    intros [k' Hk]. apply (f_equal (@List.length string)) in Hk.
    rewrite !length_app in Hk. simpl in Hk. lia. }
  split.
  - rewrite write_cache_writable by assumption. reflexivity.
  - pose proof (storable_reads_back movies Hs Hf) as Hrb.
    rewrite load_from_cache_unfold. cbn [fs with_fs cache_path].
    rewrite (FsWriteFacts.read_text_insert _ _ _
               (FsFacts.snoc_not_nil _ _) (cache_text_free movies Hrb)).
    cbn [rbind]. now rewrite (records_roundtrip movies Hrb).
Qed.

End InitProperties.

(** * Further properties of the field extractor *)

Section ExtractProperties.
Context `{Interp}.
Import Py Bs4 TextSpec TextFacts InfoText.
Local Open Scope Z_scope.

(** X10: whatever the item, the extractor keeps at most three directors
    and at most five actors, and every name it keeps is non-empty, has no
    white space at either end and contains no slash. *)
Theorem people_lists_shape (li : node) :
  (List.length (parse_directors li) <= 3)%nat
  /\ (List.length (parse_actors li) <= 5)%nat
  /\ Forall (fun p => p <> [] /\ trimmed p /\ free_of 47%N p)
       (parse_directors li ++ parse_actors li)
  /\ rmap (fun m => (directors m, actors m)) (_parse_movie li)
     = (let! _ := parse_rank li in
        let! _ := parse_votes li in
        Ok (parse_directors li, parse_actors li)).
Proof.
  split; [|split; [|split]].
  - destruct (parse_directors_cases li) as [->|[s ->]]; [simpl; lia|].
    apply firstn_le_length.
  - destruct (parse_actors_cases li) as [->|[s ->]]; [simpl; lia|].
    apply firstn_le_length.
  - apply Forall_app. split.
    + destruct (parse_directors_cases li) as [->|[s ->]]; [constructor|].
      apply slice_slash_parts_shape.
    + destruct (parse_actors_cases li) as [->|[s ->]]; [constructor|].
      apply slice_slash_parts_shape.
  - rewrite parse_movie_project. reflexivity.
Qed.

(** X11: the people are cut out of the text of the first paragraph, its
    strings joined with nothing between them.  When that text is some
    prefix, the director mark, the director names, and then either nothing
    or the cast mark and the cast names (each mark occurring there for the
    first time, and the names holding neither a mark nor the letters of a
    line-break tag), the directors are the first three slash-separated
    names between the marks and the actors the first five after the cast
    mark, or none without a cast mark. *)
Theorem people_from_info_text (li info : node) (pre ds : str)
    (cast : option str) :
  find (u "p") None li = Some info ->
  get_text [] info = pre ++ director_mark ++ ds ++ cast_text cast ->
  first_at director_mark pre = true ->
  contains director_mark ds = false ->
  first_at cast_mark (pre ++ director_mark ++ ds) = true ->
  cast_clean cast = true ->
  parse_directors li = slice_to 3 (slash_parts (strip ds))
  /\ parse_actors li
     = match cast with
       | Some names => slice_to 5 (slash_parts names)
       | None => []
       end.
Proof.
  intros Hfind Htext Hd Hds Hc Hclean. split.
  - exact (directors_of_text li info pre ds cast Hfind Htext Hd Hds Hc).
  - destruct cast as [names|]; unfold cast_text, cast_clean in *.
    + apply andb_true_iff in Hclean as [Hn Hbr].
      apply negb_true_iff in Hn. apply negb_true_iff in Hbr.
      apply (actors_of_text li info (pre ++ director_mark ++ ds) names);
        auto.
      rewrite Htext. now rewrite <- !app_assoc.
    + apply (actors_without_mark li info Hfind). rewrite Htext, app_nil_r.
      apply (first_at_absent _ _ cast_mark_not_nil Hc).
Qed.

(** X12: a line break inside the first paragraph does not end the cast:
    when the paragraph is a string, an empty element and a second string,
    and the first string ends with the cast mark and names, the actors are
    cut from those names followed at once by the trimmed second string, so
    the last name of the first line is joined to the start of the second
    line and the slash-separated parts of that line count as names. *)
Theorem cast_runs_into_next_line (li : node) (nm : str) (cls : list str)
    (attrs : list (str * str)) (a b brn : str) (brc : list str)
    (bra : list (str * str)) (pre names : str) :
  find (u "p") None li
    = Some (Tag nm cls attrs [Text a; Tag brn brc bra []; Text b]) ->
  strip a = pre ++ cast_mark ++ names ->
  first_at cast_mark pre = true ->
  contains cast_mark (names ++ strip b) = false ->
  contains (u "<br") (names ++ strip b) = false ->
  parse_actors li = slice_to 5 (slash_parts (names ++ strip b)).
Proof.
  intros Hfind Ha Hc Hn Hbr.
  apply (actors_of_text li _ pre (names ++ strip b) Hfind); auto.
  rewrite get_text_two_lines, Ha. now rewrite <- !app_assoc.
Qed.

(** X13: with two or more title spans, the title is the text of the first
    and, when the text of the second is not empty once its leading slashes
    and surrounding white space are taken off, that text is the original
    title, whatever the "other titles" span holds. *)
Theorem second_title_priority (li t0 t1 : node) (more : list node) :
  find_all (u "span") (Some (u "title")) li = t0 :: t1 :: more ->
  strip (lstrip_chars (u "/") (get_text [] t1)) <> [] ->
  parse_title li = get_text [] t0
  /\ parse_original_title li
     = Some (strip (lstrip_chars (u "/") (get_text [] t1)))
  /\ rmap (fun m => (title m, original_title m)) (_parse_movie li)
     = (let! _ := parse_rank li in
        let! _ := parse_votes li in
        Ok (get_text [] t0,
            Some (strip (lstrip_chars (u "/") (get_text [] t1))))).
Proof.
  intros Hspans Hne.
  assert (Ht : parse_title li = get_text [] t0).
  { unfold parse_title. now rewrite Hspans. }
  assert (Ho : parse_original_title li
               = Some (strip (lstrip_chars (u "/") (get_text [] t1)))).
  { unfold parse_original_title, second_title. rewrite Hspans. cbv zeta.
    destruct (strip (lstrip_chars (u "/") (get_text [] t1))) as [|c r];
      [congruence|].
    cbn [nonempty truthy negb].
    destruct (find (u "span") (Some (u "other")) li); reflexivity. }
  split; [exact Ht|]. split; [exact Ho|].
  rewrite parse_movie_project. cbn [title original_title]. now rewrite Ht, Ho.
Qed.

(** X14: a vote count that is read is never negative: only the digit
    characters of the span text reach [int()], so a sign in the text is
    dropped. *)
Theorem votes_never_negative (li : node) (m : Movie) :
  _parse_movie li = Ok m -> 0 <= votes m.
Proof.
  rewrite parse_movie_fields.
  destruct (parse_rank li) as [r|e]; [|discriminate]. cbn [rbind].
  destruct (parse_votes li) as [v|e] eqn:Ev; [|discriminate]. cbn [rbind].
  intros [= <-]. cbn [votes]. exact (parse_votes_nonneg li v Ev).
Qed.

(** X15: an item with no element inside, only strings, is read without
    an error as the record of defaults: rank 0, empty title and link, no
    optional field, no genre or person, rating zero and no votes. *)
Theorem item_without_elements (li : node) :
  forallb is_text (descendants li) = true ->
  _parse_movie li = Ok blank_record.
Proof.
  intros Hn. rewrite parse_movie_fields.
  unfold parse_rank, parse_votes, votes_from_bd, votes_from_star,
    parse_title, parse_original_title, second_title, parse_meta,
    parse_rating, parse_quote, parse_detail_url, parse_poster_url,
    parse_is_playable, parse_directors, parse_actors.
  rewrite !(find_no_tags _ _ li Hn), !(find_all_no_tags _ _ li Hn).
  reflexivity.
Qed.

End ExtractProperties.

(** * Records stored without their optional fields *)

Section StoredProperties.
Context `{Interp}.
Import Py.

(** X16: the constructor, given the dict of a record from which any of
    the four fields with defaults have been left out, or in which the
    directors or the actors are [null], returns the record with no poster,
    not playable, and with empty lists in the place of what is missing. *)
Theorem stored_record_defaults (poster playable : bool)
    (dirs acts : stored_list) (m : Movie) :
  Movie_of_dict (stored_items poster playable dirs acts m)
  = Ok (with_defaults poster playable dirs acts m).
Proof.
  destruct m as [rk ti ot yr co ge ra vo qu du pu pl di ac].
  unfold stored_items, with_defaults, asdict_items, asdict.
  cbn [rank title original_title year country genres rating votes quote
       detail_url poster_url is_playable directors actors firstn].
  match goal with |- context [?b ++ ?t] =>
    match b with (_ :: _) => set (base := b); set (tail := t) end end.
  unfold Movie_of_dict.
  assert (Hkeys :
    forallb (fun kv => existsb (str_eqb (fst kv)) field_names) (base ++ tail)
    = true).
  { rewrite forallb_app. apply andb_true_iff. split; [reflexivity|].
    subst tail. destruct poster, playable, dirs, acts; reflexivity. }
  rewrite Hkeys. cbn [negb].
  assert (Hreq : forall k v, dict_get k base = Some v ->
                             dict_get k (base ++ tail) = Some v).
  { intros k v E. now rewrite dict_get_app, E. }
  assert (Hopt : forall k, dict_get k base = None ->
                           dict_get k (base ++ tail) = dict_get k tail).
  { intros k E. now rewrite dict_get_app, E. }
  rewrite (required_at as_int (u "rank") _ (JInt rk)
             (Hreq (u "rank") (JInt rk) eq_refl)).
  rewrite (required_at as_str (u "title") _ (JStr ti)
             (Hreq (u "title") (JStr ti) eq_refl)).
  rewrite (required_at (as_opt as_str) (u "original_title") _ (opt_json JStr ot)
             (Hreq (u "original_title") (opt_json JStr ot) eq_refl)), as_opt_str.
  rewrite (required_at (as_opt as_int) (u "year") _ (opt_json JInt yr)
             (Hreq (u "year") (opt_json JInt yr) eq_refl)), as_opt_int.
  rewrite (required_at (as_opt as_str) (u "country") _ (opt_json JStr co)
             (Hreq (u "country") (opt_json JStr co) eq_refl)), as_opt_str.
  rewrite (required_at as_strs (u "genres") _ (strs_json ge)
             (Hreq (u "genres") (strs_json ge) eq_refl)), as_strs_strs.
  rewrite (required_at as_float (u "rating") _ (JFloat ra)
             (Hreq (u "rating") (JFloat ra) eq_refl)).
  rewrite (required_at as_int (u "votes") _ (JInt vo)
             (Hreq (u "votes") (JInt vo) eq_refl)).
  rewrite (required_at (as_opt as_str) (u "quote") _ (opt_json JStr qu)
             (Hreq (u "quote") (opt_json JStr qu) eq_refl)), as_opt_str.
  rewrite (required_at as_str (u "detail_url") _ (JStr du)
             (Hreq (u "detail_url") (JStr du) eq_refl)).
  cbn [rbind as_int as_str as_float].
  unfold optional.
  rewrite (Hopt (u "poster_url") eq_refl), (Hopt (u "is_playable") eq_refl),
    (Hopt (u "directors") eq_refl), (Hopt (u "actors") eq_refl).
  clear Hkeys Hreq Hopt. subst tail. clear base.
  destruct poster, playable, dirs, acts;
    cbn [app stored_strs];
    repeat (rewrite dict_get_cons;
            match goal with
            | |- context [str_eqb ?a ?b] =>
              let r := eval vm_compute in (str_eqb a b) in
              change (str_eqb a b) with r
            end; cbv iota);
    rewrite ?dict_get_nil;
    cbn [rbind as_bool];
    rewrite ?as_opt_str, ?as_opt_strs; cbn [rbind as_opt];
    reflexivity.
Qed.

End StoredProperties.

(** * The decade label *)

Section DecadeProperties.
Import Py Analytics.
Local Open Scope Z_scope.


End DecadeProperties.

(** * Closed instances of the further properties *)

Section FurtherExamples.
Import Py Bs4 InfoText Examples Examples2.
#[local] Existing Instance tenths_interp.
Local Open Scope Z_scope.

Lemma home_world_wf : FsSpec.wf (fs home_world).
Proof.
  intros p e Hp Hl. unfold home_world in Hl. cbn [fs] in Hl.
  apply lookup_insert_Some in Hl as [[<- <-]|[Hne Hl]].
  - reflexivity.
  - apply lookup_singleton_Some in Hl as [<- <-]. reflexivity.
Qed.

Lemma tenths_delays_accepted (self : DoubanTop250Scraper) :
  delays_accepted self.
Proof. intros n. reflexivity. Qed.

Lemma full_pass_outcome_witness :
  fst (fetch_movies (plain_scraper true) true listing_world)
    = Ok (pages_records (server listing_world) 0 offsets)
  /\ Fs.read_text
       (fs (snd (fetch_movies (plain_scraper true) true listing_world)))
       (cache_path (plain_scraper true))
     = Ok (cache_text (pages_records (server listing_world) 0 offsets)).
Proof.
  rewrite (full_pass_outcome (plain_scraper true) true listing_world
             (tenths_delays_accepted _) eq_refl eq_refl
             (fun _ => conj eq_refl eq_refl)).
  split; reflexivity.
Defined.

Lemma refetch_after_pass_witness :
  let w1 := snd (fetch_movies (plain_scraper true) true listing_world) in
  fst (fetch_movies (plain_scraper true) false
         {| fs := fs w1; server := fun _ _ => Unreachable; log := log w1 |})
  = Ok (pages_records (server listing_world) 0 offsets).
Proof.
  cbv zeta.
  rewrite (proj2 (refetch_after_pass (plain_scraper true) true listing_world
                    (tenths_delays_accepted _) eq_refl eq_refl eq_refl
                    eq_refl eq_refl (tenths_ratings_read_back _))
             (fun _ _ => Unreachable)).
  reflexivity.
Defined.

Lemma failing_page_ends_pass_witness :
  fst (fetch_movies (plain_scraper false) false failing_world)
    = Raise (HTTPError 503)
  /\ List.filter is_net
       (log (snd (fetch_movies (plain_scraper false) false failing_world)))
     = [Get 0; Sleep; Get 25; Sleep; Get 50].
Proof.
  destruct (failing_page_ends_pass (plain_scraper false) false failing_world
              [0; 25] 50 [75; 100; 125; 150; 175; 200; 225] (HTTPError 503)
              (tenths_delays_accepted _) eq_refl eq_refl eq_refl eq_refl)
    as [E F].
  rewrite E. split; [reflexivity|]. exact F.
Defined.

Lemma uncached_fetch_ignores_files_witness :
  fs (snd (fetch_movies (plain_scraper false) false listing_world))
  = fs listing_world.
Proof.
  exact (proj1 (uncached_fetch_ignores_files (plain_scraper false) false
                  listing_world eq_refl)).
Defined.

Lemma unwritable_cache_loses_pass_witness :
  exists e,
    fst (fetch_movies (plain_scraper true) true occupied_world) = Raise e
    /\ fs (snd (fetch_movies (plain_scraper true) true occupied_world))
       = fs occupied_world
    /\ (e = FileNotFoundError \/ e = NotADirectoryError
        \/ e = IsADirectoryError).
Proof.
  destruct (unwritable_cache_loses_pass (plain_scraper true) true
              occupied_world (tenths_delays_accepted _) eq_refl eq_refl
              eq_refl eq_refl eq_refl)
    as (e & E & He & _).
  exists e. rewrite E. split; [reflexivity|]. split; [reflexivity|exact He].
Defined.

Lemma home_world_clear (k : list string) :
  FsSpec.no_file_on (fs home_world) ("home"%string :: "cache"%string :: k).
Proof.
  intros q c [k' Hk] Hs. destruct q as [|a [|b q]].
  - discriminate Hs.
  - injection Hk as <-. discriminate Hs.
  - injection Hk as <- <- _. unfold Fs.stat in Hs. cbn [fs home_world] in Hs.
    rewrite lookup_insert_ne in Hs by discriminate.
    rewrite lookup_singleton_ne in Hs by discriminate. discriminate.
Qed.

Lemma init_only_adds_directories_witness :
  exists self w',
    __init__ (H := tenths_interp)
      ["home"%string; "cache"%string; "douban"%string]
      "douban_top250.json" true (n1, n0) (n2, n5) home_world = (Ok self, w')
    /\ Fs.stat (fs w') ["home"%string; "notes.txt"%string]
       = Some (Fs.File (u "remember")).
Proof.
  destruct (init_only_adds_directories (H := tenths_interp)
              ["home"%string; "cache"%string; "douban"%string]
              "douban_top250.json" true (n1, n0) (n2, n5) home_world
              eq_refl eq_refl home_world_wf
              (home_world_clear ["douban"%string]))
    as (self & w' & E & _ & Hkeep & _).
  exists self, w'. split; [exact E|]. apply Hkeep. reflexivity.
Defined.

Lemma init_existing_directory_witness :
  snd (__init__ (H := tenths_interp) ["home"%string] "douban_top250.json"
         true (n1, n0) (n2, n5) home_world)
  = home_world.
Proof.
  exact (proj1 (init_existing_directory (H := tenths_interp) ["home"%string]
                  "douban_top250.json" true (n1, n0) (n2, n5) home_world
                  home_world_wf eq_refl)).
Defined.


Lemma fresh_scraper_cache_roundtrip_witness :
  exists self w1 w2,
    __init__ (H := tenths_interp) ["home"%string; "cache"%string]
      "douban_top250.json" true (n1, n0) (n2, n5) home_world = (Ok self, w1)
    /\ _write_cache self [listed_movie] w1 = (Ok tt, w2)
    /\ _load_from_cache self w2 = (Ok [listed_movie], w2).
Proof.
  exact (fresh_scraper_cache_roundtrip (H := tenths_interp)
           ["home"%string; "cache"%string] "douban_top250.json" true (n1, n0) (n2, n5) home_world
           [listed_movie] eq_refl eq_refl eq_refl
           (tenths_ratings_read_back _) home_world_wf
           (home_world_clear []) eq_refl).
Defined.

Lemma people_from_info_text_witness :
  parse_directors credited_item = [u "弗兰克·德拉邦特 Frank Darabont"]
  /\ parse_actors credited_item
     = [u "蒂姆·罗宾斯 Tim Robbins"; u "摩根·弗里曼1994"; u "美国";
        u "犯罪 剧情"].
Proof.
  destruct (people_from_info_text credited_item credited_info []
              (u " 弗兰克·德拉邦特 Frank Darabont   ")
              (Some (u " 蒂姆·罗宾斯 Tim Robbins / 摩根·弗里曼1994 / 美国 / 犯罪 剧情"))
              eq_refl eq_refl eq_refl eq_refl eq_refl eq_refl) as [Hd Ha].
  rewrite Hd, Ha. split; reflexivity.
Defined.

Lemma cast_runs_into_next_line_witness :
  parse_actors credited_item
  = [u "蒂姆·罗宾斯 Tim Robbins"; u "摩根·弗里曼1994"; u "美国"; u "犯罪 剧情"].
Proof.
  rewrite (cast_runs_into_next_line credited_item (u "p") [] []
             (u " 导演: 弗兰克·德拉邦特 Frank Darabont   主演: 蒂姆·罗宾斯 Tim Robbins / 摩根·弗里曼 ")
             (u " 1994 / 美国 / 犯罪 剧情 ") (u "br") [] []
             (u "导演: 弗兰克·德拉邦特 Frank Darabont   ")
             (u " 蒂姆·罗宾斯 Tim Robbins / 摩根·弗里曼")
             eq_refl eq_refl eq_refl eq_refl eq_refl).
  reflexivity.
Defined.

Lemma second_title_priority_witness :
  parse_title credited_item = u "肖申克的救赎"
  /\ parse_original_title credited_item = Some (u "The Shawshank Redemption").
Proof.
  destruct (second_title_priority credited_item
              (Tag (u "span") [u "title"] [] [text "肖申克的救赎"])
              (Tag (u "span") [u "title"] [] [text " / The Shawshank Redemption"])
              [] eq_refl ltac:(vm_compute; discriminate)) as (Ht & Ho & _).
  rewrite Ht, Ho. split; reflexivity.
Defined.

Lemma votes_never_negative_witness :
  exists m, _parse_movie credited_item = Ok m /\ votes m = 5 /\ 0 <= votes m.
Proof.
  eexists. split; [vm_compute; reflexivity|]. split; [reflexivity|].
  apply (votes_never_negative credited_item). vm_compute. reflexivity.
Defined.

Lemma item_without_elements_witness :
  _parse_movie bare_item = Ok blank_record.
Proof. exact (item_without_elements bare_item eq_refl). Defined.

End FurtherExamples.
